(** * LearnFlow chatbot server: request orchestration and context assembly

    A shallow embedding of the chat relay in [server.js] and of the
    helpers it imports ([utils/educationalUtils.js],
    [utils/websiteKnowledgeUtils.js], [utils/webSearchUtils.js]).

    Text.  JavaScript strings are embedded as [string], which holds the
    UTF-8 form of the text (the units of a lone surrogate in the same
    three-byte form).  The patterns of the code have no [u] flag: their
    [\d], [\b], letter ranges and literal letters under [i] take ASCII
    code units only, in JavaScript as here, and a byte above 127 is
    neither a letter, a digit nor a word character.  [\s] and [trim]
    take the white space of ECMAScript, ASCII or not, by its UTF-8 form.
    [length] and [substring] count the 16-bit code units of JavaScript.
    [toLowerCase] follows the Unicode tables of the platform: it is
    taken as given, with the few facts about it that the proofs use.
    [toUpperCase] is the mapping of the letters a to z, which is what it
    is on the letters and digits of a matched course code, the text that
    the extractors and the server apply it to.

    Numbers.  Counters, lengths and time stamps are integers; no value of
    the modelled paths leaves the range where a double is exact, except
    the unit number of [extractResourceInfo], whose rendering is a
    parameter of the composer. *)

From Stdlib Require Import ZArith Ascii List Bool Lia DecimalString.
From stdpp Require Import gmap strings list.

Import ListNotations.
Local Open Scope Z_scope.
Set Warnings "-register-all".

(** ** Code units *)

Module Char.

Definition code (c : ascii) : N := N_of_ascii c.

Definition between (lo hi : N) (c : ascii) : bool :=
  ((lo <=? code c) && (code c <=? hi))%N.

(** [\d] *)
Definition is_digit (c : ascii) : bool := between 48 57 c.

Definition is_upper (c : ascii) : bool := between 65 90 c.
Definition is_lower (c : ascii) : bool := between 97 122 c.

(** [[A-Za-z]] *)
Definition is_letter (c : ascii) : bool := is_upper c || is_lower c.

(** [\w], the class behind [\b]. *)
Definition is_word (c : ascii) : bool :=
  is_letter c || is_digit c || (code c =? 95)%N.

Definition toLowerCase (c : ascii) : ascii :=
  if is_upper c then ascii_of_N (code c + 32) else c.

Definition toUpperCase (c : ascii) : ascii :=
  if is_lower c then ascii_of_N (code c - 32) else c.

(** Equality of code units under the [i] flag. *)
Definition eq_nocase (a b : ascii) : bool :=
  (code (toUpperCase a) =? code (toUpperCase b))%N.

End Char.

(** ** White space

    The white space and the line terminators of ECMAScript, which [\s]
    matches and [trim] removes: TAB, LF, VT, FF, CR, SPACE, U+00A0, U+1680,
    U+2000 to U+200A, U+2028, U+2029, U+202F, U+205F, U+3000 and U+FEFF,
    each by the code units of its UTF-8 form. *)

Module White.

Definition encodings : list (list N) :=
  [ [9]; [10]; [11]; [12]; [13]; [32];
    [194; 160];
    [225; 154; 128];
    [226; 128; 128]; [226; 128; 129]; [226; 128; 130]; [226; 128; 131];
    [226; 128; 132]; [226; 128; 133]; [226; 128; 134]; [226; 128; 135];
    [226; 128; 136]; [226; 128; 137]; [226; 128; 138];
    [226; 128; 168]; [226; 128; 169];
    [226; 128; 175];
    [226; 129; 159];
    [227; 128; 128];
    [239; 187; 191] ]%N.

(** What is left of [l] after the code units [w], when [l] starts with
    them. *)
Fixpoint after (w : list N) (l : list ascii) : option (list ascii) :=
  match w, l with
  | [], _ => Some l
  | n :: w', c :: l' => if (Char.code c =? n)%N then after w' l' else None
  | _ :: _, [] => None
  end.

(** What is left of [l] after the first of the [forms] that it starts
    with. *)
Definition behead (forms : list (list N)) (l : list ascii) : option (list ascii) :=
  foldr (λ w found, match after w l with Some remainder => Some remainder | None => found end)
        None forms.

(** [l] without the white space it starts with.  Every step shortens the
    text, so the fuel [length l] is never used up. *)
Fixpoint strip (forms : list (list N)) (fuel : nat) (l : list ascii) : list ascii :=
  match fuel with
  | O => l
  | S fuel' =>
      match behead forms l with
      | Some remainder => strip forms fuel' remainder
      | None => l
      end
  end.

Definition trimStart (l : list ascii) : list ascii := strip encodings (length l) l.

(** The end of the text is its start read backwards. *)
Definition trimEnd (l : list ascii) : list ascii :=
  rev (strip (List.map (@rev N) encodings) (length l) (rev l)).

End White.

(** ** Strings *)

Module Str.

Fixpoint map (f : ascii → ascii) (s : string) : string :=
  match s with
  | EmptyString => EmptyString
  | String c t => String (f c) (map f t)
  end.

(** [s.toUpperCase()], on the letters a to z. *)
Definition toUpperCase : string → string := map Char.toUpperCase.

(** [s] is 7-bit text. *)
Definition plain (s : string) : bool :=
  forallb (λ c, (Char.code c <? 128)%N) (String.list_ascii_of_string s).

(** [s.toLowerCase()].  JavaScript lower-cases by the Unicode tables of the
    platform.  The function is taken as given, with these facts about it:
    7-bit text is lower-cased letter by letter, also where it stands inside
    other text, and no text but the empty one becomes empty. *)
Class Casing : Type := {
  toLowerCase : string → string;
  lower_plain : ∀ s, plain s = true → toLowerCase s = map Char.toLowerCase s;
  lower_keeps : ∀ before s after,
    plain s = true →
    ∃ before' after',
      toLowerCase (before +:+ s +:+ after)
      = before' +:+ map Char.toLowerCase s +:+ after';
  lower_nonempty : ∀ s, toLowerCase s = "" → s = ""
}.

(** [s.startsWith(k)] *)
Fixpoint startsWith (s k : string) {struct k} : bool :=
  match k, s with
  | EmptyString, _ => true
  | String a k', String b s' => (Char.code a =? Char.code b)%N && startsWith s' k'
  | String _ _, EmptyString => false
  end.

(** [s.includes(k)] *)
Fixpoint includes (s k : string) : bool :=
  startsWith s k ||
  match s with
  | EmptyString => false
  | String _ s' => includes s' k
  end.

Definition of_list : list ascii → string := String.string_of_list_ascii.
Definition to_list : string → list ascii := String.list_ascii_of_string.

(** [s.trim()] *)
Definition trim (s : string) : string :=
  of_list (White.trimEnd (White.trimStart (to_list s))).

(** [parts.join(sep)] *)
Fixpoint join (sep : string) (parts : list string) : string :=
  match parts with
  | [] => ""
  | [p] => p
  | p :: ps => p +:+ sep +:+ join sep ps
  end.

(** [s.split(sep)] for a one-character separator. *)
Fixpoint split_aux (sep : ascii) (cur : list ascii) (s : string) : list string :=
  match s with
  | EmptyString => [of_list (rev cur)]
  | String c t =>
      if (Char.code c =? Char.code sep)%N
      then of_list (rev cur) :: split_aux sep [] t
      else split_aux sep (c :: cur) t
  end.

Definition split (sep : ascii) (s : string) : list string := split_aux sep [] s.

(** The line feed, [\n]. *)
Definition nl : string := String "010" "".

(** [`${n}`] for a non-negative integer. *)
Definition of_nat (n : nat) : string := NilZero.string_of_uint (Nat.to_uint n).

(** [s] occurs in [t]. *)
Definition occurs_in (s t : string) : Prop :=
  ∃ pre post, t = pre +:+ s +:+ post.

(** *** Counting in code units

    [s.length] and [s.substring] count the 16-bit code units of
    JavaScript.  A character is one unit, except a character of four bytes
    here, which is two units there, a high and a low surrogate. *)

(** The number of bytes of the character that [c] starts. *)
Definition width (c : ascii) : nat :=
  if (Char.code c <? 192)%N then 1
  else if (Char.code c <? 224)%N then 2
  else if (Char.code c <? 240)%N then 3
  else 4.

Fixpoint count_units (fuel : nat) (l : list ascii) : nat :=
  match fuel, l with
  | S fuel', c :: rest =>
      (if (width c =? 4)%nat then 2 else 1)%nat
      + count_units fuel' (drop (width c - 1) rest)
  | _, _ => 0%nat
  end.

(** [s.length] *)
Definition code_units (s : string) : nat :=
  count_units (String.length s) (to_list s).

(** The high surrogate of a character of four bytes, in three bytes. *)
Definition high_surrogate (l : list ascii) : list ascii :=
  match List.map Char.code l with
  | [b0; b1; b2; b3] =>
      let point :=
        (N.land b0 7 * 262144 + N.land b1 63 * 4096 + N.land b2 63 * 64 + N.land b3 63)%N in
      let high := (55296 + (point - 65536) / 1024)%N in
      [ascii_of_N 237; ascii_of_N (128 + (high / 64) mod 64); ascii_of_N (128 + high mod 64)]
  | _ => l
  end.

(** The first [n] code units of [l]; a cut inside a character of two units
    leaves its high surrogate. *)
Fixpoint take_units (n : nat) (l : list ascii) : list ascii :=
  match n, l with
  | S n', c :: rest =>
      if (width c =? 4)%nat then
        match n' with
        | S n'' => take 4 l ++ take_units n'' (drop 3 rest)
        | O => high_surrogate (take 4 l)
        end
      else take (width c) l ++ take_units n' (drop (width c - 1) rest)
  | _, _ => []
  end.

(** [s.substring(0, n)] *)
Definition substring_from_0 (n : nat) (s : string) : string :=
  of_list (take_units n (to_list s)).

End Str.


(** ** Regular expressions

    The backtracking matcher of the regular-expression literals used by the
    extractors.  A matcher returns every way of matching from a state, in
    the order in which backtracking tries them; the match of the whole
    expression is the first one. *)

Module Regex.

Inductive regex : Type :=
| Empty
| Class (p : ascii → bool)      (* a set of code units *)
| Seq (r1 r2 : regex)
| Alt (r1 r2 : regex)           (* [r1|r2], [r1] first *)
| Star (r : regex)              (* [r*], greedy *)
| WordBoundary                  (* [\b] *)
| Group (n : nat) (r : regex).  (* the [n]-th capturing parentheses *)

(** Position in the subject (the text before it, latest first, and the
    text after it) and the captures so far. *)
Record mstate : Type := MState {
  seen : list ascii;
  rest : list ascii;
  caps : list (option (list ascii))
}.

Definition consumed (s s' : mstate) : list ascii :=
  take (length (rest s) - length (rest s'))%nat (rest s).

Definition at_word_boundary (s : mstate) : bool :=
  let a := match seen s with c :: _ => Char.is_word c | [] => false end in
  let b := match rest s with c :: _ => Char.is_word c | [] => false end in
  xorb a b.

Definition set_cap (n : nat) (s s' : mstate) : mstate :=
  MState (seen s') (rest s') (<[n := Some (consumed s s')]> (caps s')).

(** Greedy iteration of [step]; an iteration that consumes nothing is
    rejected.  Every iteration shortens [rest], so the fuel
    [S (length (rest s))] is never used up. *)
Fixpoint star_loop (step : mstate → list mstate) (fuel : nat) (s : mstate)
  : list mstate :=
  match fuel with
  | O => [s]
  | S fuel' =>
      flat_map
        (λ s', if (length (rest s') <? length (rest s))%nat
               then star_loop step fuel' s' else [])
        (step s)
      ++ [s]
  end.

Fixpoint rmatch (r : regex) (s : mstate) : list mstate :=
  match r with
  | Empty => [s]
  | Class p =>
      match rest s with
      | c :: t => if p c then [MState (c :: seen s) t (caps s)] else []
      | [] => []
      end
  | Seq r1 r2 => flat_map (rmatch r2) (rmatch r1 s)
  | Alt r1 r2 => rmatch r1 s ++ rmatch r2 s
  | Star r1 => star_loop (rmatch r1) (S (length (rest s))) s
  | WordBoundary => if at_word_boundary s then [s] else []
  | Group n r1 => List.map (set_cap n s) (rmatch r1 s)
  end.

(** Derived forms. *)
Definition Opt (r : regex) : regex := Alt r Empty.          (* [r?] *)
Definition Plus (r : regex) : regex := Seq r (Star r).      (* [r+] *)

Fixpoint Cat (rs : list regex) : regex :=
  match rs with
  | [] => Empty
  | [r] => r
  | r :: rs' => Seq r (Cat rs')
  end.

(** [r{lo,lo+extra}], greedy. *)
Fixpoint Upto (extra : nat) (r : regex) : regex :=
  match extra with
  | O => Empty
  | S k => Opt (Seq r (Upto k r))
  end.

Fixpoint Repeat (lo extra : nat) (r : regex) : regex :=
  match lo with
  | O => Upto extra r
  | S k => Seq r (Repeat k extra r)
  end.

(** A literal character and a literal word under the [i] flag. *)
Definition Lit (c : ascii) : regex := Class (Char.eq_nocase c).

Fixpoint Word (w : string) : regex :=
  match w with
  | EmptyString => Empty
  | String c EmptyString => Lit c
  | String c t => Seq (Lit c) (Word t)
  end.

Fixpoint AnyOf (rs : list regex) : regex :=
  match rs with
  | [] => Class (λ _, false)
  | [r] => r
  | r :: rs' => Alt r (AnyOf rs')
  end.

(** The code unit [n], and the code units [w] in a row. *)
Definition Code (n : N) : regex := Class (λ c, (Char.code c =? n)%N).
Definition Codes (w : list N) : regex := Cat (List.map Code w).

(** [\s]: one character of white space. *)
Definition Space : regex := AnyOf (List.map Codes White.encodings).

(** [RegExp.prototype.exec] without the [g] flag: the first start
    position that admits a match, and there the first match.  The result
    is the match array: the whole match at index 0, then the groups. *)
Definition finish (start s' : mstate) : list (option string) :=
  List.map (option_map Str.of_list)
    (<[0%nat := Some (consumed start s')]> (caps s')).

Fixpoint search (r : regex) (ngroups : nat) (before after : list ascii)
  : option (list (option string)) :=
  let start := MState before after (replicate (S ngroups) None) in
  match rmatch r start with
  | s' :: _ => Some (finish start s')
  | [] =>
      match after with
      | [] => None
      | c :: t => search r ngroups (c :: before) t
      end
  end.

Definition exec (r : regex) (ngroups : nat) (subject : string)
  : option (list (option string)) :=
  search r ngroups [] (Str.to_list subject).

(** [m[i]] of a match array, for a group that took part in the match. *)
Definition group (m : list (option string)) (i : nat) : string :=
  default "" (mjoin (m !! i)).

End Regex.

(** ** utils/educationalUtils.js *)

Module Edu.

Import Regex.

Record CourseInfo : Type := {
  name : string;
  description : string;
  topics : list string;
  resources : list (string * string)   (* name, path *)
}.

Definition courseDatabase : gmap string CourseInfo :=
  list_to_map [
    ("CHB101", {|
       name := "Chemistry Basics 101";
       description := "Introduction to basic chemistry concepts including atoms, molecules, and chemical reactions.";
       topics := ["Atomic Structure"; "Periodic Table"; "Chemical Bonding";
                  "Stoichiometry"; "Nanomaterials"; "Chemical Reactions"];
       resources := [("Lecture Notes", "/resources/chb101/lectures");
                     ("Lab Manuals", "/resources/chb101/labs");
                     ("Practice Problems", "/resources/chb101/practice")] |});
    ("ITC101", {|
       name := "Introduction to Computing 101";
       description := "Fundamentals of computer science and programming.";
       topics := ["Computer Architecture"; "Binary and Hexadecimal"; "Algorithms";
                  "Programming Basics"; "Data Structures"; "Problem Solving"];
       resources := [("Lecture Notes", "/resources/itc101/lectures");
                     ("Programming Exercises", "/resources/itc101/exercises");
                     ("Reference Materials", "/resources/itc101/references")] |});
    ("CSE201", {|
       name := "Computer Science Engineering 201";
       description := "Advanced topics in computer science and engineering.";
       topics := ["Object-Oriented Programming"; "Database Systems"; "Web Development";
                  "Software Engineering"; "Network Fundamentals"; "IoT Basics"];
       resources := [("Lecture Notes", "/resources/cse201/lectures");
                     ("Project Materials", "/resources/cse201/projects");
                     ("Reference Materials", "/resources/cse201/references")] |})
  ].

Record SemesterInfo : Type := {
  courses : list string;
  path : string
}.

Definition semesterResources : gmap string SemesterInfo :=
  list_to_map [
    ("1", {| courses := ["CHB101"; "ITC101"; "MTH101"; "PHY101"; "ENG101"];
             path := "/resources/semester1" |});
    ("2", {| courses := ["CHB102"; "ITC102"; "MTH102"; "PHY102"; "ENG102"];
             path := "/resources/semester2" |});
    ("3", {| courses := ["CSE201"; "CSE202"; "MTH201"; "ECE201"; "HUM201"];
             path := "/resources/semester3" |});
    ("4", {| courses := ["CSE203"; "CSE204"; "MTH202"; "ECE202"; "HUM202"];
             path := "/resources/semester4" |})
  ].

(** The navigation table is read from [data/websiteNavigation.json] when
    the module is loaded; it is an input of the model.  A section that is
    missing from the file behaves as an empty one. *)
Module Nav.
Record Page : Type := { page_name : string; page_path : string; page_description : string }.
Record Department : Type := {
  dept_code : string; dept_name : string; dept_path : string; dept_courses : list string }.
Record Semester : Type := {
  sem_number : nat; sem_name : string; sem_path : string; sem_courses : list string }.
Record Resource : Type := { res_name : string; res_path : string; res_description : string }.
Record table : Type := {
  pages : list Page;
  departments : list Department;
  semesters : list Semester;
  resources : list Resource
}.
(** The table used when the file cannot be read. *)
Definition empty : table :=
  {| pages := []; departments := []; semesters := []; resources := [] |}.
End Nav.

Definition getCourseInfo (courseCode : string) : option CourseInfo :=
  let normalizedCode := Str.toUpperCase courseCode in
  courseDatabase !! normalizedCode.

Definition getSemesterResources (semester : string) : option SemesterInfo :=
  semesterResources !! semester.

Definition navigationKeywords : list string :=
  ["where"; "find"; "locate"; "show me"; "how to access";
   "resources"; "materials"; "lectures"; "notes"; "semester"].

Definition isNavigationQuery {casing : Str.Casing} (query : string) : bool :=
  let lowercaseQuery := Str.toLowerCase query in
  existsb (λ keyword, Str.includes lowercaseQuery keyword) navigationKeywords.

Definition letter : regex := Class Char.is_letter.
Definition digit : regex := Class Char.is_digit.
Definition space : regex := Space.

(** [/\b([A-Za-z]{2,3})\s*(\d{3})\b/i] *)
Definition courseCodeRegex : regex :=
  Cat [WordBoundary; Group 1 (Repeat 2 1 letter); Star space;
       Group 2 (Repeat 3 0 digit); WordBoundary].

Definition extractCourseCode (query : string) : option string :=
  match exec courseCodeRegex 2 query with
  | Some m =>
      let courseCode := Str.toUpperCase (group m 1 +:+ group m 2) in
      if courseDatabase !! courseCode is Some _ then Some courseCode else None
  | None => None
  end.

(** [(st|nd|rd|th)?\s+sem(ester)?\b], the tail shared by the semester
    patterns; its parentheses are the groups [g] and [g + 1]. *)
Definition semesterTail (g : nat) : list regex :=
  [Opt (Group g (AnyOf [Word "st"; Word "nd"; Word "rd"; Word "th"]));
   Plus space; Word "sem"; Opt (Group (S g) (Word "ester")); WordBoundary].

(** [new RegExp(`\\b${sem.number}(st|nd|rd|th)?\\s+sem(ester)?\\b`, 'i')] *)
Definition semRegex (number : nat) : regex :=
  Cat (WordBoundary :: Word (Str.of_nat number) :: semesterTail 1).

Definition getWebsiteNavigationInfo {casing : Str.Casing} (websiteNavigation : Nav.table) (query : string)
  : string :=
  let lowercaseQuery := Str.toLowerCase query in
  let navigationInfo := "" in
  let navigationInfo :=
    foldl (λ acc page,
        if Str.includes lowercaseQuery (Str.toLowerCase (Nav.page_name page))
        then acc +:+ Str.nl +:+ "The " +:+ Nav.page_name page
                 +:+ " page can be found at " +:+ Nav.page_path page +:+ ". "
                 +:+ Nav.page_description page +:+ Str.nl
        else acc)
      navigationInfo (Nav.pages websiteNavigation) in
  let navigationInfo :=
    foldl (λ acc dept,
        if Str.includes lowercaseQuery (Str.toLowerCase (Nav.dept_code dept))
           || Str.includes lowercaseQuery (Str.toLowerCase (Nav.dept_name dept))
        then acc +:+ Str.nl +:+ "The " +:+ Nav.dept_name dept
                 +:+ " (" +:+ Nav.dept_code dept
                 +:+ ") department page can be found at " +:+ Nav.dept_path dept
                 +:+ ". It offers courses: " +:+ Str.join ", " (Nav.dept_courses dept)
                 +:+ "." +:+ Str.nl
        else acc)
      navigationInfo (Nav.departments websiteNavigation) in
  let navigationInfo :=
    foldl (λ acc sem,
        if exec (semRegex (Nav.sem_number sem)) 2 lowercaseQuery is Some _
        then acc +:+ Str.nl +:+ "The " +:+ Nav.sem_name sem
                 +:+ " page can be found at " +:+ Nav.sem_path sem
                 +:+ ". It includes courses: " +:+ Str.join ", " (Nav.sem_courses sem)
                 +:+ "." +:+ Str.nl
        else acc)
      navigationInfo (Nav.semesters websiteNavigation) in
  let navigationInfo :=
    foldl (λ acc resource,
        if Str.includes lowercaseQuery (Str.toLowerCase (Nav.res_name resource))
        then acc +:+ Str.nl +:+ "The " +:+ Nav.res_name resource
                 +:+ " can be found at " +:+ Nav.res_path resource +:+ ". "
                 +:+ Nav.res_description resource +:+ Str.nl
        else acc)
      navigationInfo (Nav.resources websiteNavigation) in
  navigationInfo.

End Edu.

(** ** utils/websiteKnowledgeUtils.js *)

Module Knowledge.

Import Regex.

(** An entry of [scanDirectory]. *)
Record FileInfo : Type := {
  name : string;
  path : string;
  fullPath : string;
  extension : string;
  size : N;
  modified : Z
}.

(** An entry of [downloads.json]; every field may be missing. *)
Record Download : Type := {
  title : option string;
  description : option string;
  tags : option (list string);
  url : option string
}.

(** [resourceDatabase], filled when the module is loaded and read-only
    afterwards. *)
Record ResourceDatabase : Type := {
  assignments : list FileInfo;
  notes : list FileInfo;
  labManuals : list FileInfo;
  downloads : list Download
}.

Record SearchResults : Type := {
  r_assignments : list FileInfo;
  r_notes : list FileInfo;
  r_labManuals : list FileInfo;
  r_downloads : list Download;
  totalResults : nat
}.

Definition fileMatches {casing : Str.Casing} (normalizedQuery : string) (file : FileInfo) : bool :=
  Str.includes (Str.toLowerCase (name file)) normalizedQuery
  || Str.includes (Str.toLowerCase (path file)) normalizedQuery.

(** [field && field.toLowerCase().includes(q)]: a missing or empty
    field is falsy. *)
Definition textMatches {casing : Str.Casing} (normalizedQuery : string) (field : option string) : bool :=
  match field with
  | Some (String _ _ as text) => Str.includes (Str.toLowerCase text) normalizedQuery
  | _ => false
  end.

Definition tagsMatch {casing : Str.Casing} (normalizedQuery : string) (field : option (list string)) : bool :=
  match field with
  | Some tags => existsb (λ tag, Str.includes (Str.toLowerCase tag) normalizedQuery) tags
  | None => false
  end.

Definition downloadMatches {casing : Str.Casing} (normalizedQuery : string) (item : Download) : bool :=
  textMatches normalizedQuery (title item)
  || textMatches normalizedQuery (description item)
  || tagsMatch normalizedQuery (tags item).

Definition searchResources {casing : Str.Casing} (resourceDatabase : ResourceDatabase) (query : string)
  : SearchResults :=
  let normalizedQuery := Str.toLowerCase query in
  let matchingAssignments :=
    List.filter (fileMatches normalizedQuery) (assignments resourceDatabase) in
  let matchingNotes :=
    List.filter (fileMatches normalizedQuery) (notes resourceDatabase) in
  let matchingLabManuals :=
    List.filter (fileMatches normalizedQuery) (labManuals resourceDatabase) in
  let matchingDownloads :=
    List.filter (downloadMatches normalizedQuery) (downloads resourceDatabase) in
  {| r_assignments := matchingAssignments;
     r_notes := matchingNotes;
     r_labManuals := matchingLabManuals;
     r_downloads := matchingDownloads;
     totalResults := length matchingAssignments + length matchingNotes
                     + length matchingLabManuals + length matchingDownloads |}.

Record ResourceInfo : Type := {
  courseCode : option string;
  unit : option N;
  semester : option nat;
  resourceType : option string
}.

(** [/\bunit\s*(\d+)\b/i] *)
Definition unitRegex : regex :=
  Cat [WordBoundary; Word "unit"; Star Edu.space; Group 1 (Plus Edu.digit); WordBoundary].

(** [/\b(\d)(st|nd|rd|th)?\s+sem(ester)?\b/i] *)
Definition semesterRegex : regex :=
  Cat (WordBoundary :: Group 1 Edu.digit :: Edu.semesterTail 2).

(** [/\b(pdf|notes|manual|assignment|lab|download)\b/i] *)
Definition resourceTypeRegex : regex :=
  Cat [WordBoundary;
       Group 1 (AnyOf [Word "pdf"; Word "notes"; Word "manual";
                       Word "assignment"; Word "lab"; Word "download"]);
       WordBoundary].

(** [parseInt] of a string of decimal digits. *)
Definition digitValue (c : ascii) : N := (Char.code c - 48)%N.

Fixpoint parseInt_aux (acc : N) (s : string) : N :=
  match s with
  | EmptyString => acc
  | String c t => parseInt_aux (10 * acc + digitValue c)%N t
  end.

Definition parseInt (s : string) : N := parseInt_aux 0%N s.

Definition extractResourceInfo {casing : Str.Casing} (query : string) : ResourceInfo :=
  let courseMatch := exec Edu.courseCodeRegex 2 query in
  let unitMatch := exec unitRegex 1 query in
  let semesterMatch := exec semesterRegex 3 query in
  let resourceTypeMatch := exec resourceTypeRegex 1 query in
  {| courseCode :=
       (λ m, Str.toUpperCase (group m 1 +:+ group m 2)) <$> courseMatch;
     unit := (λ m, parseInt (group m 1)) <$> unitMatch;
     semester := (λ m, N.to_nat (parseInt (group m 1))) <$> semesterMatch;
     resourceType := (λ m, Str.toLowerCase (group m 1)) <$> resourceTypeMatch |}.

(** [`${field}`] of a field that may be missing. *)
Definition text (field : option string) : string := default "undefined" field.

(** [field || fallback] *)
Definition or_else (field : option string) (fallback : string) : string :=
  match field with
  | Some (String _ _ as s) => s
  | _ => fallback
  end.

Section QueryContext.

Context {casing : Str.Casing}.

(** [`${n}`] for the number that [parseInt] returns on a numeral of
    value [n]: the decimal numeral of [n] as long as [n] is below
    [2^53]. *)
Variable numberText : N → string.

Definition fileLines (context : string) (files : list FileInfo) : string :=
  foldl (λ context file,
      context +:+ "  * " +:+ name file +:+ " (" +:+ path file +:+ ")" +:+ Str.nl)
    context (take 3 files).

Definition downloadLines (context : string) (items : list Download) : string :=
  foldl (λ context item,
      context +:+ "  * " +:+ text (title item) +:+ " ("
              +:+ or_else (url item) "No URL provided" +:+ ")" +:+ Str.nl)
    context (take 3 items).

Definition getQueryContext (resourceDatabase : ResourceDatabase) (query : string)
  : string :=
  let resourceInfo := extractResourceInfo query in
  let searchResults := searchResources resourceDatabase query in
  let context := "" in
  let context :=
    match courseCode resourceInfo with
    | Some (String _ _ as code) =>
        context +:+ "The user is asking about course " +:+ code +:+ ". "
    | _ => context
    end in
  let context :=
    match unit resourceInfo with
    | Some (Npos _ as n) =>
        context +:+ "They are specifically interested in Unit " +:+ numberText n +:+ ". "
    | _ => context
    end in
  let context :=
    match semester resourceInfo with
    | Some (S _ as n) =>
        context +:+ "They are looking for Semester " +:+ Str.of_nat n +:+ " materials. "
    | _ => context
    end in
  let context :=
    match resourceType resourceInfo with
    | Some (String _ _ as type) =>
        context +:+ "They want to find " +:+ type +:+ " resources. "
    | _ => context
    end in
  if (0 <? totalResults searchResults)%nat then
    let context :=
      context +:+ Str.nl +:+ "I found " +:+ Str.of_nat (totalResults searchResults)
              +:+ " resources that might be relevant:" +:+ Str.nl in
    let context :=
      if (0 <? length (r_assignments searchResults))%nat then
        fileLines
          (context +:+ "- " +:+ Str.of_nat (length (r_assignments searchResults))
                   +:+ " assignments" +:+ Str.nl)
          (r_assignments searchResults)
      else context in
    let context :=
      if (0 <? length (r_notes searchResults))%nat then
        fileLines
          (context +:+ "- " +:+ Str.of_nat (length (r_notes searchResults))
                   +:+ " notes" +:+ Str.nl)
          (r_notes searchResults)
      else context in
    let context :=
      if (0 <? length (r_labManuals searchResults))%nat then
        fileLines
          (context +:+ "- " +:+ Str.of_nat (length (r_labManuals searchResults))
                   +:+ " lab manuals" +:+ Str.nl)
          (r_labManuals searchResults)
      else context in
    let context :=
      if (0 <? length (r_downloads searchResults))%nat then
        downloadLines
          (context +:+ "- " +:+ Str.of_nat (length (r_downloads searchResults))
                   +:+ " downloads" +:+ Str.nl)
          (r_downloads searchResults)
      else context in
    context
  else context.

End QueryContext.

End Knowledge.

(** ** utils/websiteKnowledgeUtils.js: filling the resource database *)

Module Indexing.

Import Knowledge.

Definition INDEXABLE_EXTENSIONS : list string :=
  [".pdf"; ".doc"; ".docx"; ".txt"; ".md"; ".json"].

(** What a scan meets at a path: a file with its [stat], or a directory
    with what [readdir] lists (nothing when [readdir] fails); for each
    listed entry, what is there (nothing when [stat] fails on it). *)
Inductive Node : Type :=
| File (size : N) (mtime : Z)
| Directory (listing : option (list (string * option Node))).

Section Scan.

Context {casing : Str.Casing}.

(** [path.join], [path.relative(PROJECT_ROOT, _)] and [path.extname]. *)
Variable join : string → string → string.
Variable relative : string → string.
Variable extname : string → string.

(** The root directory of the project. *)
Variable PROJECT_ROOT : string.

(** [extensions.includes(e)] *)
Definition listed (extensions : list string) (e : string) : bool :=
  existsb (String.eqb e) extensions.

Definition fileInfo (dir entry : string) (size : N) (mtime : Z) : FileInfo :=
  let fullPath := join dir entry in
  {| name := entry;
     path := relative fullPath;
     fullPath := fullPath;
     extension := Str.toLowerCase (extname entry);
     size := size;
     modified := mtime |}.

(** [scanDirectory(dir, extensions)], where [node] is what is at [dir].
    A directory that cannot be read gives no files; an entry that cannot
    be accessed is passed over. *)
Fixpoint scanDirectory (extensions : list string) (dir : string) (node : Node)
  : list FileInfo :=
  match node with
  | Directory (Some entries) =>
      (fix scanEntries (l : list (string * option Node)) : list FileInfo :=
         match l with
         | [] => []
         | (entry, accessed) :: l' =>
             match accessed with
             | None => []
             | Some (Directory _ as sub) =>
                 scanDirectory extensions (join dir entry) sub
             | Some (File size mtime) =>
                 if listed extensions (Str.toLowerCase (extname entry))
                 then [fileInfo dir entry size mtime]
                 else []
             end ++ scanEntries l'
         end) entries
  | Directory None => []
  | File _ _ => []
  end.

(** What the initialisation finds below the resources directory: the three
    sub-directories (nothing where [existsSync] says no) and
    [downloads.json] (nothing when it does not exist; its decoded list,
    or nothing when reading or parsing it fails). *)
Record Disk : Type := {
  resourcesExists : bool;
  assignmentsDir : option Node;
  notesDir : option Node;
  labManualsDir : option Node;
  downloadsJson : option (option (list Download))
}.

Definition RESOURCES_DIR : string := join PROJECT_ROOT "resources".

Definition scanOr (kept : list FileInfo) (dir : string) (found : option Node)
  : list FileInfo :=
  match found with
  | Some node => scanDirectory INDEXABLE_EXTENSIONS dir node
  | None => kept
  end.

(** [scanResourceDirectory()], on the module's [resourceDatabase]. *)
Definition scanResourceDirectory (resourceDatabase : ResourceDatabase) (disk : Disk)
  : ResourceDatabase :=
  if negb (resourcesExists disk) then resourceDatabase
  else
    {| assignments :=
         scanOr (assignments resourceDatabase) (join RESOURCES_DIR "assignments")
                (assignmentsDir disk);
       notes :=
         scanOr (notes resourceDatabase) (join RESOURCES_DIR "notes") (notesDir disk);
       labManuals :=
         scanOr (labManuals resourceDatabase) (join RESOURCES_DIR "lab-manuals")
                (labManualsDir disk);
       downloads := downloads resourceDatabase |}.

(** The database when the module is loaded. *)
Definition initial : ResourceDatabase :=
  {| assignments := []; notes := []; labManuals := []; downloads := [] |}.

(** The state of [resourceDatabase] after [initializeResourceDatabase()].
    Below a resources directory that does not exist there is nothing to
    scan and no [downloads.json]. *)
Definition initializeResourceDatabase (disk : Disk) : ResourceDatabase :=
  let resourceDatabase := scanResourceDirectory initial disk in
  if negb (resourcesExists disk) then resourceDatabase
  else
    match downloadsJson disk with
    | Some (Some loaded) =>
        {| assignments := assignments resourceDatabase;
           notes := notes resourceDatabase;
           labManuals := labManuals resourceDatabase;
           downloads := loaded |}
    | _ => resourceDatabase
    end.

End Scan.

End Indexing.

(** ** utils/webSearchUtils.js *)

Module WebSearch.

Definition currentEventKeywords : list string :=
  ["latest"; "recent"; "new"; "current"; "today"; "yesterday"; "this week";
   "this month"; "this year"; "update"; "news"; "2023"; "2024"; "2025"].

Definition needsWebSearch {casing : Str.Casing} (query : string) : bool :=
  let normalizedQuery := Str.toLowerCase query in
  let containsCurrentEventKeyword :=
    existsb (λ keyword, Str.includes normalizedQuery keyword) currentEventKeywords in
  let isAskingAboutExternalTopic :=
    negb (Str.includes normalizedQuery "learnflow")
    && negb (Str.includes normalizedQuery "course")
    && negb (Str.includes normalizedQuery "assignment")
    && negb (Str.includes normalizedQuery "lecture")
    && negb (Str.includes normalizedQuery "professor")
    && negb (Str.includes normalizedQuery "class") in
  containsCurrentEventKeyword || isAskingAboutExternalTopic.

(** A search result; a field that the provider left out is [None]. *)
Record Result : Type := {
  title : option string;
  link : option string;
  snippet : option string
}.

Definition result (t l s : string) : Result :=
  {| title := Some t; link := Some l; snippet := Some s |}.

Definition simulateWebSearchResults {casing : Str.Casing} (query : string) : list Result :=
  let normalizedQuery := Str.toLowerCase query in
  if Str.includes normalizedQuery "python" || Str.includes normalizedQuery "programming" then
    [result "Python Documentation" "https://docs.python.org/3/"
       "Official Python documentation with tutorials, library references, and more.";
     result "W3Schools Python Tutorial" "https://www.w3schools.com/python/"
       "Python tutorial with examples and exercises for beginners and advanced learners.";
     result "Real Python - Python Tutorials" "https://realpython.com/"
       "Python tutorials for developers of all skill levels, with in-depth articles and practical examples."]
  else if Str.includes normalizedQuery "math" || Str.includes normalizedQuery "calculus" then
    [result "Khan Academy - Mathematics" "https://www.khanacademy.org/math"
       "Free online courses, lessons & practice in math, including arithmetic, algebra, geometry, and calculus.";
     result "MIT OpenCourseWare - Mathematics" "https://ocw.mit.edu/courses/mathematics/"
       "Free lecture notes, exams, and videos from MIT mathematics courses.";
     result "Paul's Online Math Notes" "https://tutorial.math.lamar.edu/"
       "Free and complete set of online notes for Algebra, Calculus, and Differential Equations."]
  else if Str.includes normalizedQuery "physics" || Str.includes normalizedQuery "science" then
    [result "Physics Classroom" "https://www.physicsclassroom.com/"
       "Online physics tutorials and interactive activities for students and teachers.";
     result "Khan Academy - Physics" "https://www.khanacademy.org/science/physics"
       "Free online courses, lessons & practice in physics, including mechanics, electricity, and more.";
     result "HyperPhysics" "http://hyperphysics.phy-astr.gsu.edu/hbase/index.html"
       "Comprehensive physics reference with concepts organized in a hierarchical structure."]
  else
    [result "Khan Academy" "https://www.khanacademy.org/"
       "Free online courses, lessons & practice in math, science, and more for students of all ages.";
     result "Coursera" "https://www.coursera.org/"
       "Online courses from top universities and companies in various subjects.";
     result "edX" "https://www.edx.org/"
       "Free online courses from Harvard, MIT, and more in computer science, business, and other subjects."].

(** What the request to the search provider comes to: the request or the
    decoding of its answer fails, or the answer is decoded and has an
    [items] list or none. *)
Inductive provider_answer : Type :=
| ProviderFails
| ProviderItems (items : option (list Result)).

(** The part of the process environment that the adapter reads. *)
Record provider : Type := {
  has_api_key : bool;                      (* [process.env.GOOGLE_SEARCH_API_KEY] *)
  answer : string → provider_answer       (* by query *)
}.

Definition performWebSearch {casing : Str.Casing} (env : provider) (query : string) : list Result :=
  if negb (has_api_key env) then simulateWebSearchResults query
  else
    match answer env query with
    | ProviderItems (Some ((_ :: _) as items)) => take 3 items
    | ProviderItems _ => []
    | ProviderFails => simulateWebSearchResults query
    end.

Definition formatWebSearchResults (results : list Result) : string :=
  match results with
  | [] => ""
  | _ =>
      let formattedResults :=
        Str.nl +:+ Str.nl +:+ "Here are some resources that might help:"
               +:+ Str.nl +:+ Str.nl in
      foldl (λ formattedResults '(index, result),
          formattedResults +:+ Str.of_nat (index + 1) +:+ ". ["
            +:+ Knowledge.text (title result) +:+ "]("
            +:+ Knowledge.text (link result) +:+ ")" +:+ Str.nl +:+ "   "
            +:+ Knowledge.text (snippet result) +:+ Str.nl +:+ Str.nl)
        formattedResults (imap (λ index result, (index, result)) results)
  end.

Definition getWebSearchContext {casing : Str.Casing} (env : provider) (query : string) : string :=
  if negb (needsWebSearch query) then ""
  else
    let searchResults := performWebSearch env query in
    formatWebSearchResults searchResults.

End WebSearch.

(** ** JavaScript values

    Request bodies and provider payloads are results of [JSON.parse];
    [Undefined] arises from reading a property that is not there. *)

Module Js.

Inductive value : Type :=
| Undefined
| Null
| Bool (b : bool)
| Num (text : string)                    (* a number, kept as its [String(n)] *)
| Text (s : string)
| Arr (items : list value)
| Obj (fields : list (string * value)).  (* in source order *)

(** A computation that may throw. *)
Inductive outcome (A : Type) : Type :=
| Ok (a : A)
| Throw.
Arguments Ok {A} a.
Arguments Throw {A}.

Definition bind {A B} (m : outcome A) (k : A → outcome B) : outcome B :=
  match m with
  | Ok a => k a
  | Throw => Throw
  end.

#[export] Instance outcome_bind : MBind outcome := λ A B k m, bind m k.
#[export] Instance outcome_ret : MRet outcome := λ A a, Ok a.

Definition truthy (v : value) : bool :=
  match v with
  | Undefined | Null => false
  | Bool b => b
  | Num text => negb (String.eqb text "0")
  | Text s => negb (String.eqb s "")
  | Arr _ | Obj _ => true
  end.

(** [v === s] for a string [s]. *)
Definition is_text (v : value) (s : string) : bool :=
  match v with
  | Text t => String.eqb t s
  | _ => false
  end.

(** An own property of a parsed object: the last of duplicate keys. *)
Definition own (key : string) (fields : list (string * value)) : value :=
  foldl (λ found '(k, v), if String.eqb k key then v else found) Undefined fields.

(** [v.key], for a key that no prototype defines. *)
Definition get (v : value) (key : string) : outcome value :=
  match v with
  | Undefined | Null => Throw
  | Obj fields => Ok (own key fields)
  | _ => Ok Undefined
  end.

(** [v[0]] *)
Definition first (v : value) : outcome value :=
  match v with
  | Undefined | Null => Throw
  | Arr (x :: _) => Ok x
  | Text (String c _) => Ok (Text (String c ""))
  | Obj fields => Ok (own "0" fields)
  | _ => Ok Undefined
  end.

Definition has_own (key : string) (fields : list (string * value)) : bool :=
  existsb (λ '(k, _), String.eqb k key) fields.

(** [String(v)], as template literals and [join] apply it.  An object
    prints as [[object Object]]; when it has a [toString] key of its own,
    the conversion throws. *)
Fixpoint toString (v : value) : outcome string :=
  match v with
  | Undefined => Ok "undefined"
  | Null => Ok "null"
  | Bool true => Ok "true"
  | Bool false => Ok "false"
  | Num text => Ok text
  | Text s => Ok s
  | Arr items =>
      (fix joined (l : list value) : outcome string :=
         match l with
         | [] => Ok ""
         | x :: l' =>
             s ← match x with
                 | Undefined | Null => Ok ""
                 | _ => toString x
                 end;
             match l' with
             | [] => Ok s
             | _ => t ← joined l'; Ok (s +:+ "," +:+ t)
             end
         end) items
  | Obj fields => if has_own "toString" fields then Throw else Ok "[object Object]"
  end.

(** [items.join(sep)] *)
Fixpoint join (sep : string) (items : list value) : outcome string :=
  match items with
  | [] => Ok ""
  | x :: items' =>
      s ← match x with
          | Undefined | Null => Ok ""
          | _ => toString x
          end;
      match items' with
      | [] => Ok s
      | _ => t ← join sep items'; Ok (s +:+ sep +:+ t)
      end
  end.

End Js.

(** ** server.js *)

Module Server.

Import Js.

(** *** Responses *)

Record Message : Type := { role : string; content : value }.

Inductive Body : Type :=
| ErrorBody (error : string)                             (* [{error}] *)
| RateLimitBody (error : string) (resetTime : Z)         (* [{error, resetTime}] *)
| MessageBody (message : Message)                        (* [{message}] *)
| FailureBody (error : string) (message : Message).      (* [{error, message}] *)

Record Response : Type := { status : Z; body : Body }.

Definition assistant (text : string) : Message :=
  {| role := "assistant"; content := Text text |}.

(** [res.json(b)] answers with status 200. *)
Definition json (b : Body) : Response := {| status := 200; body := b |}.

(** *** Rate limiting *)

Record Bucket : Type := { count : Z; resetTime : Z }.

Definition windowMs : Z := 60 * 1000.
Definition maxRequests : Z := 10.

(** The key of a request: [req.body.userId || req.ip]. *)
Definition identity (userId : option string) (ip : string) : string :=
  match userId with
  | Some (String _ _ as id) => id
  | _ => ip
  end.

Inductive Verdict : Type :=
| Next
| Rejected (r : Response).

(** [rateLimits.tokens] is threaded through; the bucket that the code
    mutates in place is written back under its key. *)
Definition rateLimiter (tokens : gmap string Bucket) (userId : string) (now : Z)
  : gmap string Bucket * Verdict :=
  let fresh := {| count := 0; resetTime := now + windowMs |} in
  let userToken := default fresh (tokens !! userId) in
  let userToken := if resetTime userToken <? now then fresh else userToken in
  if maxRequests <=? count userToken then
    (<[userId := userToken]> tokens,
     Rejected {| status := 429;
                 body := RateLimitBody "Rate limit exceeded. Please try again later."
                                       (resetTime userToken) |})
  else
    (<[userId := {| count := count userToken + 1; resetTime := resetTime userToken |}]>
       tokens,
     Next).

(** *** Collaborators *)

(** What [scanProjectFiles] (utils/fileScannerUtils.js) hands back: the
    fields that the server reads of its result, or the message of the
    error it throws. *)
Record ScannedFile : Type := {
  path : string;
  lines : nat;
  extension : string;
  file_content : string
}.

Record ScanResults : Type := {
  success : bool;
  scannedFiles : nat;
  scan_path : string;                      (* [scanPath] *)
  files : list ScannedFile;
  error : string
}.

Inductive ScanOutcome : Type :=
| ScanThrows (message : string)
| ScanReturns (scanResults : ScanResults).

(** What a call of the generation endpoint comes to: [fetch] rejects, or
    it resolves with a status and a body that [json()] decodes or
    rejects. *)
Inductive Reply : Type :=
| NoReply
| Replied (http_status : Z) (payload : option value).

(** Everything outside the handler that it reads. *)
Record World : Type := {
  resourceDatabase : Knowledge.ResourceDatabase;
  websiteNavigation : Edu.Nav.table;
  searchProvider : WebSearch.provider;
  scanProjectFiles : string → ScanOutcome;
  gemini : string → Reply                  (* by prompt text *)
}.

(** The guard
    [data.candidates && data.candidates[0] && data.candidates[0].content]. *)
Definition hasCandidateContent (data : value) : outcome bool :=
  candidates ← get data "candidates";
  if negb (truthy candidates) then Ok false else
  candidate ← first candidates;
  if negb (truthy candidate) then Ok false else
  content ← get candidate "content";
  Ok (truthy content).

(** [data.candidates[0].content.parts[0].text] behind the guard; where
    the guard fails the code throws. *)
Definition candidateText (data : value) : outcome value :=
  match hasCandidateContent data with
  | Ok true =>
      candidates ← get data "candidates";
      candidate ← first candidates;
      content ← get candidate "content";
      parts ← get content "parts";
      part ← first parts;
      get part "text"
  | _ => Throw
  end.

(** One attempt at generation: the text of the first candidate. *)
Definition generate (w : World) (prompt : string) : outcome value :=
  match gemini w prompt with
  | NoReply => Throw
  | Replied _ None => Throw
  | Replied _ (Some data) => candidateText data
  end.

(** *** Request validation *)

(** [[...messages].reverse().find(msg => msg.role === 'user')], on the
    reversed list. *)
Fixpoint findUser (reversed : list value) : outcome (option value) :=
  match reversed with
  | [] => Ok None
  | msg :: older =>
      r ← get msg "role";
      if is_text r "user" then Ok (Some msg) else findUser older
  end.

Inductive Validated : Type :=
| Invalid (r : Response)
| Valid (messages : list value) (latestUserMessage : value).

Definition validate (reqBody : value) : outcome Validated :=
  messages ← get reqBody "messages";
  match messages with
  | Arr items =>
      latestUserMessage ← findUser (rev items);
      match latestUserMessage with
      | None => Ok (Invalid {| status := 400; body := ErrorBody "No user message found" |})
      | Some msg => Ok (Valid items msg)
      end
  | _ => Ok (Invalid {| status := 400; body := ErrorBody "Messages array is required" |})
  end.

(** *** The scan commands *)


Definition fileAnalysisPrompt (scanResults : ScanResults) : string :=
  "You are a code review expert. Analyze these files for potential issues:
" +:+ Str.join Str.nl
      (List.map (λ file,
           Str.nl +:+ "File: " +:+ path file +:+ " (" +:+ Str.of_nat (lines file)
           +:+ " lines)" +:+ Str.nl
           +:+ "Extension: " +:+ extension file +:+ Str.nl
           +:+ "First 500 chars: " +:+ Str.substring_from_0 500 (file_content file)
           +:+ (if (500 <? Str.code_units (file_content file))%nat then "..." else "")
           +:+ Str.nl)
         (files scanResults))
  +:+ "

Identify potential issues like:
1. Syntax errors
2. Broken imports
3. Unused variables or dead code
4. Missing tags or structural issues
5. Unhandled async code or bad API calls

Format your response as a clear, concise report with specific issues and suggested fixes.".

Definition fileListing (scanResults : ScanResults) : string :=
  Str.join Str.nl
    (List.map (λ file,
         "- " +:+ path file +:+ " (" +:+ Str.of_nat (lines file) +:+ " lines)")
       (files scanResults)).

(** The path of a command such as [/scan src/components]. *)
Definition commandPath (userContent : string) : string :=
  let parts := Str.split " " userContent in
  if (1 <? length parts)%nat then Str.join " " (drop 1 parts) else "".

Definition scanCommand (w : World) (userContent : string) : Response :=
  let scanPath := commandPath userContent in
  match scanProjectFiles w scanPath with
  | ScanReturns scanResults =>
      let responseContent :=
        if success scanResults then
          let responseContent :=
            "📁 File Scan Results:" +:+ Str.nl +:+ Str.nl +:+ "Scanned "
              +:+ Str.of_nat (scannedFiles scanResults) +:+ " files in "
              +:+ scan_path scanResults +:+ Str.nl in
          if (0 <? length (files scanResults))%nat then
            match analysisText ← generate w (fileAnalysisPrompt scanResults);
                  toString analysisText with
            | Ok analysisText => responseContent +:+ Str.nl +:+ analysisText
            | Throw =>
                responseContent +:+ Str.nl
                  +:+ "File analysis failed. Here's a list of files found:" +:+ Str.nl
                  +:+ fileListing scanResults
            end
          else responseContent +:+ Str.nl +:+ "No files found matching the criteria."
        else "❌ Scan Error: " +:+ error scanResults in
      json (MessageBody (assistant responseContent))
  | ScanThrows message =>
      json (MessageBody (assistant ("❌ Error scanning files: " +:+ message)))
  end.

(** *** Prompt composition *)

Section Composer.

Context {casing : Str.Casing}.

(** [`${n}`] for the unit number, see [Knowledge.getQueryContext]. *)
Variable numberText : N → string.

Definition persona : string :=
  "You are LearnFlow Assistant, an advanced AI for an educational platform. ".

Definition generalInstructions : string :=
  "
Provide concise, accurate information about academic topics, learning resources, and study techniques. Be friendly and supportive.

When answering:
1. For educational questions, provide clear explanations with examples
2. For coding questions, provide well-commented code snippets
3. For resource questions, give specific paths where materials can be found
4. For course-specific questions, reference relevant course materials and topics
5. For general knowledge questions, use your knowledge to provide accurate and up-to-date information
6. For website-specific questions, guide users to the appropriate section of the LearnFlow website

If the user asks about content on the LearnFlow website, try to provide direct links or paths to the relevant pages.
If the user asks about academic topics not specific to LearnFlow, provide comprehensive educational answers.

Always maintain a helpful, educational tone and focus on providing value to students.".

Definition courseContext (userContent : string) (systemMessage : string) : string :=
  match Edu.extractCourseCode userContent with
  | Some courseCode =>
      match Edu.getCourseInfo courseCode with
      | Some courseInfo =>
          systemMessage +:+ Str.nl +:+ "The user is asking about " +:+ courseCode +:+ ": "
            +:+ Edu.name courseInfo +:+ ". This course covers: "
            +:+ Str.join ", " (Edu.topics courseInfo) +:+ ". "
      | None => systemMessage
      end
  | None => systemMessage
  end.

Definition semesterContext (userContent : string) (systemMessage : string) : string :=
  match Regex.exec Knowledge.semesterRegex 3 userContent with
  | Some semesterMatch =>
      let semNumber := Regex.group semesterMatch 1 in
      match Edu.getSemesterResources semNumber with
      | Some semResources =>
          systemMessage +:+ Str.nl +:+ "Semester " +:+ semNumber
            +:+ " resources are located at " +:+ Edu.path semResources
            +:+ " and include courses: " +:+ Str.join ", " (Edu.courses semResources)
            +:+ ". "
      | None => systemMessage
      end
  | None => systemMessage
  end.

Definition navigationContext (w : World) (userContent : string) (systemMessage : string)
  : string :=
  if Edu.isNavigationQuery userContent then
    let systemMessage :=
      systemMessage +:+ Str.nl
        +:+ "The user is asking about navigating or finding resources on the LearnFlow platform. Be specific about where to find materials. " in
    let systemMessage := semesterContext userContent systemMessage in
    let navigationInfo := Edu.getWebsiteNavigationInfo (websiteNavigation w) userContent in
    systemMessage +:+ navigationInfo
  else systemMessage.

Definition knowledgeContext (w : World) (userContent : string) (systemMessage : string)
  : string :=
  match Knowledge.getQueryContext numberText (resourceDatabase w) userContent with
  | String _ _ as websiteContext => systemMessage +:+ Str.nl +:+ websiteContext
  | EmptyString => systemMessage
  end.

Definition webSearchContext (w : World) (userContent : string) (systemMessage : string)
  : string :=
  if WebSearch.needsWebSearch userContent then
    match WebSearch.getWebSearchContext (searchProvider w) userContent with
    | String _ _ as webSearchContext =>
        systemMessage +:+ Str.nl
          +:+ "I've searched the web for information related to this query. Here are some relevant results: "
          +:+ webSearchContext
    | EmptyString => systemMessage
    end
  else systemMessage.

Definition composeSystemMessage (w : World) (userContent : string) : string :=
  let systemMessage := persona in
  let systemMessage := courseContext userContent systemMessage in
  let systemMessage := navigationContext w userContent systemMessage in
  let systemMessage := knowledgeContext w userContent systemMessage in
  let systemMessage := webSearchContext w userContent systemMessage in
  systemMessage +:+ generalInstructions.

(** [messages.slice(-5).map(msg => msg.content).join('\n')] *)
Definition conversationHistory (messages : list value) : outcome string :=
  contents ← mapM (λ msg, get msg "content") (drop (length messages - 5) messages);
  join Str.nl contents.

Definition fullPrompt (w : World) (userContent conversationHistory : string) : string :=
  composeSystemMessage w userContent +:+ Str.nl +:+ Str.nl +:+ "Conversation history:"
    +:+ Str.nl +:+ conversationHistory +:+ Str.nl +:+ Str.nl +:+ "User query: "
    +:+ userContent.

(** The prompt of a chat request. *)
Definition promptFor (w : World) (messages : list value) (userContent : string)
  : outcome string :=
  history ← conversationHistory messages;
  Ok (fullPrompt w userContent history).

(** *** Generation and its fallback *)

Definition greetingTemplate : string :=
  "Hello! I'm LearnFlow Assistant. How can I help you with your educational needs today?".
Definition helpTemplate : string :=
  "I'm here to help with your educational questions. You can ask me about courses, assignments, or study resources.".
Definition courseTemplate : string :=
  "LearnFlow offers various courses across different disciplines. You can find course materials in the Resources section of the website.".
Definition assignmentTemplate : string :=
  "For assignment help, please check the specific course page where all assignments are listed with their due dates and requirements.".
Definition resourceTemplate : string :=
  "Educational resources are available in the Resources section. You can filter by course, semester, or topic to find what you need.".
Definition connectionIssuesTemplate : string :=
  "I'm currently experiencing connection issues with my knowledge base. Please try again later or rephrase your question.".

Definition fallbackResponse (userContent : string) : string :=
  let lower := Str.toLowerCase userContent in
  if Str.includes lower "hello" || Str.includes lower "hi" then greetingTemplate
  else if Str.includes lower "help" then helpTemplate
  else if Str.includes lower "course" || Str.includes lower "class" then courseTemplate
  else if Str.includes lower "assignment" || Str.includes lower "homework" then
    assignmentTemplate
  else if Str.includes lower "resource" || Str.includes lower "material" then
    resourceTemplate
  else connectionIssuesTemplate.

(** The inner [try]/[catch] around the generation call. *)
Definition answer (w : World) (userContent prompt : string) : Response :=
  match generate w prompt with
  | Ok responseText =>
      json (MessageBody {| role := "assistant"; content := responseText |})
  | Throw => json (MessageBody (assistant (fallbackResponse userContent)))
  end.

(** *** The handler of [POST /api/chat] *)

Definition internalError : Response :=
  {| status := 500;
     body := FailureBody "Failed to process your request"
               (assistant "I'm sorry, I encountered an error processing your request. Please try again later.") |}.

Definition isScanCommand (userContent : string) : bool :=
  Str.startsWith userContent "/scan" || Str.startsWith userContent "/debug".

Definition handle (w : World) (reqBody : value) : outcome Response :=
  v ← validate reqBody;
  match v with
  | Invalid r => Ok r
  | Valid messages latestUserMessage =>
      c ← get latestUserMessage "content";
      match c with
      | Text text =>
          let userContent := Str.trim text in
          if isScanCommand userContent then Ok (scanCommand w userContent)
          else
            prompt ← promptFor w messages userContent;
            Ok (answer w userContent prompt)
      | _ => Throw
      end
  end.

(** The outer [try]/[catch]. *)
Definition chat (w : World) (reqBody : value) : Response :=
  match handle w reqBody with
  | Ok r => r
  | Throw => internalError
  end.

End Composer.

Record Request : Type := {
  req_ip : string;
  req_userId : option string;
  req_body : value
}.

(** [app.post('/api/chat', rateLimiter, ...)] at time [now]. *)
Definition postChat {casing : Str.Casing} (numberText : N → string) (w : World)
    (tokens : gmap string Bucket) (now : Z) (req : Request)
  : gmap string Bucket * Response :=
  match rateLimiter tokens (identity (req_userId req) (req_ip req)) now with
  | (tokens', Rejected r) => (tokens', r)
  | (tokens', Next) => (tokens', chat numberText w (req_body req))
  end.

End Server.

(** * Specifications *)

(** ** What an expression matches

    The relation that [Regex.rmatch] enumerates: [matches r s s'] when [r]
    can take the matcher from state [s] to state [s']. *)

Module RegexSem.

Import Regex.

Inductive matches : regex → mstate → mstate → Prop :=
| m_empty s :
    matches Empty s s
| m_class p s c t :
    rest s = c :: t → p c = true →
    matches (Class p) s (MState (c :: seen s) t (caps s))
| m_seq r1 r2 s s1 s' :
    matches r1 s s1 → matches r2 s1 s' → matches (Seq r1 r2) s s'
| m_alt_l r1 r2 s s' :
    matches r1 s s' → matches (Alt r1 r2) s s'
| m_alt_r r1 r2 s s' :
    matches r2 s s' → matches (Alt r1 r2) s s'
| m_star_stop r s :
    matches (Star r) s s
| m_star_step r s s1 s' :
    matches r s s1 → (length (rest s1) < length (rest s))%nat →
    matches (Star r) s1 s' → matches (Star r) s s'
| m_boundary s :
    at_word_boundary s = true → matches WordBoundary s s
| m_group n r s s' :
    matches r s s' → matches (Group n r) s (set_cap n s s').

(** The state in which a search for an expression with [ngroups] groups
    tries the position between [before] (latest first) and [after]. *)
Definition start (ngroups : nat) (before after : list ascii) : mstate :=
  MState before after (replicate (S ngroups) None).

(** [r] reads exactly the texts that satisfy [P], and leaves the captures
    as they are. *)
Definition reads (r : regex) (P : list ascii → Prop) : Prop :=
  ∀ s s', matches r s s' ↔
          ∃ u t, P u ∧ rest s = u ++ t ∧ s' = MState (rev u ++ seen s) t (caps s).

End RegexSem.

(** ** Shapes of the texts that the extractors look for *)

Module Shape.

Definition all (p : ascii → bool) (u : list ascii) : Prop :=
  Forall (λ c, p c = true) u.

(** [u] spells the word [w], in any case. *)
Definition spells (w : string) (u : list ascii) : Prop :=
  Forall2 (λ a c, Char.eq_nocase a c = true) (Str.to_list w) u.

(** [u] is one character of white space. *)
Definition white (u : list ascii) : Prop := List.map Char.code u ∈ White.encodings.

(** Texts of [P] in a row. *)
Inductive repeated (P : list ascii → Prop) : list ascii → Prop :=
| repeated_nil : repeated P []
| repeated_cons u v : P u → repeated P v → repeated P (u ++ v).

(** [u] is white space, or empty. *)
Definition blank (u : list ascii) : Prop := repeated white u.

Definition no_word_before (pre : list ascii) : Prop :=
  ∀ c, last pre = Some c → Char.is_word c = false.

Definition no_word_after (post : list ascii) : Prop :=
  ∀ c, head post = Some c → Char.is_word c = false.

(** [q] holds, after [pre], two or three letters [L], white space [W] and
    three digits [D], the whole between word boundaries. *)
Definition CourseCodeAt (q pre L W D post : list ascii) : Prop :=
  q = pre ++ L ++ W ++ D ++ post
  ∧ (length L = 2%nat ∨ length L = 3%nat) ∧ all Char.is_letter L
  ∧ blank W
  ∧ length D = 3%nat ∧ all Char.is_digit D
  ∧ no_word_before pre ∧ no_word_after post.

(** No course code starts before position [length pre] of [q]. *)
Definition FirstCourseCode (q pre : list ascii) : Prop :=
  ∀ pre' L' W' D' post',
    CourseCodeAt q pre' L' W' D' post' → (length pre ≤ length pre')%nat.

Definition ordinal (suffix : list ascii) : Prop :=
  spells "st" suffix ∨ spells "nd" suffix ∨ spells "rd" suffix ∨ spells "th" suffix.

(** [q] holds, after [pre], a digit [d], an ordinal suffix or nothing,
    white space [ws] (some) and the word sem or semester, the whole
    between word boundaries. *)
Definition SemesterAt (q pre : list ascii) (d : ascii) (suffix ws word post : list ascii)
  : Prop :=
  q = pre ++ d :: suffix ++ ws ++ word ++ post
  ∧ Char.is_digit d = true
  ∧ (suffix = [] ∨ ordinal suffix)
  ∧ ws ≠ [] ∧ blank ws
  ∧ (spells "sem" word ∨ spells "semester" word)
  ∧ no_word_before pre ∧ no_word_after post.

(** The number that a digit stands for. *)
Definition digit_value (d : ascii) : nat := N.to_nat (Char.code d - 48).

Definition FirstSemester (q pre : list ascii) : Prop :=
  ∀ pre' d' suffix' ws' word' post',
    SemesterAt q pre' d' suffix' ws' word' post' → (length pre ≤ length pre')%nat.

End Shape.

(** ** Keyword lists *)

Module Vocabulary.


(** The keywords of the fallback replies, in the order of the tests. *)
Definition fallbackKeywords : list string :=
  ["hello"; "hi"; "help"; "course"; "class"; "assignment"; "homework";
   "resource"; "material"].

(** The keywords tested before the assignment reply. *)
Definition beforeAssignment : list string :=
  ["hello"; "hi"; "help"; "course"; "class"].

(** [k] occurs in the query, whatever the case of the query. *)
Definition mentions {casing : Str.Casing} (query k : string) : Prop :=
  Str.occurs_in k (Str.toLowerCase query).

(** One of the keywords [ks] occurs in the query; none of them does. *)
Definition speaks {casing : Str.Casing} (query : string) (ks : list string) : Prop :=
  ∃ k, k ∈ ks ∧ mentions query k.

Definition silent {casing : Str.Casing} (query : string) (ks : list string) : Prop :=
  ∀ k, k ∈ ks → ¬ mentions query k.

End Vocabulary.

(** ** Matching entries of the resource index *)

Module Matching.

Import Str Knowledge.

(** A file entry matches a query when the lower-cased query occurs in its
    lower-cased name or path. *)
Definition FileMatch {casing : Str.Casing} (query : string) (file : FileInfo) : Prop :=
  occurs_in (toLowerCase query) (toLowerCase (name file))
  ∨ occurs_in (toLowerCase query) (toLowerCase (path file)).

(** A download matches when the lower-cased query occurs in its lower-cased
    title, description or one of its tags. *)
Definition DownloadMatch {casing : Str.Casing} (query : string) (item : Download) : Prop :=
  (∃ t, title item = Some t ∧ occurs_in (toLowerCase query) (toLowerCase t))
  ∨ (∃ t, description item = Some t ∧ occurs_in (toLowerCase query) (toLowerCase t))
  ∨ (∃ ts tag, tags item = Some ts ∧ tag ∈ ts
                ∧ occurs_in (toLowerCase query) (toLowerCase tag)).

End Matching.

(** ** Well-formed message lists *)

Module WellFormed.

Import Js.

(** Every element is a value whose properties can be read. *)
Definition readable (items : list value) : Prop :=
  Forall (λ msg, msg ≠ Null ∧ msg ≠ Undefined) items.

Definition isUser (msg : value) : Prop := get msg "role" = Ok (Text "user").

End WellFormed.

(** ** Failures of the generation call *)

Module Gateway.

Import Js Server.

(** The call fails when the transport fails, when the body of the answer
    is not JSON, or when the payload lacks the candidate/content
    structure.  The status of the answer is not looked at. *)
Inductive Failure : Reply → Prop :=
| transport_fault :
    Failure NoReply
| undecodable_body http_status :
    Failure (Replied http_status None)
| malformed_payload http_status data :
    hasCandidateContent data ≠ Ok true →
    Failure (Replied http_status (Some data)).

End Gateway.

(** ** Sequences of requests *)

Module Traffic.

Import Server.

(** Requests, each with its caller and its time of arrival, served one
    after the other. *)
Fixpoint serve (tokens : gmap string Bucket) (requests : list (string * Z))
  : gmap string Bucket * list (string * Verdict) :=
  match requests with
  | [] => (tokens, [])
  | (userId, now) :: later =>
      let '(tokens1, v) := rateLimiter tokens userId now in
      let '(tokens2, vs) := serve tokens1 later in
      (tokens2, (userId, v) :: vs)
  end.

(** What concerns one caller in a list of (caller, item) pairs. *)
Definition of_caller {A} (userId : string) (l : list (string * A)) : list A :=
  List.map snd (List.filter (λ p, String.eqb p.1 userId) l).

(** A request at [now] opens a new window for [userId]: it is the first of
    this caller, or the caller's window has elapsed. *)
Definition opensWindow (tokens : gmap string Bucket) (userId : string) (now : Z) : Prop :=
  match tokens !! userId with
  | None => True
  | Some bucket => resetTime bucket < now
  end.

Definition rejection (reset : Z) : Verdict :=
  Rejected {| status := 429;
              body := RateLimitBody "Rate limit exceeded. Please try again later." reset |}.

End Traffic.

(** ** Limits of the token map *)

Module Limits.

Import Server.

(** Every bucket counts at least one and at most [maxRequests] requests. *)
Definition within_limit (tokens : gmap string Bucket) : Prop :=
  ∀ userId bucket, tokens !! userId = Some bucket → 1 ≤ count bucket ≤ maxRequests.

(** The callers of a sequence of requests. *)
Definition callers (requests : list (string * Z)) : gset string :=
  list_to_set (List.map fst requests).

(** The requests of one caller, in their order. *)
Definition own (userId : string) (requests : list (string * Z)) : list (string * Z) :=
  List.filter (λ p, String.eqb p.1 userId) requests.

End Limits.

(** ** The code units *)

Module Units.

(** The 256 code units that the strings of the model are made of. *)
Definition all : list ascii := List.map ascii_of_nat (seq 0 256).

(** A test that holds of every pair of code units. *)
Definition for_all_pairs (P : ascii → ascii → bool) : bool :=
  forallb (λ a, forallb (P a) all) all.

End Units.

(** ** Kinds of resources *)

Module Kinds.

(** The words of [resourceTypeRegex]. *)
Definition resourceTypes : list string :=
  ["pdf"; "notes"; "manual"; "assignment"; "lab"; "download"].

End Kinds.

(** ** Sample inputs *)

Module Sample.

Import Js Server.

(** Decimal rendering of the unit number. *)
Definition numberText (n : N) : string := Str.of_nat (N.to_nat n).

Definition emptyDatabase : Knowledge.ResourceDatabase :=
  {| Knowledge.assignments := []; Knowledge.notes := [];
     Knowledge.labManuals := []; Knowledge.downloads := [] |}.

Definition noSearchKey : WebSearch.provider :=
  {| WebSearch.has_api_key := false; WebSearch.answer := λ _, WebSearch.ProviderFails |}.

(** A search provider that answers every query with the same items. *)
Definition answering (items : list WebSearch.Result) : WebSearch.provider :=
  {| WebSearch.has_api_key := true;
     WebSearch.answer := λ _, WebSearch.ProviderItems (Some items) |}.

Definition page (n : string) : WebSearch.Result :=
  WebSearch.result ("Page " +:+ n) ("https://example.org/" +:+ n) "A page.".

(** A well-formed payload of the generation endpoint. *)
Definition payload (text : string) : value :=
  Obj [("candidates",
        Arr [Obj [("content", Obj [("parts", Arr [Obj [("text", Text text)]])])]])].

(** The generation endpoint is unreachable and the scanner throws. *)
Definition offline : World :=
  {| resourceDatabase := emptyDatabase;
     websiteNavigation := Edu.Nav.empty;
     searchProvider := noSearchKey;
     scanProjectFiles := λ _, ScanThrows "ENOENT: no such file or directory";
     gemini := λ _, NoReply |}.


(** The generation endpoint answers 500 with a well-formed payload. *)
Definition answers500 : World :=
  {| resourceDatabase := emptyDatabase;
     websiteNavigation := Edu.Nav.empty;
     searchProvider := noSearchKey;
     scanProjectFiles := λ _, ScanThrows "ENOENT: no such file or directory";
     gemini := λ _, Replied 500 (Some (payload "Here is an answer.")) |}.

Definition userMessage (text : string) : value :=
  Obj [("role", Text "user"); ("content", Text text)].

(** The no-break space, U+00A0. *)
Definition nbsp : string := String (ascii_of_N 194) (String (ascii_of_N 160) "").

(** A query that ends in the Kelvin sign, U+212A, which [toLowerCase] turns
    into the letter k. *)
Definition kelvinQuery : string :=
  "my course this wee"
    +:+ String (ascii_of_N 226) (String (ascii_of_N 132) (String (ascii_of_N 170) "")).

Definition chatBody (messages : list value) : value :=
  Obj [("messages", Arr messages)].

End Sample.

(** ** Further sample inputs *)

Module Examples.

Import Js Server.

Definition mainFile : ScannedFile :=
  {| path := "src/main.jsx"; lines := 12; extension := ".jsx";
     file_content := "import App from './App.jsx';" |}.

Definition found : ScanResults :=
  {| success := true; scannedFiles := 2; scan_path := "src";
     files := [ {| path := "src/App.jsx"; lines := 120; extension := ".jsx";
                   file_content := "export default function App() {}" |};
                mainFile ];
     error := "" |}.

(** The scanner finds two files and the generation endpoint is
    unreachable. *)
Definition scanFindsFiles : World :=
  {| resourceDatabase := Sample.emptyDatabase;
     websiteNavigation := Edu.Nav.empty;
     searchProvider := Sample.noSearchKey;
     scanProjectFiles := λ _, ScanReturns found;
     gemini := λ _, NoReply |}.

(** Stand-ins for [path.join], [path.relative] and [path.extname] on
    plain names: a slash between the parts, the path itself, and the name
    from its last dot on. *)
Definition joinPath (dir entry : string) : string :=
  match dir with
  | EmptyString => entry
  | _ => dir +:+ "/" +:+ entry
  end.

Definition relativePath (p : string) : string := p.

Fixpoint fromLastDot (s : string) : option string :=
  match s with
  | EmptyString => None
  | String c t =>
      match fromLastDot t with
      | Some e => Some e
      | None => if (Char.code c =? 46)%N then Some s else None
      end
  end.

Definition extName (s : string) : string := default "" (fromLastDot s).

(** A resources sub-directory with a sub-directory of its own, a file
    that is not indexed and an entry that cannot be accessed. *)
Definition notesTree : Indexing.Node :=
  Indexing.Directory (Some [
    ("unit1", Some (Indexing.Directory (Some [
        ("Unit1.PDF", Some (Indexing.File 52000 1700000000000));
        ("draft.tmp", Some (Indexing.File 10 1700000000000)) ])));
    ("locked", None);
    ("private", Some (Indexing.Directory None));
    ("syllabus.md", Some (Indexing.File 900 1700000000000)) ]).

Definition unit1Notes : Knowledge.FileInfo :=
  {| Knowledge.name := "Unit1.PDF";
     Knowledge.path := "resources/notes/unit1/Unit1.PDF";
     Knowledge.fullPath := "resources/notes/unit1/Unit1.PDF";
     Knowledge.extension := ".pdf";
     Knowledge.size := 52000;
     Knowledge.modified := 1700000000000 |}.

(** A disk with notes only; [downloads.json] does not parse. *)
Definition notesOnly : Indexing.Disk :=
  {| Indexing.resourcesExists := true;
     Indexing.assignmentsDir := None;
     Indexing.notesDir := Some notesTree;
     Indexing.labManualsDir := None;
     Indexing.downloadsJson := Some None |}.

(** A navigation table with one entry of each kind. *)
Definition navigation : Edu.Nav.table :=
  {| Edu.Nav.pages :=
       [ {| Edu.Nav.page_name := "Resources"; Edu.Nav.page_path := "/resources";
            Edu.Nav.page_description := "All study materials." |} ];
     Edu.Nav.departments :=
       [ {| Edu.Nav.dept_code := "CSE"; Edu.Nav.dept_name := "Computer Science";
            Edu.Nav.dept_path := "/departments/cse";
            Edu.Nav.dept_courses := ["CSE201"] |} ];
     Edu.Nav.semesters :=
       [ {| Edu.Nav.sem_number := 1; Edu.Nav.sem_name := "Semester 1";
            Edu.Nav.sem_path := "/semesters/1"; Edu.Nav.sem_courses := ["CHB101"] |} ];
     Edu.Nav.resources :=
       [ {| Edu.Nav.res_name := "Lab Manuals"; Edu.Nav.res_path := "/resources/labs";
            Edu.Nav.res_description := "Manuals of the laboratory courses." |} ] |}.

Definition syllabus : Knowledge.FileInfo :=
  {| Knowledge.name := "syllabus.md";
     Knowledge.path := "resources/notes/syllabus.md";
     Knowledge.fullPath := "resources/notes/syllabus.md";
     Knowledge.extension := ".md";
     Knowledge.size := 900;
     Knowledge.modified := 1700000000000 |}.

Definition cheatSheet : Knowledge.Download :=
  {| Knowledge.title := Some "Git cheat sheet";
     Knowledge.description := None;
     Knowledge.tags := Some ["git"; "Syllabus extras"];
     Knowledge.url := Some "https://example.org/git.pdf" |}.

(** An index with two notes and a download. *)
Definition library : Knowledge.ResourceDatabase :=
  {| Knowledge.assignments := [];
     Knowledge.notes := [unit1Notes; syllabus];
     Knowledge.labManuals := [];
     Knowledge.downloads := [cheatSheet] |}.

(** A world with that index and that table; the search key is not set. *)
Definition stocked : World :=
  {| resourceDatabase := library;
     websiteNavigation := navigation;
     searchProvider := Sample.noSearchKey;
     scanProjectFiles := λ _, ScanThrows "ENOENT: no such file or directory";
     gemini := λ _, NoReply |}.

End Examples.

(** ** Lower-casing of 7-bit text *)

Module Plain.

(** The lower-casing that maps the letters A to Z and nothing else: what
    [toLowerCase] does on 7-bit text.  It is what the examples on 7-bit
    text are evaluated with; every theorem below that is stated for texts
    in general is stated for an arbitrary [Str.Casing]. *)
#[global] Instance casing : Str.Casing.
Proof.
  refine {| Str.toLowerCase := Str.map Char.toLowerCase |}.
  - reflexivity.
  - intros before s after _. exists (Str.map Char.toLowerCase before),
      (Str.map Char.toLowerCase after).
    assert (∀ a b, Str.map Char.toLowerCase (a +:+ b)
                   = Str.map Char.toLowerCase a +:+ Str.map Char.toLowerCase b) as Happ.
    { induction a as [|c a IH]; intros b; [reflexivity|].
      change (String c a +:+ b) with (String c (a +:+ b)). simpl. by rewrite IH. }
    by rewrite !Happ.
  - by intros [|c s].
Defined.

End Plain.

(** * Facts *)

(** A fact about one code unit, settled by running through the 256 of
    them. *)
Ltac by_code_unit c := destruct c as [[] [] [] [] [] [] [] []]; by vm_compute.

(** ** Strings *)

Module StrFacts.

Import Str.

Lemma sapp_nil_l s : "" +:+ s = s.
Proof. reflexivity. Qed.

Lemma sapp_cons c s t : String c s +:+ t = String c (s +:+ t).
Proof. reflexivity. Qed.

Lemma sapp_nil_r s : s +:+ "" = s.
Proof. induction s as [|c s IH]; [reflexivity|]. rewrite sapp_cons. by f_equal. Qed.

Lemma sapp_assoc s t u : (s +:+ t) +:+ u = s +:+ t +:+ u.
Proof.
  induction s as [|c s IH]; [reflexivity|].
  rewrite !sapp_cons. by f_equal.
Qed.

Lemma code_inj a b : Char.code a = Char.code b → a = b.
Proof.
  unfold Char.code. intros H.
  rewrite <- (ascii_N_embedding a), <- (ascii_N_embedding b). by f_equal.
Qed.

Lemma code_eqb a b : (Char.code a =? Char.code b)%N = true ↔ a = b.
Proof.
  rewrite N.eqb_eq. split; [apply code_inj|by intros ->].
Qed.

Lemma startsWith_spec s k : startsWith s k = true ↔ ∃ post, s = k +:+ post.
Proof.
  revert s. induction k as [|a k IH]; intros s; simpl.
  - split; [intros _; by exists s|done].
  - destruct s as [|b s].
    + split; [done|intros [post H]; rewrite sapp_cons in H; discriminate].
    + rewrite andb_true_iff, code_eqb, IH. split.
      * intros [-> [post ->]]. by exists post.
      * intros [post H]. rewrite sapp_cons in H. injection H as -> ->. eauto.
Qed.

Lemma includes_spec s k : includes s k = true ↔ occurs_in k s.
Proof.
  unfold occurs_in. induction s as [|c s IH]; simpl.
  - rewrite orb_false_r, startsWith_spec. split.
    + intros [post H]. by exists "", post.
    + intros ([|c pre] & post & H).
      * by exists post.
      * rewrite sapp_cons in H. discriminate.
  - rewrite orb_true_iff, startsWith_spec, IH. split.
    + intros [[post H]|(pre & post & H)].
      * by exists "", post.
      * exists (String c pre), post. rewrite sapp_cons. by f_equal.
    + intros ([|c' pre] & post & H).
      * left. by exists post.
      * right. rewrite sapp_cons in H. injection H as -> ->. eauto.
Qed.

Lemma includes_false s k : includes s k = false ↔ ¬ occurs_in k s.
Proof. rewrite <- includes_spec. by destruct (includes s k). Qed.

Lemma occurs_in_app_l k s t : occurs_in k s → occurs_in k (s +:+ t).
Proof.
  intros (pre & post & ->). exists pre, (post +:+ t).
  by rewrite !sapp_assoc.
Qed.

Lemma occurs_in_app_r k s t : occurs_in k t → occurs_in k (s +:+ t).
Proof.
  intros (pre & post & ->). exists (s +:+ pre), post.
  by rewrite !sapp_assoc.
Qed.

Lemma occurs_in_refl k : occurs_in k k.
Proof. exists "", "". by rewrite sapp_nil_l, sapp_nil_r. Qed.

Lemma of_list_app u v : of_list (u ++ v) = of_list u +:+ of_list v.
Proof. induction u as [|c u IH]; [reflexivity|]. simpl. rewrite sapp_cons. by f_equal. Qed.

Lemma existsb_includes s (ks : list string) :
  existsb (λ k, includes s k) ks = true ↔ ∃ k, k ∈ ks ∧ occurs_in k s.
Proof.
  rewrite existsb_exists. split.
  - intros (k & Hin & H). exists k. by rewrite list_elem_of_In, <- includes_spec.
  - intros (k & Hin & H). exists k. by rewrite <- list_elem_of_In, includes_spec.
Qed.

End StrFacts.

(** ** Web-search need *)

Module SearchFacts.

Import Str StrFacts Vocabulary.

Section Generic.

Context {casing : Str.Casing}.



End Generic.

End SearchFacts.


(** The detector follows the lower-casing of the platform: where the
    Kelvin sign is lower-cased to k, a query that mentions a course and
    ends in "this wee" and the sign asks for a web search. *)
Lemma needsWebSearch_kelvin_sign {casing : Str.Casing} :
  Str.toLowerCase Sample.kelvinQuery = "my course this week" →
  WebSearch.needsWebSearch Sample.kelvinQuery = true.
Proof.
  intros H. unfold WebSearch.needsWebSearch. by rewrite H.
Qed.

(** ** Resource search *)

Module SearchResultFacts.

Import Str StrFacts Knowledge Matching.

Section Generic.

Context {casing : Str.Casing}.





Lemma filtered {A} (p : A → bool) (l : list A) x :
  x ∈ List.filter p l → x ∈ l ∧ p x = true.
Proof. rewrite !list_elem_of_In. apply filter_In. Qed.

End Generic.

End SearchResultFacts.


(** ** Fallback replies *)

Module FallbackFacts.

Import Js Server Str StrFacts Vocabulary.

Section Generic.

Context {casing : Str.Casing}.

Lemma generate_fails w prompt :
  Gateway.Failure (gemini w prompt) → generate w prompt = Throw.
Proof.
  unfold generate. intros H. inversion H as [Hr|st Hr|st data Hno Hr]; try done.
  unfold candidateText. by destruct (hasCandidateContent data) as [[]|].
Qed.

Lemma handle_chat numberText w reqBody messages msg text prompt :
  validate reqBody = Ok (Valid messages msg) →
  get msg "content" = Ok (Text text) →
  isScanCommand (trim text) = false →
  promptFor numberText w messages (trim text) = Ok prompt →
  chat numberText w reqBody = answer w (trim text) prompt.
Proof.
  intros Hv Hc Hs Hp. unfold chat, handle. rewrite Hv. simpl. rewrite Hc. simpl.
  by rewrite Hs, Hp.
Qed.

(** The status of the answer plays no part. *)
Lemma generate_ignores_status w1 w2 prompt st1 st2 payload :
  gemini w1 prompt = Replied st1 payload →
  gemini w2 prompt = Replied st2 payload →
  generate w1 prompt = generate w2 prompt.
Proof. unfold generate. by intros -> ->. Qed.

(** The tests of the fallback, in their order. *)
Lemma silent_includes q ks :
  silent q ks → Forall (λ k, includes (toLowerCase q) k = false) ks.
Proof.
  unfold silent, mentions. intros H. apply Forall_forall. intros k Hk.
  by apply includes_false, H.
Qed.

Lemma speaks_includes q ks :
  speaks q ks → existsb (λ k, includes (toLowerCase q) k) ks = true.
Proof.
  unfold speaks, mentions. intros H. by apply existsb_includes.
Qed.

Lemma fallback_chain q :
  (speaks q ["hello"; "hi"] → fallbackResponse q = greetingTemplate)
  ∧ (silent q ["hello"; "hi"] → speaks q ["help"] →
     fallbackResponse q = helpTemplate)
  ∧ (silent q ["hello"; "hi"; "help"] → speaks q ["course"; "class"] →
     fallbackResponse q = courseTemplate)
  ∧ (silent q beforeAssignment → speaks q ["assignment"; "homework"] →
     fallbackResponse q = assignmentTemplate)
  ∧ (silent q ["hello"; "hi"; "help"; "course"; "class"; "assignment"; "homework"] →
     speaks q ["resource"; "material"] →
     fallbackResponse q = resourceTemplate)
  ∧ (silent q fallbackKeywords → fallbackResponse q = connectionIssuesTemplate).
Proof.
  unfold fallbackResponse, beforeAssignment, fallbackKeywords. cbv zeta.
  repeat split.
  - intros Hyes%speaks_includes. simpl in Hyes. rewrite orb_false_r in Hyes.
    by rewrite Hyes.
  - intros Hno%silent_includes Hyes%speaks_includes.
    rewrite !Forall_cons in Hno. destruct Hno as (-> & -> & _).
    simpl in Hyes. rewrite orb_false_r in Hyes. by rewrite Hyes.
  - intros Hno%silent_includes Hyes%speaks_includes.
    rewrite !Forall_cons in Hno. destruct Hno as (-> & -> & -> & _).
    simpl in Hyes. rewrite orb_false_r in Hyes. by rewrite Hyes.
  - intros Hno%silent_includes Hyes%speaks_includes.
    rewrite !Forall_cons in Hno. destruct Hno as (-> & -> & -> & -> & -> & _).
    simpl in Hyes. rewrite orb_false_r in Hyes. by rewrite Hyes.
  - intros Hno%silent_includes Hyes%speaks_includes.
    rewrite !Forall_cons in Hno.
    destruct Hno as (-> & -> & -> & -> & -> & -> & -> & _).
    simpl in Hyes. rewrite orb_false_r in Hyes. by rewrite Hyes.
  - intros Hno%silent_includes. rewrite !Forall_cons in Hno.
    by destruct Hno as (-> & -> & -> & -> & -> & -> & -> & -> & -> & _).
Qed.

End Generic.

End FallbackFacts.

(** C1 (as amended).  For a chat request that reaches the generation
    call: when the call fails (the transport fails, the body is not JSON,
    or the payload lacks the candidate/content structure; the status of the
    answer is not looked at) the reply is HTTP 200 with an assistant
    message chosen by the first keyword test that succeeds on the
    lower-cased query, in the order hello or hi (the greeting), help (the
    help reply), course or class (the course reply), assignment or
    homework (the assignment reply), resource or material (the resource
    reply); a query that mentions none of these keywords gets the
    connection-issues reply. *)
Theorem fallback_on_gateway_failure {casing : Str.Casing} (numberText : N → string)
    (w : Server.World) (reqBody : Js.value) (messages : list Js.value) (msg : Js.value)
    (text prompt : string) :
  Server.validate reqBody = Js.Ok (Server.Valid messages msg) →
  Js.get msg "content" = Js.Ok (Js.Text text) →
  Server.isScanCommand (Str.trim text) = false →
  Server.promptFor numberText w messages (Str.trim text) = Js.Ok prompt →
  Gateway.Failure (Server.gemini w prompt) →
  let userContent := Str.trim text in
  ∃ reply,
    Server.chat numberText w reqBody
    = {| Server.status := 200;
         Server.body := Server.MessageBody
                          {| Server.role := "assistant";
                             Server.content := Js.Text reply |} |}
    ∧ (Vocabulary.speaks userContent ["hello"; "hi"] →
       reply = Server.greetingTemplate)
    ∧ (Vocabulary.silent userContent ["hello"; "hi"] →
       Vocabulary.speaks userContent ["help"] →
       reply = Server.helpTemplate)
    ∧ (Vocabulary.silent userContent ["hello"; "hi"; "help"] →
       Vocabulary.speaks userContent ["course"; "class"] →
       reply = Server.courseTemplate)
    ∧ (Vocabulary.silent userContent Vocabulary.beforeAssignment →
       Vocabulary.speaks userContent ["assignment"; "homework"] →
       reply = Server.assignmentTemplate)
    ∧ (Vocabulary.silent userContent
         ["hello"; "hi"; "help"; "course"; "class"; "assignment"; "homework"] →
       Vocabulary.speaks userContent ["resource"; "material"] →
       reply = Server.resourceTemplate)
    ∧ (Vocabulary.silent userContent Vocabulary.fallbackKeywords →
       reply = Server.connectionIssuesTemplate).
Proof.
  intros Hv Hc Hs Hp Hfail userContent.
  exists (Server.fallbackResponse userContent). split.
  - rewrite (FallbackFacts.handle_chat _ _ _ _ _ _ _ Hv Hc Hs Hp).
    unfold Server.answer. by rewrite FallbackFacts.generate_fails.
  - apply FallbackFacts.fallback_chain.
Qed.

Lemma fallback_on_gateway_failure_witness :
  let text := "  my Homework is due " in
  let userContent := "my Homework is due" in
  let reqBody := Sample.chatBody [Sample.userMessage text] in
  let prompt := Server.fullPrompt Sample.numberText Sample.offline userContent text in
  Server.validate reqBody
    = Js.Ok (Server.Valid [Sample.userMessage text] (Sample.userMessage text))
  ∧ Js.get (Sample.userMessage text) "content" = Js.Ok (Js.Text text)
  ∧ Server.isScanCommand (Str.trim text) = false
  ∧ Server.promptFor Sample.numberText Sample.offline [Sample.userMessage text]
      (Str.trim text) = Js.Ok prompt
  ∧ Gateway.Failure (Server.gemini Sample.offline prompt)
  ∧ Vocabulary.silent userContent Vocabulary.beforeAssignment
  ∧ Vocabulary.speaks userContent ["assignment"; "homework"]
  ∧ Server.chat Sample.numberText Sample.offline reqBody
    = Server.json (Server.MessageBody (Server.assistant Server.assignmentTemplate)).
Proof.
  intros text userContent reqBody prompt.
  assert (Vocabulary.silent userContent Vocabulary.beforeAssignment) as Hsilent.
  { intros k Hk. apply StrFacts.includes_false. revert k Hk.
    apply Forall_forall. by repeat constructor. }
  assert (Vocabulary.speaks userContent ["assignment"; "homework"]) as Hspeaks.
  { exists "homework". split; [apply list_elem_of_further, list_elem_of_here|].
    by apply StrFacts.includes_spec. }
  split; [reflexivity|]. split; [reflexivity|]. split; [reflexivity|].
  split; [reflexivity|]. split; [apply Gateway.transport_fault|].
  split; [exact Hsilent|]. split; [exact Hspeaks|].
  destruct (fallback_on_gateway_failure Sample.numberText Sample.offline reqBody
              [Sample.userMessage text] (Sample.userMessage text) text prompt
              eq_refl eq_refl eq_refl eq_refl Gateway.transport_fault)
    as (reply & -> & _ & _ & _ & Hreply & _).
  by rewrite (Hreply Hsilent Hspeaks).
Defined.

(** C1 as stated fails: with the generation endpoint unreachable, a query
    that contains assignment but also help gets the help reply, not the
    assignment reply. *)
Lemma assignment_keyword_not_decisive :
  ¬ (∀ (w : Server.World) (userContent : string),
       (∀ prompt, Gateway.Failure (Server.gemini w prompt)) →
       Str.occurs_in "assignment" userContent →
       Server.chat Sample.numberText w (Sample.chatBody [Sample.userMessage userContent])
       = Server.json (Server.MessageBody (Server.assistant Server.assignmentTemplate))).
Proof.
  intros claim.
  specialize (claim Sample.offline "help with my assignment").
  assert (Str.occurs_in "assignment" "help with my assignment") as Hocc
    by (by apply StrFacts.includes_spec).
  specialize (claim (λ _, Gateway.transport_fault) Hocc).
  vm_compute in claim. discriminate claim.
Qed.

(** The status is not a failure by itself: an answer with status 500 and a
    well-formed payload is relayed as it is. *)
Lemma status_500_with_payload_is_relayed :
  Server.chat Sample.numberText Sample.answers500
    (Sample.chatBody [Sample.userMessage "my assignment is due"])
  = Server.json (Server.MessageBody (Server.assistant "Here is an answer.")).
Proof. reflexivity. Qed.

(** ** The scan commands *)

Module ScanFacts.

Import Js Server Str StrFacts.

Section Generic.

Context {casing : Str.Casing}.


Lemma scanCommand_ok w userContent :
  ∃ text, scanCommand w userContent = json (MessageBody (assistant text)).
Proof.
  unfold scanCommand. destruct (scanProjectFiles w _); eauto.
Qed.

End Generic.

End ScanFacts.




(** ** Request validation *)

Module ValidationFacts.

Import Js Server WellFormed.

Lemma get_readable msg key : msg ≠ Null → msg ≠ Undefined → ∃ v, get msg key = Ok v.
Proof. destruct msg; intros ??; try done; simpl; eauto. Qed.

Lemma is_text_spec v s : is_text v s = true ↔ v = Text s.
Proof.
  destruct v; simpl; try (split; [discriminate|congruence]).
  rewrite String.eqb_eq. split; congruence.
Qed.

Lemma findUser_readable items :
  readable items →
  (∃ msg, findUser items = Ok (Some msg) ∧ msg ∈ items ∧ isUser msg)
  ∨ (findUser items = Ok None ∧ ∀ msg, msg ∈ items → ¬ isUser msg).
Proof.
  induction 1 as [|msg items [Hnull Hundef] _ IH]; simpl.
  - right. split; [done|]. intros msg Hin. by apply elem_of_nil in Hin.
  - destruct (get_readable msg "role" Hnull Hundef) as [r Hr].
    rewrite Hr. simpl. destruct (is_text r "user") eqn:Hu.
    + apply is_text_spec in Hu as ->. left. exists msg.
      repeat split; [apply list_elem_of_here|done].
    + assert (¬ isUser msg) as Hno.
      { unfold isUser. rewrite Hr. intros [= ->]. simpl in Hu. discriminate Hu. }
      destruct IH as [(m & Hf & Hin & Hm)|[Hf Hnone]].
      * left. exists m. repeat split; [done| |done]. by apply list_elem_of_further.
      * right. split; [done|]. intros m [->|Hin]%elem_of_cons; auto.
Qed.

End ValidationFacts.

(** On bodies whose message elements can all be read, validation answers
    400 when [messages] is not an array or holds no user message, and
    otherwise finds the latest user message. *)
Lemma validate_readable (reqBody messages : Js.value) :
  Js.get reqBody "messages" = Js.Ok messages →
  match messages with
  | Js.Arr items =>
      WellFormed.readable items →
      (∃ msg, Server.validate reqBody = Js.Ok (Server.Valid items msg)
              ∧ msg ∈ items ∧ WellFormed.isUser msg)
      ∨ ((∀ msg, msg ∈ items → ¬ WellFormed.isUser msg)
         ∧ ∃ error, Server.validate reqBody
                    = Js.Ok (Server.Invalid {| Server.status := 400;
                                               Server.body := Server.ErrorBody error |}))
  | _ =>
      ∃ error, Server.validate reqBody
               = Js.Ok (Server.Invalid {| Server.status := 400;
                                          Server.body := Server.ErrorBody error |})
  end.
Proof.
  intros Hget. unfold Server.validate. rewrite Hget. simpl.
  destruct messages as [| |b|n|s|items|f]; eauto.
  intros Hr. apply Forall_rev in Hr.
  destruct (ValidationFacts.findUser_readable _ Hr) as [(m & -> & Hin & Hm)|[-> Hnone]];
    simpl.
  - left. exists m. repeat split; [|done].
    by apply list_elem_of_In, in_rev, list_elem_of_In.
  - right. split; [|eauto]. intros m Hin. apply Hnone.
    by apply list_elem_of_In, in_rev, list_elem_of_In in Hin.
Qed.

(** C6, at the failing input.  A message list that holds [null] after its
    last user message (or holds no user message at all) is answered with
    HTTP 500 and an assistant message, not with HTTP 400: reading [role] of
    [null] throws before the validation has answered. *)
Theorem null_message_element_answers_500 {casing : Str.Casing} (numberText : N → string) (w : Server.World) :
  Server.chat numberText w (Sample.chatBody [Js.Null]) = Server.internalError
  ∧ Server.chat numberText w (Sample.chatBody [Sample.userMessage "hello"; Js.Null])
    = Server.internalError
  ∧ Server.status Server.internalError = 500
  ∧ (∀ msg, msg ∈ [Js.Null] → ¬ WellFormed.isUser msg).
Proof.
  repeat split. intros msg ->%list_elem_of_singleton. discriminate.
Qed.

(** ** Rate limiting *)

Module RateFacts.

Import Server Traffic.

(** The first request of a window. *)
Lemma open_window tokens userId now :
  opensWindow tokens userId now →
  rateLimiter tokens userId now
  = (<[userId := {| count := 1; resetTime := now + windowMs |}]> tokens, Next).
Proof.
  unfold opensWindow, rateLimiter.
  destruct (tokens !! userId) as [b|]; simpl.
  - intros H. apply Z.ltb_lt in H. by rewrite H.
  - intros _. assert ((now + windowMs <? now) = false) as ->; [|done].
    apply Z.ltb_ge. unfold windowMs. lia.
Qed.

(** A later request of the window, below the limit. *)
Lemma within_window tokens userId now k reset :
  tokens !! userId = Some {| count := k; resetTime := reset |} →
  now ≤ reset → k < maxRequests →
  rateLimiter tokens userId now
  = (<[userId := {| count := k + 1; resetTime := reset |}]> tokens, Next).
Proof.
  intros Hb Hnow Hk. unfold rateLimiter. rewrite Hb. simpl.
  assert ((reset <? now) = false) as -> by (apply Z.ltb_ge; lia). simpl.
  by assert ((maxRequests <=? k) = false) as -> by (apply Z.leb_gt; lia).
Qed.

(** A request of the window at the limit. *)
Lemma window_full tokens userId now k reset :
  tokens !! userId = Some {| count := k; resetTime := reset |} →
  now ≤ reset → maxRequests ≤ k →
  rateLimiter tokens userId now = (tokens, rejection reset).
Proof.
  intros Hb Hnow Hk. unfold rateLimiter. rewrite Hb. simpl.
  assert ((reset <? now) = false) as -> by (apply Z.ltb_ge; lia). simpl.
  assert ((maxRequests <=? k) = true) as -> by (apply Z.leb_le; lia).
  by rewrite insert_id.
Qed.

(** Requests of other callers leave a caller's bucket alone. *)
Lemma other_caller tokens userId other now :
  other ≠ userId →
  (rateLimiter tokens other now).1 !! userId = tokens !! userId.
Proof.
  intros Hne. unfold rateLimiter.
  destruct (maxRequests <=? _); simpl; by rewrite lookup_insert_ne.
Qed.

Lemma of_caller_cons {A} userId caller (x : A) l :
  of_caller userId ((caller, x) :: l)
  = if String.eqb caller userId then x :: of_caller userId l else of_caller userId l.
Proof. unfold of_caller. simpl. by destruct (String.eqb caller userId). Qed.

(** Inside the window, the requests of the caller pass as long as the
    limit is not reached, and the bucket counts them; the requests of other
    callers in between change nothing to that. *)
Lemma serve_within_window requests : ∀ tokens userId k reset,
  tokens !! userId = Some {| count := k; resetTime := reset |} →
  0 ≤ k → k + Z.of_nat (length (of_caller userId requests)) ≤ maxRequests →
  Forall (λ t, t ≤ reset) (of_caller userId requests) →
  ∃ tokens' verdicts,
    serve tokens requests = (tokens', verdicts)
    ∧ of_caller userId verdicts = replicate (length (of_caller userId requests)) Next
    ∧ tokens' !! userId
      = Some {| count := k + Z.of_nat (length (of_caller userId requests));
                resetTime := reset |}.
Proof.
  induction requests as [|[caller now] later IH];
    intros tokens userId k reset Hb Hk Hmax Hall.
  - exists tokens, []. simpl. split; [done|]. split; [done|]. by rewrite Z.add_0_r.
  - rewrite of_caller_cons in Hmax, Hall |- *. simpl serve.
    destruct (String.eqb_spec caller userId) as [->|Hne].
    + apply Forall_cons in Hall as [Hnow Hlater]. simpl in Hmax.
      rewrite (within_window tokens userId now k reset) by (done || lia).
      destruct (IH (<[userId := {| count := k + 1; resetTime := reset |}]> tokens)
                  userId (k + 1) reset) as (tokens' & vs & -> & Hvs & Hb');
        try done; try lia.
      { by rewrite lookup_insert_eq. }
      exists tokens', ((userId, Next) :: vs). split; [done|].
      rewrite of_caller_cons, String.eqb_refl, Hvs. split; [done|].
      rewrite Hb'. simpl. do 2 f_equal. lia.
    + pose proof (other_caller tokens userId caller now Hne) as Hother.
      destruct (rateLimiter tokens caller now) as [tokens1 v]. simpl in Hother.
      destruct (IH tokens1 userId k reset) as (tokens' & vs & -> & Hvs & Hb');
        try done.
      { by rewrite Hother. }
      exists tokens', ((caller, v) :: vs). split; [done|].
      rewrite of_caller_cons.
      by destruct (String.eqb_spec caller userId) as [->|_].
Qed.

(** The same from the request that opens the window. *)
Lemma serve_window requests : ∀ tokens userId t0 later,
  of_caller userId requests = t0 :: later →
  opensWindow tokens userId t0 →
  1 + Z.of_nat (length later) ≤ maxRequests →
  Forall (λ t, t ≤ t0 + windowMs) later →
  ∃ tokens' verdicts,
    serve tokens requests = (tokens', verdicts)
    ∧ of_caller userId verdicts = replicate (S (length later)) Next
    ∧ tokens' !! userId
      = Some {| count := 1 + Z.of_nat (length later); resetTime := t0 + windowMs |}.
Proof.
  induction requests as [|[caller now] rest IH];
    intros tokens userId t0 later Hreq Hopen Hmax Hall; [done|].
  rewrite of_caller_cons in Hreq. simpl serve.
  destruct (String.eqb_spec caller userId) as [->|Hne].
  - injection Hreq as -> Hrest. rewrite (open_window _ _ _ Hopen).
    destruct (serve_within_window rest
                (<[userId := {| count := 1; resetTime := t0 + windowMs |}]> tokens)
                userId 1 (t0 + windowMs)) as (tokens' & vs & -> & Hvs & Hb');
      rewrite ?Hrest; try done.
    { by rewrite lookup_insert_eq. }
    exists tokens', ((userId, Next) :: vs). split; [done|].
    rewrite of_caller_cons, String.eqb_refl, Hvs, Hrest. split; [done|].
    by rewrite Hb', Hrest.
  - pose proof (other_caller tokens userId caller now Hne) as Hother.
    destruct (rateLimiter tokens caller now) as [tokens1 v]. simpl in Hother.
    destruct (IH tokens1 userId t0 later Hreq) as (tokens' & vs & -> & Hvs & Hb');
      try done.
    { unfold opensWindow. by rewrite Hother. }
    exists tokens', ((caller, v) :: vs). split; [done|].
    rewrite of_caller_cons.
    by destruct (String.eqb_spec caller userId) as [->|_].
Qed.

End RateFacts.

(** C2.  Take any sequence of requests, served one after the other, in
    which the requests of one caller arrive at [t0] and then at nine more
    times, where the request at [t0] opens a window for that caller (a
    first request, or one after the previous window has elapsed) and the
    nine others lie before the end of that window.  All ten pass; an
    eleventh request of the caller before the window ends is rejected with
    HTTP 429 and the reset time of the window; and the caller's first
    request after the window has elapsed passes and leaves the counter at
    1. *)
Theorem rate_limit_window (tokens : gmap string Server.Bucket) (userId : string)
    (requests : list (string * Z)) (t0 : Z) (later : list Z) (t11 t12 : Z) :
  Traffic.of_caller userId requests = t0 :: later →
  Traffic.opensWindow tokens userId t0 →
  length later = 9%nat →
  Forall (λ t, t ≤ t0 + Server.windowMs) later →
  t11 ≤ t0 + Server.windowMs →
  t0 + Server.windowMs < t12 →
  ∃ tokens10 verdicts tokens12,
    Traffic.serve tokens requests = (tokens10, verdicts)
    ∧ Traffic.of_caller userId verdicts = replicate 10 Server.Next
    ∧ Server.rateLimiter tokens10 userId t11
      = (tokens10, Traffic.rejection (t0 + Server.windowMs))
    ∧ Server.rateLimiter tokens10 userId t12 = (tokens12, Server.Next)
    ∧ tokens12 !! userId
      = Some {| Server.count := 1; Server.resetTime := t12 + Server.windowMs |}.
Proof.
  intros Hreq Hopen Hlen Hall H11 H12.
  destruct (RateFacts.serve_window requests tokens userId t0 later)
    as (tokens10 & verdicts & Hserve & Hvs & Hb); try done.
  { rewrite Hlen. unfold Server.maxRequests. lia. }
  rewrite Hlen in Hb, Hvs. simpl in Hb.
  exists tokens10, verdicts,
    (<[userId := {| Server.count := 1;
                    Server.resetTime := t12 + Server.windowMs |}]> tokens10).
  split; [done|]. split; [done|]. split; [|split].
  - apply (RateFacts.window_full _ _ _ 10); [done|done|]. unfold Server.maxRequests. lia.
  - apply RateFacts.open_window. unfold Traffic.opensWindow. by rewrite Hb.
  - by rewrite lookup_insert_eq.
Qed.

Lemma rate_limit_window_witness :
  let requests :=
    [("alice", 1000); ("bob", 1500); ("alice", 2000); ("alice", 3000); ("alice", 4000);
     ("alice", 5000); ("bob", 5500); ("alice", 6000); ("alice", 7000); ("alice", 8000);
     ("alice", 9000); ("alice", 61000)] in
  Traffic.of_caller "alice" requests
  = [1000; 2000; 3000; 4000; 5000; 6000; 7000; 8000; 9000; 61000]
  ∧ Traffic.opensWindow ∅ "alice" 1000
  ∧ Traffic.of_caller "alice" (Traffic.serve ∅ requests).2 = replicate 10 Server.Next.
Proof.
  intros requests. split; [reflexivity|]. split; [exact I|].
  destruct (rate_limit_window ∅ "alice" requests 1000
              [2000; 3000; 4000; 5000; 6000; 7000; 8000; 9000; 61000] 61000 61001)
    as (tokens10 & verdicts & tokens12 & -> & Hvs & _).
  - reflexivity.
  - exact I.
  - reflexivity.
  - unfold Server.windowMs. repeat constructor; lia.
  - unfold Server.windowMs. lia.
  - unfold Server.windowMs. lia.
  - exact Hvs.
Defined.

(** C10.  A request that the rate limiter rejects leaves the bucket map as
    it was, the caller's bucket included; the rejection carries HTTP 429
    and the reset time of that bucket. *)
Theorem rejected_request_leaves_bucket (tokens tokens' : gmap string Server.Bucket)
    (userId : string) (now : Z) (r : Server.Response) :
  Server.rateLimiter tokens userId now = (tokens', Server.Rejected r) →
  tokens' = tokens
  ∧ ∃ bucket, tokens !! userId = Some bucket
              ∧ r = {| Server.status := 429;
                       Server.body :=
                         Server.RateLimitBody "Rate limit exceeded. Please try again later."
                                              (Server.resetTime bucket) |}.
Proof.
  unfold Server.rateLimiter.
  destruct (tokens !! userId) as [b|] eqn:Hb; simpl.
  - destruct (Server.resetTime b <? now); simpl.
    + unfold Server.maxRequests. simpl. discriminate.
    + destruct (Server.maxRequests <=? Server.count b); [|discriminate].
      intros [= <- <-]. split; [by apply insert_id|]. by exists b.
  - assert ((now + Server.windowMs <? now) = false) as ->
      by (apply Z.ltb_ge; unfold Server.windowMs; lia).
    unfold Server.maxRequests. simpl. discriminate.
Qed.

Lemma rejected_request_leaves_bucket_witness :
  let tokens : gmap string Server.Bucket :=
    {[ "alice" := {| Server.count := 10; Server.resetTime := 61000 |} ]} in
  Server.rateLimiter tokens "alice" 5000 = (tokens, Traffic.rejection 61000)
  ∧ tokens = tokens.
Proof.
  simpl.
  assert (Server.rateLimiter
            {[ "alice" := {| Server.count := 10; Server.resetTime := 61000 |} ]}
            "alice" 5000
          = ({[ "alice" := {| Server.count := 10; Server.resetTime := 61000 |} ]},
             Traffic.rejection 61000)) as H.
  { apply (RateFacts.window_full _ _ _ 10); [by rewrite lookup_singleton_eq|lia|].
    unfold Server.maxRequests. lia. }
  split; [exact H|].
  exact (proj1 (rejected_request_leaves_bucket _ _ "alice" 5000 _ H)).
Defined.

(** ** The matcher enumerates the matches *)

Module RegexFacts.

Import Regex RegexSem.

Lemma star_loop_mono step fuel : ∀ fuel' s s',
  (fuel ≤ fuel')%nat → In s' (star_loop step fuel s) → In s' (star_loop step fuel' s).
Proof.
  induction fuel as [|fuel IH]; intros fuel' s s' Hle.
  - simpl. intros [<-|[]]. destruct fuel'; simpl; [by left|].
    apply in_or_app. right. by left.
  - destruct fuel' as [|fuel']; [lia|]. simpl.
    rewrite !in_app_iff, !in_flat_map.
    intros [(s1 & H1 & H)|H]; [left|by right].
    exists s1. split; [done|].
    destruct (_ <? _)%nat; [|done]. apply IH; [lia|done].
Qed.

Lemma star_loop_sound r
    (IH : ∀ s s', In s' (rmatch r s) → matches r s s') fuel :
  ∀ s s', In s' (star_loop (rmatch r) fuel s) → matches (Star r) s s'.
Proof.
  induction fuel as [|fuel IHf]; intros s s'; simpl.
  - intros [<-|[]]. constructor.
  - rewrite in_app_iff, in_flat_map.
    intros [(s1 & H1 & H)|[<-|[]]]; [|constructor].
    destruct (_ <? _)%nat eqn:Hlt; [|done].
    apply Nat.ltb_lt in Hlt. eapply m_star_step; eauto.
Qed.

Theorem rmatch_sound r : ∀ s s', In s' (rmatch r s) → matches r s s'.
Proof.
  induction r as [|p|r1 IH1 r2 IH2|r1 IH1 r2 IH2|r IH| |n r IH]; intros s s'; simpl.
  - intros [<-|[]]. constructor.
  - destruct (rest s) as [|c t] eqn:Hrest; [done|].
    destruct (p c) eqn:Hp; [|done]. intros [<-|[]]. by constructor.
  - rewrite in_flat_map. intros (s1 & H1 & H2). econstructor; eauto.
  - rewrite in_app_iff. intros [H|H]; [apply m_alt_l|apply m_alt_r]; auto.
  - intros H. exact (star_loop_sound r IH (S (length (rest s))) s s' H).
  - destruct (at_word_boundary s) eqn:Hb; [|done]. intros [<-|[]]. by constructor.
  - rewrite in_map_iff. intros (s1 & <- & H). constructor. auto.
Qed.

Theorem rmatch_complete r s s' : matches r s s' → In s' (rmatch r s).
Proof.
  induction 1 as [s|p s c t Hrest Hp|r1 r2 s s1 s' _ IH1 _ IH2|r1 r2 s s' _ IH
                 |r1 r2 s s' _ IH|r s|r s s1 s' _ IH1 Hlt _ IH2|s Hb|n r s s' _ IH];
    simpl.
  - by left.
  - rewrite Hrest, Hp. by left.
  - apply in_flat_map. eauto.
  - apply in_app_iff. by left.
  - apply in_app_iff. by right.
  - apply in_app_iff. right. by left.
  - apply in_app_iff. left. apply in_flat_map. exists s1. split; [done|].
    apply Nat.ltb_lt in Hlt as Hlt'. rewrite Hlt'.
    apply (star_loop_mono (rmatch r) (S (length (rest s1)))); [lia|exact IH2].
  - rewrite Hb. by left.
  - apply in_map_iff. eauto.
Qed.

(** The first match at a position is a match, and a position with a match
    has a first match. *)
Lemma first_match r s s' l : rmatch r s = s' :: l → matches r s s'.
Proof. intros H. apply rmatch_sound. rewrite H. by left. Qed.

Lemma no_match r s : rmatch r s = [] ↔ ∀ s', ¬ matches r s s'.
Proof.
  split.
  - intros H s' Hm. apply rmatch_complete in Hm. by rewrite H in Hm.
  - intros H. destruct (rmatch r s) as [|s' l] eqn:Hr; [done|].
    destruct (H s'). by eapply first_match.
Qed.

Lemma some_match r s s' : matches r s s' → ∃ s1 l, rmatch r s = s1 :: l.
Proof.
  intros Hm%rmatch_complete. destruct (rmatch r s) as [|s1 l]; [done|eauto].
Qed.

(** *** The search *)

Lemma search_eq r n before after :
  search r n before after
  = match rmatch r (start n before after) with
    | s' :: _ => Some (finish (start n before after) s')
    | [] =>
        match after with
        | [] => None
        | c :: t => search r n (c :: before) t
        end
    end.
Proof. by destruct after. Qed.

Lemma search_found r n : ∀ after before m,
  search r n before after = Some m →
  ∃ skipped here s' l,
    after = skipped ++ here
    ∧ rmatch r (start n (rev skipped ++ before) here) = s' :: l
    ∧ m = finish (start n (rev skipped ++ before) here) s'
    ∧ ∀ u v, skipped = u ++ v → v ≠ [] →
             rmatch r (start n (rev u ++ before) (v ++ here)) = [].
Proof.
  induction after as [|c after IH]; intros before m; rewrite search_eq.
  - destruct (rmatch r (start n before [])) as [|s' l] eqn:Hr; [done|].
    intros [= <-]. exists [], [], s', l. repeat split; [done|].
    intros u v Huv. by destruct u, v.
  - destruct (rmatch r (start n before (c :: after))) as [|s' l] eqn:Hr.
    + intros (skipped & here & s' & l & -> & Hm & -> & Hearlier)%IH.
      exists (c :: skipped), here, s', l. simpl. rewrite <- !app_assoc. simpl.
      repeat split; [done|].
      intros [|c' u] v Huv Hv; simpl in Huv.
      * subst v. exact Hr.
      * injection Huv as -> ->. simpl. rewrite <- app_assoc. simpl.
        by apply Hearlier.
    + intros [= <-]. exists [], (c :: after), s', l. repeat split; [done|].
      intros u v Huv. by destruct u, v.
Qed.

Lemma search_here r n before after s' l :
  rmatch r (start n before after) = s' :: l →
  search r n before after = Some (finish (start n before after) s').
Proof. intros H. by rewrite search_eq, H. Qed.

Lemma search_skip r n before c after :
  rmatch r (start n before (c :: after)) = [] →
  search r n before (c :: after) = search r n (c :: before) after.
Proof. intros H. by rewrite search_eq, H. Qed.

Lemma search_finds r n : ∀ skipped before here s' l,
  rmatch r (start n (rev skipped ++ before) here) = s' :: l →
  (∀ u v, skipped = u ++ v → v ≠ [] →
          rmatch r (start n (rev u ++ before) (v ++ here)) = []) →
  search r n before (skipped ++ here)
  = Some (finish (start n (rev skipped ++ before) here) s').
Proof.
  induction skipped as [|c skipped IH]; intros before here s' l Hm Hearlier.
  - by apply search_here with l.
  - change ((c :: skipped) ++ here) with (c :: skipped ++ here).
    rewrite search_skip by (by apply (Hearlier [] (c :: skipped))).
    simpl in Hm. rewrite <- app_assoc in Hm. simpl in Hm.
    rewrite (IH (c :: before) here s' l Hm).
    + simpl. by rewrite <- app_assoc.
    + intros u v -> Hv. specialize (Hearlier (c :: u) v eq_refl Hv).
      simpl in Hearlier. by rewrite <- app_assoc in Hearlier.
Qed.

Lemma search_none r n : ∀ after before,
  search r n before after = None →
  ∀ u v, after = u ++ v → rmatch r (start n (rev u ++ before) v) = [].
Proof.
  induction after as [|c after IH]; intros before; rewrite search_eq.
  - destruct (rmatch r (start n before [])) eqn:Hr; [|done].
    intros _ u v Huv. by destruct u, v.
  - destruct (rmatch r (start n before (c :: after))) eqn:Hr; [|done].
    intros Hnone [|c' u] v Huv; simpl in *.
    + by subst v.
    + injection Huv as -> ->. rewrite <- app_assoc. simpl. by eapply IH.
Qed.

End RegexFacts.

(** ** What the pieces of the extractors' expressions read *)

Module ReadFacts.

Import Regex RegexSem RegexFacts Shape.

Lemma reads_ext r (P Q : list ascii → Prop) :
  (∀ u, P u ↔ Q u) → reads r P → reads r Q.
Proof.
  intros HPQ Hr s s'. rewrite (Hr s s').
  split; intros (u & t & Hu & H); exists u, t; split; try done; by apply HPQ.
Qed.

Lemma reads_empty : reads Empty (λ u, u = []).
Proof.
  intros s s'. split.
  - intros H. inv H. exists [], (rest s'). by destruct s'.
  - intros (u & t & -> & Hrest & ->). simpl in *. rewrite <- Hrest.
    destruct s. constructor.
Qed.

Lemma reads_class p : reads (Class p) (λ u, ∃ c, u = [c] ∧ p c = true).
Proof.
  intros s s'. split.
  - intros H. inv H. exists [c], t. eauto.
  - intros (u & t & (c & -> & Hc) & Hrest & ->). by constructor.
Qed.

Lemma reads_seq r1 r2 (P1 P2 : list ascii → Prop) :
  reads r1 P1 → reads r2 P2 →
  reads (Seq r1 r2) (λ u, ∃ u1 u2, u = u1 ++ u2 ∧ P1 u1 ∧ P2 u2).
Proof.
  intros H1 H2 s s'. split.
  - intros H. inversion H as [| |? ? ? s1 ? Ha Hb| | | | | |]; subst.
    apply H1 in Ha as (u1 & t1 & Hu1 & Hrest1 & ->).
    apply H2 in Hb as (u2 & t2 & Hu2 & Hrest2 & ->). simpl in *. subst t1.
    exists (u1 ++ u2), t2. split; [eauto|].
    by rewrite rev_app_distr, <- !app_assoc.
  - intros (u & t & (u1 & u2 & -> & Hu1 & Hu2) & Hrest & ->).
    apply m_seq with (MState (rev u1 ++ seen s) (u2 ++ t) (caps s)).
    + apply H1. exists u1, (u2 ++ t). by rewrite Hrest, <- app_assoc.
    + apply H2. exists u2, t. simpl. by rewrite rev_app_distr, <- app_assoc.
Qed.

Lemma reads_alt r1 r2 (P1 P2 : list ascii → Prop) :
  reads r1 P1 → reads r2 P2 → reads (Alt r1 r2) (λ u, P1 u ∨ P2 u).
Proof.
  intros H1 H2 s s'. split.
  - intros H. inversion H as [| | |? ? ? ? Ha|? ? ? ? Ha| | | |]; subst.
    + apply H1 in Ha as (u & t & ? & ? & ?). exists u, t. auto.
    + apply H2 in Ha as (u & t & ? & ? & ?). exists u, t. auto.
  - intros (u & t & [Hu|Hu] & Hrest & ->).
    + apply m_alt_l, H1. eauto.
    + apply m_alt_r, H2. eauto.
Qed.

Lemma reads_star_class p : reads (Star (Class p)) (all p).
Proof.
  intros s s'. split.
  - intros H. remember (Star (Class p)) as r eqn:Hr.
    induction H as [| | | | |r s|r s s1 s' H1 _ Hlt _ IH| |]; try discriminate.
    + exists [], (rest s). repeat split; [constructor|]. by destruct s.
    + injection Hr as ->. inversion H1 as [|? ? c t Hs Hc| | | | | | |]; subst.
      destruct (IH eq_refl) as (u & t' & Hu & Hrest & ->).
      simpl in *. exists (c :: u), t'. split; [by constructor|]. split.
      * by rewrite Hs, Hrest.
      * simpl. by rewrite <- app_assoc.
  - intros (u & t & Hu & Hrest & ->). revert s Hrest.
    induction Hu as [|c u Hc Hu IH]; intros s Hrest; simpl in *.
    + rewrite <- Hrest. destruct s. constructor.
    + eapply (m_star_step _ _ (MState (c :: seen s) (u ++ t) (caps s))).
      * by constructor.
      * rewrite Hrest. simpl. lia.
      * rewrite <- app_assoc. simpl.
        by apply (IH (MState (c :: seen s) (u ++ t) (caps s))).
Qed.

Lemma reads_plus_class p : reads (Plus (Class p)) (λ u, u ≠ [] ∧ all p u).
Proof.
  eapply reads_ext; [|apply reads_seq; [apply reads_class|apply reads_star_class]].
  intros u. split.
  - intros (u1 & u2 & -> & (c & -> & Hc) & Hu2). split; [done|]. by constructor.
  - intros [Hne Hu]. destruct Hu as [|c u Hc Hu]; [done|].
    exists [c], u. eauto.
Qed.

Lemma reads_upto_class p extra :
  reads (Upto extra (Class p)) (λ u, (length u ≤ extra)%nat ∧ all p u).
Proof.
  induction extra as [|extra IH]; simpl.
  - eapply reads_ext; [|apply reads_empty]. intros u. split.
    + intros ->. split; [done|constructor].
    + intros [Hlen _]. destruct u; [done|simpl in Hlen; lia].
  - eapply reads_ext;
      [|apply reads_alt; [apply reads_seq; [apply reads_class|apply IH]|apply reads_empty]].
    intros u. split.
    + intros [(u1 & u2 & -> & (c & -> & Hc) & Hlen & Hu2)| ->].
      * split; [simpl; lia|by constructor].
      * split; [simpl; lia|constructor].
    + intros [Hlen Hu]. destruct Hu as [|c u Hc Hu]; [by right|left].
      exists [c], u. simpl in Hlen. repeat split; eauto. lia.
Qed.

Lemma reads_repeat_class p lo extra :
  reads (Repeat lo extra (Class p))
        (λ u, (lo ≤ length u ≤ lo + extra)%nat ∧ all p u).
Proof.
  induction lo as [|lo IH]; simpl.
  - eapply reads_ext; [|apply reads_upto_class]. intros u. simpl.
    split; intros [??]; split; try done; lia.
  - eapply reads_ext; [|apply reads_seq; [apply reads_class|apply IH]].
    intros u. split.
    + intros (u1 & u2 & -> & (c & -> & Hc) & Hlen & Hu2).
      split; [simpl; lia|by constructor].
    + intros [Hlen Hu]. destruct Hu as [|c u Hc Hu]; [simpl in Hlen; lia|].
      exists [c], u. simpl in Hlen. repeat split; eauto; lia.
Qed.

Lemma reads_word w : reads (Word w) (spells w).
Proof.
  induction w as [|a w IH].
  - eapply reads_ext; [|apply reads_empty]. intros u. unfold spells. simpl. split.
    + intros ->. constructor.
    + intros H. by inv H.
  - assert (reads (Seq (Lit a) (Word w)) (spells (String a w))) as Hseq.
    { eapply reads_ext; [|apply reads_seq; [apply reads_class|apply IH]].
      intros u. unfold spells. simpl. split.
      - intros (u1 & u2 & -> & (c & -> & Hc) & Hu2). by constructor.
      - intros H. inversion H as [|? y ? l' Hy Hl]; subst. exists [y], l'. eauto. }
    destruct w as [|b w]; [|exact Hseq].
    simpl. eapply reads_ext; [|apply reads_class]. intros u. unfold spells. simpl.
    split.
    + intros (c & -> & Hc). repeat constructor. done.
    + intros H. inversion H as [|? y ? l' Hy Hl]; subst. inversion Hl; subst. eauto.
Qed.

(** An iteration of an expression that reads no empty text. *)
Lemma reads_star r (P : list ascii → Prop) :
  reads r P → (∀ u, P u → u ≠ []) → reads (Star r) (repeated P).
Proof.
  intros Hr Hne s s'. split.
  - intros H. remember (Star r) as r0 eqn:Hr0.
    induction H as [| | | | |r1 s|r1 s s1 s' H1 _ Hlt _ IH| |]; try discriminate.
    + exists [], (rest s). split; [constructor|]. by destruct s.
    + injection Hr0 as ->. apply Hr in H1 as (u1 & t1 & Hu1 & Hrest1 & ->).
      destruct (IH eq_refl) as (u & t' & Hu & Hrest & ->). simpl in *.
      exists (u1 ++ u), t'. split; [by constructor|]. split.
      * by rewrite Hrest1, Hrest, app_assoc.
      * by rewrite rev_app_distr, <- app_assoc.
  - intros (u & t & Hu & Hrest & ->). revert s Hrest.
    induction Hu as [|u1 v Hu1 Hv IH]; intros s Hrest; simpl in *.
    + rewrite <- Hrest. destruct s. constructor.
    + apply (m_star_step _ _ (MState (rev u1 ++ seen s) (v ++ t) (caps s))).
      * apply Hr. exists u1, (v ++ t). by rewrite Hrest, <- app_assoc.
      * rewrite Hrest. simpl. rewrite <- app_assoc, (length_app u1).
        specialize (Hne _ Hu1). destruct u1; [done|simpl; lia].
      * rewrite rev_app_distr, <- app_assoc.
        by apply (IH (MState (rev u1 ++ seen s) (v ++ t) (caps s))).
Qed.

Lemma reads_plus r (P : list ascii → Prop) :
  reads r P → (∀ u, P u → u ≠ []) →
  reads (Plus r) (λ u, u ≠ [] ∧ repeated P u).
Proof.
  intros Hr Hne.
  eapply reads_ext; [|apply reads_seq; [apply Hr|by apply reads_star]].
  intros u. split.
  - intros (u1 & u2 & -> & Hu1 & Hu2). split; [|by constructor].
    specialize (Hne _ Hu1). by destruct u1.
  - intros [Hu0 Hu]. destruct Hu as [|u1 v Hu1 Hv]; [done|]. eauto.
Qed.

(** One of several expressions. *)
Lemma reads_anyof {A} (f : A → regex) (P : A → list ascii → Prop) a l :
  (∀ x, x ∈ a :: l → reads (f x) (P x)) →
  reads (AnyOf (List.map f (a :: l))) (λ u, ∃ x, x ∈ a :: l ∧ P x u).
Proof.
  revert a. induction l as [|b l IH]; intros a Hall.
  - eapply reads_ext; [|apply (Hall a), list_elem_of_here]. intros u. split.
    + intros H. exists a. split; [apply list_elem_of_here|done].
    + by intros (x & ->%list_elem_of_singleton & H).
  - eapply reads_ext;
      [|apply (reads_alt (f a) (AnyOf (List.map f (b :: l))) (P a)
                 (λ u, ∃ x, x ∈ b :: l ∧ P x u));
        [apply (Hall a), list_elem_of_here
        |apply IH; intros x Hx; by apply Hall, list_elem_of_further]].
    intros u. split.
    + intros [H|(x & Hin & H)].
      * exists a. split; [apply list_elem_of_here|done].
      * exists x. split; [by apply list_elem_of_further|done].
    + intros (x & [->|Hin]%elem_of_cons & H); [by left|right; eauto].
Qed.

(** *** White space *)

Lemma reads_code n : reads (Code n) (λ u, List.map Char.code u = [n]).
Proof.
  eapply reads_ext; [|apply reads_class]. intros u. simpl. split.
  - intros (c & -> & Hc%N.eqb_eq). simpl. by rewrite Hc.
  - destruct u as [|c [|c' u]]; try discriminate. intros [= Hc].
    exists c. split; [done|]. by apply N.eqb_eq.
Qed.

Lemma reads_codes n w : reads (Codes (n :: w)) (λ u, List.map Char.code u = n :: w).
Proof.
  revert n. induction w as [|n2 w IH]; intros n; [apply reads_code|].
  eapply reads_ext; [|apply (reads_seq _ _ _ _ (reads_code n) (IH n2))].
  intros u. split.
  - intros (u1 & u2 & -> & H1 & H2). rewrite map_app, H1, H2. done.
  - destruct u as [|c u]; [discriminate|]. simpl. intros [= Hc Hu].
    exists [c], u. simpl. by rewrite Hc.
Qed.

Lemma reads_space : reads Space white.
Proof.
  unfold Space, white.
  eapply reads_ext;
    [|apply (reads_anyof Codes (λ w u, List.map Char.code u = w) [9%N]
               (tail White.encodings))].
  - intros u. split.
    + by intros (w & Hin & ->).
    + intros H. by exists (List.map Char.code u).
  - intros w Hw.
    assert (w ≠ []) as Hne.
    { intros ->. revert Hw. unfold White.encodings. simpl tail.
      rewrite !elem_of_cons, elem_of_nil.
      intros H. repeat destruct H as [H|H]; done. }
    destruct w as [|n w]; [done|]. apply reads_codes.
Qed.

Lemma white_nonempty u : white u → u ≠ [].
Proof.
  unfold white. intros H ->. revert H. simpl. unfold White.encodings.
  rewrite !elem_of_cons, elem_of_nil. intros H. repeat destruct H as [H|H]; done.
Qed.

Lemma blank_one u : white u → blank u.
Proof. intros H. rewrite <- (app_nil_r u). constructor; [done|constructor]. Qed.

Lemma blank_space : blank [" "%char].
Proof.
  apply blank_one. unfold white. simpl.
  repeat (apply list_elem_of_here || apply list_elem_of_further).
Qed.

Lemma reads_blank : reads (Star Space) blank.
Proof. apply reads_star; [apply reads_space|apply white_nonempty]. Qed.

Lemma reads_blanks : reads (Plus Space) (λ u, u ≠ [] ∧ blank u).
Proof. apply reads_plus; [apply reads_space|apply white_nonempty]. Qed.

(** A group records what its body reads. *)
Lemma matches_group n r P :
  reads r P →
  ∀ s s', matches (Group n r) s s' ↔
          ∃ u t, P u ∧ rest s = u ++ t
                 ∧ s' = MState (rev u ++ seen s) t (<[n := Some u]> (caps s)).
Proof.
  intros Hr s s'.
  assert (∀ u t, rest s = u ++ t →
                 set_cap n s (MState (rev u ++ seen s) t (caps s))
                 = MState (rev u ++ seen s) t (<[n := Some u]> (caps s))) as Hcap.
  { intros u t Hrest. unfold set_cap, consumed. simpl. rewrite Hrest.
    rewrite length_app, Nat.add_sub. by rewrite take_app_length. }
  split.
  - intros H. inversion H as [| | | | | | | |? ? ? s1 Ha]; subst.
    apply Hr in Ha as (u & t & Hu & Hrest & ->).
    exists u, t. by rewrite Hcap.
  - intros (u & t & Hu & Hrest & ->). rewrite <- Hcap by done.
    constructor. apply Hr. eauto.
Qed.

Lemma matches_seq r1 r2 s s' :
  matches (Seq r1 r2) s s' ↔ ∃ s1, matches r1 s s1 ∧ matches r2 s1 s'.
Proof.
  split.
  - intros H. inversion H; subst. eauto.
  - intros (s1 & H1 & H2). by econstructor.
Qed.

Lemma matches_boundary s s' :
  matches WordBoundary s s' ↔ at_word_boundary s = true ∧ s' = s.
Proof.
  split.
  - intros H. by inv H.
  - intros [H ->]. by constructor.
Qed.

Lemma matches_opt r s s' : matches (Opt r) s s' ↔ matches r s s' ∨ s' = s.
Proof.
  unfold Opt. split.
  - intros H. inversion H as [| | |? ? ? ? Ha|? ? ? ? Ha| | | |]; subst; [by left|].
    inversion Ha; subst. by right.
  - intros [H| ->]; [by apply m_alt_l|apply m_alt_r; constructor].
Qed.

(** *** Word boundaries next to a word character *)

Lemma boundary_before_word before c t cs :
  Char.is_word c = true →
  at_word_boundary (MState before (c :: t) cs) = true ↔
  ∀ x, head before = Some x → Char.is_word x = false.
Proof.
  intros Hc. unfold at_word_boundary. simpl. rewrite Hc.
  destruct before as [|x before]; simpl.
  - split; [intros _ x [=]|done].
  - destruct (Char.is_word x) eqn:Hx; simpl; split; try done.
    + intros H. specialize (H x eq_refl). congruence.
    + by intros _ y [= <-].
Qed.

Lemma boundary_after_word c before post cs :
  Char.is_word c = true →
  at_word_boundary (MState (c :: before) post cs) = true ↔ no_word_after post.
Proof.
  intros Hc. unfold at_word_boundary, no_word_after. simpl. rewrite Hc.
  destruct post as [|x post]; simpl.
  - split; [intros _ x [=]|done].
  - destruct (Char.is_word x) eqn:Hx; simpl; split; try done.
    + intros H. specialize (H x eq_refl). congruence.
    + by intros _ y [= <-].
Qed.

Lemma letter_is_word c : Char.is_letter c = true → Char.is_word c = true.
Proof. unfold Char.is_word. by intros ->. Qed.

Lemma digit_is_word c : Char.is_digit c = true → Char.is_word c = true.
Proof. unfold Char.is_word. intros ->. by rewrite orb_true_r. Qed.

Lemma head_rev_last {A} (l : list A) : head (rev l) = last l.
Proof.
  induction l as [|x l IH] using rev_ind; [done|].
  by rewrite rev_app_distr, last_snoc.
Qed.

(** *** The course-code expression *)

Lemma courseCode_matches before after s' :
  matches Edu.courseCodeRegex (start 2 before after) s' ↔
  ∃ L W D post,
    after = L ++ W ++ D ++ post
    ∧ (2 ≤ length L ≤ 3)%nat ∧ all Char.is_letter L
    ∧ blank W
    ∧ length D = 3%nat ∧ all Char.is_digit D
    ∧ (∀ x, head before = Some x → Char.is_word x = false)
    ∧ no_word_after post
    ∧ s' = MState (rev (L ++ W ++ D) ++ before) post [None; Some L; Some D].
Proof.
  unfold Edu.courseCodeRegex, Edu.letter, Edu.digit, Edu.space, start. simpl Cat.
  pose proof (matches_group 1 _ _ (reads_repeat_class Char.is_letter 2 1)) as Hg1.
  pose proof (matches_group 2 _ _ (reads_repeat_class Char.is_digit 3 0)) as Hg2.
  pose proof reads_blank as Hst.
  split.
  - intros (s0 & [Hb0 ->]%matches_boundary & H)%matches_seq.
    apply matches_seq in H as (s1 & (L & t1 & [HlenL HL] & Hrest1 & ->)%Hg1 & H).
    apply matches_seq in H as (s2 & (W & t2 & HW & Hrest2 & ->)%Hst & H).
    apply matches_seq in H as (s3 & (D & post & [HlenD HD] & Hrest3 & ->)%Hg2 & H).
    apply matches_boundary in H as [Hb3 ->].
    simpl in *. subst after t1 t2.
    exists L, W, D, post. split; [done|].
    destruct L as [|l1 L]; [simpl in HlenL; lia|]. simpl in Hb0.
    assert (Char.is_word l1 = true) as Hl1
      by (apply letter_is_word; by inversion HL).
    pose proof (proj1 (boundary_before_word _ _ _ _ Hl1) Hb0) as Hbefore.
    destruct D as [|d1 [|d2 [|d3 [|d4 D]]]]; simpl in HlenD; try lia.
    assert (Char.is_word d3 = true) as Hd3.
    { apply digit_is_word. inversion HD as [|? ? ? HD']; inversion HD' as [|? ? ? HD''];
        by inversion HD''. }
    simpl in Hb3. rewrite <- !app_assoc in Hb3. simpl in Hb3.
    pose proof (proj1 (boundary_after_word _ _ _ _ Hd3) Hb3) as Hafter.
    repeat split; try done; try lia.
    rewrite !rev_app_distr. simpl. by rewrite <- !app_assoc.
  - intros (L & W & D & post & -> & HlenL & HL & HW & HlenD & HD & Hb0 & Hb3 & ->).
    apply matches_seq. eexists. split.
    { apply matches_boundary. split; [|reflexivity].
      destruct L as [|l1 L]; [simpl in HlenL; lia|]. simpl.
      apply boundary_before_word; [|done]. apply letter_is_word. by inversion HL. }
    apply matches_seq. eexists. split.
    { apply Hg1. exists L, (W ++ D ++ post). simpl. eauto. }
    apply matches_seq. eexists. split.
    { apply Hst. exists W, (D ++ post). simpl. eauto. }
    apply matches_seq. eexists. split.
    { apply Hg2. exists D, post. simpl. split; [split; [lia|done]|]. eauto. }
    apply matches_boundary. simpl. split.
    + destruct D as [|d1 [|d2 [|d3 [|d4 D]]]]; simpl in HlenD; try lia.
      simpl. 
      apply boundary_after_word; [|done].
      apply digit_is_word. inversion HD as [|? ? ? HD']; inversion HD' as [|? ? ? HD''];
        by inversion HD''.
    + rewrite !rev_app_distr. by rewrite <- !app_assoc.
Qed.

(** *** The semester expression *)

Lemma reads_ordinal :
  reads (AnyOf [Word "st"; Word "nd"; Word "rd"; Word "th"]) ordinal.
Proof.
  apply (reads_alt (Word "st") (AnyOf [Word "nd"; Word "rd"; Word "th"])
           (spells "st") (λ u, spells "nd" u ∨ spells "rd" u ∨ spells "th" u));
    [apply reads_word|].
  apply (reads_alt (Word "nd") (AnyOf [Word "rd"; Word "th"])
           (spells "nd") (λ u, spells "rd" u ∨ spells "th" u));
    [apply reads_word|].
  apply (reads_alt (Word "rd") (Word "th") (spells "rd") (spells "th"));
    apply reads_word.
Qed.

Lemma nocase_m c : Char.eq_nocase "m" c = true → Char.is_word c = true.
Proof. by_code_unit c. Qed.

Lemma nocase_r c : Char.eq_nocase "r" c = true → Char.is_word c = true.
Proof. by_code_unit c. Qed.

Lemma spells_sem u :
  spells "sem" u ↔
  ∃ a b c, u = [a; b; c] ∧ Char.eq_nocase "s" a = true
           ∧ Char.eq_nocase "e" b = true ∧ Char.eq_nocase "m" c = true.
Proof.
  unfold spells. simpl. split.
  - intros H. inversion H as [|? a ? ? Ha H1]; subst.
    inversion H1 as [|? b ? ? Hb H2]; subst.
    inversion H2 as [|? c ? ? Hc H3]; subst. inversion H3; subst.
    by exists a, b, c.
  - intros (a & b & c & -> & Ha & Hb & Hc). by repeat constructor.
Qed.

Lemma spells_ester u :
  spells "ester" u ↔
  ∃ a b c d e, u = [a; b; c; d; e] ∧ Char.eq_nocase "e" a = true
               ∧ Char.eq_nocase "s" b = true ∧ Char.eq_nocase "t" c = true
               ∧ Char.eq_nocase "e" d = true ∧ Char.eq_nocase "r" e = true.
Proof.
  unfold spells. simpl. split.
  - intros H. inversion H as [|? a ? ? Ha H1]; subst.
    inversion H1 as [|? b ? ? Hb H2]; subst.
    inversion H2 as [|? c ? ? Hc H3]; subst.
    inversion H3 as [|? d ? ? Hd H4]; subst.
    inversion H4 as [|? e ? ? He H5]; subst. inversion H5; subst.
    by exists a, b, c, d, e.
  - intros (a & b & c & d & e & -> & Ha & Hb & Hc & Hd & He). by repeat constructor.
Qed.

Lemma spells_semester u1 u2 :
  spells "sem" u1 → spells "ester" u2 → spells "semester" (u1 ++ u2).
Proof.
  intros (a & b & c & -> & ? & ? & ?)%spells_sem
         (a' & b' & c' & d' & e' & -> & ? & ? & ? & ? & ?)%spells_ester.
  unfold spells. simpl. by repeat constructor.
Qed.

Lemma spells_semester_inv u :
  spells "semester" u → ∃ u1 u2, u = u1 ++ u2 ∧ spells "sem" u1 ∧ spells "ester" u2.
Proof.
  unfold spells. simpl. intros H.
  inversion H as [|? a ? ? Ha H1]; subst.
  inversion H1 as [|? b ? ? Hb H2]; subst.
  inversion H2 as [|? c ? l3 Hc H3]; subst.
  exists [a; b; c], l3. repeat split; [by repeat constructor|done].
Qed.

Lemma semester_sound before after s' :
  matches Knowledge.semesterRegex (start 3 before after) s' →
  ∃ d suffix ws word post,
    after = d :: suffix ++ ws ++ word ++ post
    ∧ Char.is_digit d = true
    ∧ (suffix = [] ∨ ordinal suffix)
    ∧ ws ≠ [] ∧ blank ws
    ∧ (spells "sem" word ∨ spells "semester" word)
    ∧ (∀ x, head before = Some x → Char.is_word x = false)
    ∧ no_word_after post
    ∧ caps s' !! 1%nat = Some (Some [d]).
Proof.
  unfold Knowledge.semesterRegex, Edu.semesterTail, Edu.digit, Edu.space, start.
  simpl Cat.
  pose proof (matches_group 1 _ _ (reads_class Char.is_digit)) as Hg1.
  pose proof (matches_group 2 _ _ reads_ordinal) as Hg2.
  pose proof (matches_group 3 _ _ (reads_word "ester")) as Hg3.
  pose proof reads_blanks as Hsp.
  pose proof (reads_word "sem") as Hsem.
  intros (s0 & [Hb0 ->]%matches_boundary & H)%matches_seq.
  apply matches_seq in H as (s1 & (u & t1 & (d & -> & Hd) & Hrest1 & ->)%Hg1 & H).
  simpl in *. subst after.
  pose proof (proj1 (boundary_before_word _ _ _ _ (digit_is_word _ Hd)) Hb0) as Hbefore.
  apply matches_seq in H as (s2 & Hopt & H).
  apply matches_seq in H as (s3 & (ws & t3 & [Hne Hws] & Hrest3 & ->)%Hsp & H).
  apply matches_seq in H as (s4 & (w1 & t4 & Hw1 & Hrest4 & ->)%Hsem & H).
  apply matches_seq in H as (s5 & Hopt' & [Hb5 ->]%matches_boundary).
  simpl in *.
  assert (∃ suffix, (suffix = [] ∨ ordinal suffix) ∧ t1 = suffix ++ rest s2
                    ∧ caps s2 !! 1%nat = Some (Some [d])) as (suffix & Hsuf & -> & Hc2).
  { apply matches_opt in Hopt as [(suffix & t2 & Hord & Hrest2 & ->)%Hg2| ->].
    - exists suffix. simpl in *. by auto.
    - exists []. simpl. auto. }
  rewrite Hrest3, Hrest4.
  apply spells_sem in Hw1 as Hw1'. destruct Hw1' as (a & b & c & -> & Ha & Hb & Hc).
  apply matches_opt in Hopt' as [(w2 & post & Hw2 & Hrest5 & ->)%Hg3| ->]; simpl in *.
  - subst t4. exists d, suffix, ws, ([a; b; c] ++ w2), post.
    apply spells_ester in Hw2 as Hw2'.
    destruct Hw2' as (a' & b' & c' & d' & e' & -> & ? & ? & ? & ? & He).
    simpl in Hb5.
    pose proof (proj1 (boundary_after_word _ _ _ _ (nocase_r _ He)) Hb5) as Hafter.
    repeat split; try done.
    + right. by apply (spells_semester [a; b; c]).
    + rewrite list_lookup_insert_ne by done. exact Hc2.
  - exists d, suffix, ws, [a; b; c], t4.
    pose proof (proj1 (boundary_after_word _ _ _ _ (nocase_m _ Hc)) Hb5) as Hafter.
    repeat split; try done. by left.
Qed.

Lemma semester_complete before d suffix ws word post :
  Char.is_digit d = true →
  (suffix = [] ∨ ordinal suffix) →
  ws ≠ [] → blank ws →
  (spells "sem" word ∨ spells "semester" word) →
  (∀ x, head before = Some x → Char.is_word x = false) →
  no_word_after post →
  ∃ s', matches Knowledge.semesterRegex
          (start 3 before (d :: suffix ++ ws ++ word ++ post)) s'.
Proof.
  intros Hd Hsuf Hne Hws Hword Hbefore Hafter.
  unfold Knowledge.semesterRegex, Edu.semesterTail, Edu.digit, Edu.space, start.
  simpl Cat.
  pose proof (matches_group 1 _ _ (reads_class Char.is_digit)) as Hg1.
  pose proof (matches_group 2 _ _ reads_ordinal) as Hg2.
  pose proof (matches_group 3 _ _ (reads_word "ester")) as Hg3.
  pose proof reads_blanks as Hsp.
  pose proof (reads_word "sem") as Hsem.
  assert (∃ w1 w2, word = w1 ++ w2 ∧ spells "sem" w1
            ∧ (∀ sn cs0, ∃ s5,
                 matches (Opt (Group 3 (Word "ester")))
                   (MState (rev w1 ++ sn) (w2 ++ post) cs0) s5
                 ∧ at_word_boundary s5 = true)) as (w1 & w2 & -> & Hw1 & Htail).
  { destruct Hword as [Hw|Hw].
    - exists word, []. rewrite app_nil_r. repeat split; [done|].
      intros sn cs0. eexists. split; [apply matches_opt; by right|].
      apply spells_sem in Hw as (a & b & c & -> & _ & _ & Hc). simpl.
      by apply boundary_after_word; [apply nocase_m|].
    - apply spells_semester_inv in Hw as (w1 & w2 & -> & Hw1 & Hw2).
      exists w1, w2. repeat split; [done|].
      intros sn cs0. eexists. split.
      + apply matches_opt. left. apply Hg3. exists w2, post. simpl. eauto.
      + apply spells_ester in Hw2 as (a & b & c & d' & e & -> & _ & _ & _ & _ & He).
        simpl. by apply boundary_after_word; [apply nocase_r|]. }
  assert (∃ s2, matches
            (Opt (Group 2 (AnyOf [Word "st"; Word "nd"; Word "rd"; Word "th"])))
            (MState (d :: before) (suffix ++ ws ++ (w1 ++ w2) ++ post)
               (<[1%nat := Some [d]]> (replicate 4 None))) s2
          ∧ rest s2 = ws ++ (w1 ++ w2) ++ post) as (s2 & Hs2 & Hrest2).
  { destruct Hsuf as [->|Hord].
    - eexists. split; [apply matches_opt; by right|done].
    - eexists. split; [apply matches_opt; left; apply Hg2;
                       exists suffix, (ws ++ (w1 ++ w2) ++ post); eauto|done]. }
  destruct (Htail (rev ws ++ seen s2) (caps s2)) as (s5 & Hs5 & Hb5).
  exists s5.
  apply matches_seq. eexists. split.
  { apply matches_boundary. split; [|reflexivity].
    apply boundary_before_word; [by apply digit_is_word|done]. }
  apply matches_seq. eexists. split.
  { apply Hg1. exists [d], (suffix ++ ws ++ (w1 ++ w2) ++ post). simpl. eauto. }
  apply matches_seq. exists s2. split; [exact Hs2|].
  apply matches_seq. eexists. split.
  { apply Hsp. exists ws, ((w1 ++ w2) ++ post). eauto. }
  apply matches_seq. eexists. split.
  { apply Hsem. exists w1, (w2 ++ post). simpl. rewrite <- app_assoc. eauto. }
  simpl. apply matches_seq. exists s5. split; [exact Hs5|].
  by apply matches_boundary.
Qed.

End ReadFacts.

(** ** The first match in a subject *)

Module ExecFacts.

Import Regex RegexSem RegexFacts Shape.

Lemma split_earlier {A} (l1 l2 k1 k2 : list A) :
  l1 ++ l2 = k1 ++ k2 → (length l1 < length k1)%nat →
  ∃ v, v ≠ [] ∧ k1 = l1 ++ v ∧ l2 = v ++ k2.
Proof.
  revert k1. induction l1 as [|x l1 IH]; intros k1 Heq Hlen.
  - destruct k1 as [|y k1]; [simpl in Hlen; lia|]. by exists (y :: k1).
  - destruct k1 as [|y k1]; [simpl in Hlen; lia|].
    simpl in Heq, Hlen. injection Heq as -> Heq.
    destruct (IH k1 Heq) as (v & Hv & -> & ->); [lia|]. by exists v.
Qed.

Lemma exec_some r n q m :
  exec r n q = Some m →
  ∃ pre here s' l,
    Str.to_list q = pre ++ here
    ∧ rmatch r (start n (rev pre) here) = s' :: l
    ∧ m = finish (start n (rev pre) here) s'
    ∧ ∀ pre' here', Str.to_list q = pre' ++ here' → (length pre' < length pre)%nat →
                    rmatch r (start n (rev pre') here') = [].
Proof.
  unfold exec. intros (pre & here & s' & l & Hq & Hm & -> & Hearlier)%search_found.
  rewrite app_nil_r in *. exists pre, here, s', l. repeat split; try done.
  intros pre' here' Hq' Hlen. rewrite Hq in Hq'.
  destruct (split_earlier pre' here' pre here) as (v & Hv & -> & ->); [done..|].
  specialize (Hearlier pre' v eq_refl Hv). by rewrite app_nil_r in Hearlier.
Qed.

Lemma exec_first r n q pre here s' l :
  Str.to_list q = pre ++ here →
  rmatch r (start n (rev pre) here) = s' :: l →
  (∀ pre' here', Str.to_list q = pre' ++ here' → (length pre' < length pre)%nat →
                 rmatch r (start n (rev pre') here') = []) →
  exec r n q = Some (finish (start n (rev pre) here) s').
Proof.
  intros Hq Hm Hearlier. unfold exec. rewrite Hq.
  rewrite (search_finds r n pre [] here s' l); rewrite ?app_nil_r; try done.
  intros u v -> Hv. rewrite app_nil_r. apply Hearlier.
  - by rewrite Hq, <- app_assoc.
  - rewrite length_app. destruct v; [done|simpl; lia].
Qed.

Lemma exec_none r n q :
  exec r n q = None →
  ∀ pre here, Str.to_list q = pre ++ here → rmatch r (start n (rev pre) here) = [].
Proof.
  unfold exec. intros H pre here Hq.
  pose proof (search_none r n _ _ H pre here Hq) as Hnone.
  by rewrite app_nil_r in Hnone.
Qed.

(** *** Disjoint classes *)

Lemma letter_not_digit c : Char.is_letter c = true → Char.is_digit c = false.
Proof. by_code_unit c. Qed.

(** A character of white space at the start of a text is what [behead]
    takes off, and a word character is none. *)
Lemma code_is n c : Char.code c = n → c = ascii_of_N n.
Proof. intros <-. unfold Char.code. by rewrite ascii_N_embedding. Qed.

Lemma white_behead u t :
  white u → White.behead White.encodings (u ++ t) = Some t.
Proof.
  unfold white, White.encodings. rewrite !elem_of_cons, elem_of_nil. intros H.
  repeat destruct H as [H|H]; try done;
    destruct u as [|a [|b [|c [|d u]]]]; try discriminate H;
    injection H as H; intros;
    repeat match goal with
           | E : Char.code ?x = _ |- _ => apply code_is in E; subst x
           end;
    reflexivity.
Qed.

Lemma word_behead x X :
  Char.is_word x = true → White.behead White.encodings (x :: X) = None.
Proof. by_code_unit x. Qed.

Lemma blank_head x X : blank (x :: X) → Char.is_word x = false.
Proof.
  intros H. inversion H as [|u v Hu Hv Heq].
  destruct (Char.is_word x) eqn:Hx; [|done].
  pose proof (white_behead u v Hu) as Hb. rewrite Heq in Hb.
  by rewrite (word_behead x X Hx) in Hb.
Qed.

(** White space that ends before a word character is determined by the
    text. *)
Lemma blank_unique (W W' : list ascii) x X x' X' :
  blank W → blank W' → Char.is_word x = true → Char.is_word x' = true →
  W ++ x :: X = W' ++ x' :: X' → W = W' ∧ x :: X = x' :: X'.
Proof.
  intros HW. revert W'. induction HW as [|u v Hu Hv IH]; intros W' HW' Hx Hx' Heq.
  - destruct HW' as [|u' v' Hu' Hv']; [done|].
    simpl in Heq. pose proof (white_behead u' (v' ++ x' :: X') Hu') as Hb.
    rewrite app_assoc, <- Heq in Hb. by rewrite (word_behead x X Hx) in Hb.
  - pose proof (white_behead u (v ++ x :: X) Hu) as Hb. rewrite app_assoc in Hb.
    destruct HW' as [|u' v' Hu' Hv'].
    + simpl in Heq. rewrite Heq in Hb. by rewrite (word_behead x' X' Hx') in Hb.
    + pose proof (white_behead u' (v' ++ x' :: X') Hu') as Hb'.
      rewrite app_assoc, <- Heq, Hb in Hb'. injection Hb' as Htail.
      destruct (IH v' Hv' Hx Hx' Htail) as [-> Hrest]. split; [|done].
      f_equal. rewrite <- !app_assoc, Htail in Heq. by apply app_inv_tail in Heq.
Qed.

(** At one position there is one course code. *)
Lemma courseCode_unique q pre L W D post L' W' D' post' :
  CourseCodeAt q pre L W D post → CourseCodeAt q pre L' W' D' post' →
  L = L' ∧ D = D'.
Proof.
  intros (-> & HlenL & HL & HW & HlenD & HD & _) (Heq & HlenL' & HL' & HW' & HlenD' & HD' & _).
  apply app_inv_head in Heq.
  destruct D as [|d1 [|d2 [|d3 [|d4 D]]]]; simpl in HlenD; try lia.
  destruct D' as [|e1 [|e2 [|e3 [|e4 D']]]]; simpl in HlenD'; try lia.
  assert (Char.is_word d1 = true) as Hd1
    by (apply ReadFacts.digit_is_word; by inversion HD).
  assert (Char.is_word e1 = true) as He1
    by (apply ReadFacts.digit_is_word; by inversion HD').
  assert (L = L' → L = L' ∧ [d1; d2; d3] = [e1; e2; e3]) as Hsame.
  { intros <-. split; [done|]. apply app_inv_head in Heq. simpl in Heq.
    destruct (blank_unique W W' d1 _ e1 _ HW HW' Hd1 He1 Heq) as [_ Hd].
    by injection Hd as -> -> -> _. }
  destruct L as [|a [|b [|c [|x L]]]]; simpl in HlenL; try lia;
    destruct L' as [|a' [|b' [|c' [|x' L']]]]; simpl in HlenL'; try lia;
    simpl in Heq; injection Heq as -> -> Heq.
  - by apply Hsame.
  - exfalso. inversion HL' as [|? ? _ HL1]; inversion HL1 as [|? ? _ HL2];
      inversion HL2 as [|? ? Hc' _]; subst.
    destruct W as [|w W]; simpl in Heq; injection Heq as -> _.
    + apply letter_not_digit in Hc'. inversion HD; congruence.
    + apply ReadFacts.letter_is_word in Hc'. apply blank_head in HW. congruence.
  - exfalso. inversion HL as [|? ? _ HL1]; inversion HL1 as [|? ? _ HL2];
      inversion HL2 as [|? ? Hc _]; subst.
    destruct W' as [|w W']; simpl in Heq; injection Heq as -> _.
    + apply letter_not_digit in Hc. inversion HD'; congruence.
    + apply ReadFacts.letter_is_word in Hc. apply blank_head in HW'. congruence.
  - subst. by apply Hsame.
Qed.

Lemma courseCode_at q pre here :
  q = pre ++ here →
  ∀ s', matches Edu.courseCodeRegex (start 2 (rev pre) here) s' ↔
        ∃ L W D post,
          CourseCodeAt q pre L W D post ∧ here = L ++ W ++ D ++ post
          ∧ s' = MState (rev (L ++ W ++ D) ++ rev pre) post [None; Some L; Some D].
Proof.
  intros -> s'. rewrite ReadFacts.courseCode_matches. unfold CourseCodeAt, no_word_before.
  rewrite ReadFacts.head_rev_last.
  split.
  - intros (L & W & D & post & -> & HlenL & ? & ? & ? & ? & ? & ? & ->).
    exists L, W, D, post. repeat split; try done. lia.
  - intros (L & W & D & post & (Heq & HlenL & ? & ? & ? & ? & ? & ?) & -> & ->).
    exists L, W, D, post. repeat split; try done; lia.
Qed.

(** The match array of the first course code. *)
Lemma exec_courseCode query pre L W D post :
  CourseCodeAt (Str.to_list query) pre L W D post →
  FirstCourseCode (Str.to_list query) pre →
  ∃ whole,
    exec Edu.courseCodeRegex 2 query
    = Some [Some whole; Some (Str.of_list L); Some (Str.of_list D)].
Proof.
  intros Hat Hfirst. pose proof Hat as (Hq & _).
  assert (matches Edu.courseCodeRegex (start 2 (rev pre) (L ++ W ++ D ++ post))
            (MState (rev (L ++ W ++ D) ++ rev pre) post [None; Some L; Some D])) as Hm.
  { apply (courseCode_at _ _ _ Hq). exists L, W, D, post. done. }
  destruct (some_match _ _ _ Hm) as (s1 & l & Hr).
  apply first_match in Hr as Hm1.
  apply (courseCode_at _ _ _ Hq) in Hm1 as (L1 & W1 & D1 & post1 & Hat1 & _ & ->).
  destruct (courseCode_unique _ _ _ _ _ _ _ _ _ _ Hat Hat1) as [<- <-].
  rewrite (exec_first _ _ _ pre _ _ l Hq Hr).
  - unfold finish. simpl. eauto.
  - intros pre' here' Hq' Hlen. apply no_match. intros s' Hs'.
    apply (courseCode_at _ _ _ Hq') in Hs' as (L' & W' & D' & post' & Hat' & _).
    apply Hfirst in Hat'. lia.
Qed.

Lemma exec_courseCode_none query :
  (∀ pre L W D post, ¬ CourseCodeAt (Str.to_list query) pre L W D post) →
  exec Edu.courseCodeRegex 2 query = None.
Proof.
  intros Hnone. destruct (exec Edu.courseCodeRegex 2 query) as [m|] eqn:He; [|done].
  apply exec_some in He as (pre & here & s' & l & Hq & Hr & _).
  apply first_match in Hr.
  apply (courseCode_at _ _ _ Hq) in Hr as (L & W & D & post & Hat & _).
  by destruct (Hnone pre L W D post).
Qed.

End ExecFacts.

(** ** The first semester in a query *)

Module SemesterFacts.

Import Regex RegexSem RegexFacts ExecFacts Shape.

Lemma semester_at_sound q pre here s' :
  q = pre ++ here →
  matches Knowledge.semesterRegex (start 3 (rev pre) here) s' →
  ∃ d suffix ws word post,
    SemesterAt q pre d suffix ws word post ∧ caps s' !! 1%nat = Some (Some [d]).
Proof.
  intros -> (d & suffix & ws & word & post & -> & H)%ReadFacts.semester_sound.
  rewrite ReadFacts.head_rev_last in H.
  destruct H as (? & ? & ? & ? & ? & ? & ? & ?).
  exists d, suffix, ws, word, post. by unfold SemesterAt, no_word_before.
Qed.

Lemma semester_at_complete q pre d suffix ws word post :
  SemesterAt q pre d suffix ws word post →
  ∃ s', matches Knowledge.semesterRegex
          (start 3 (rev pre) (d :: suffix ++ ws ++ word ++ post)) s'.
Proof.
  intros (_ & ? & ? & ? & ? & ? & Hbefore & ?).
  apply ReadFacts.semester_complete; try done.
  by rewrite ReadFacts.head_rev_last.
Qed.

Lemma group_1 start0 s' u :
  caps s' !! 1%nat = Some (Some u) →
  group (finish start0 s') 1 = Str.of_list u.
Proof.
  intros Hc. unfold group, finish.
  change (List.map ?f ?l) with (f <$> l).
  rewrite list_lookup_fmap, list_lookup_insert_ne by done. by rewrite Hc.
Qed.

Lemma exec_semester query pre d suffix ws word post :
  SemesterAt (Str.to_list query) pre d suffix ws word post →
  FirstSemester (Str.to_list query) pre →
  ∃ m, exec Knowledge.semesterRegex 3 query = Some m
       ∧ group m 1 = Str.of_list [d].
Proof.
  intros Hat Hfirst. pose proof Hat as (Hq & _).
  destruct (semester_at_complete _ _ _ _ _ _ _ Hat) as (s0 & Hm).
  destruct (some_match _ _ _ Hm) as (s1 & l & Hr).
  apply first_match in Hr as Hm1.
  apply (semester_at_sound _ _ _ _ Hq) in Hm1
    as (d1 & suffix1 & ws1 & word1 & post1 & (Hq1 & _) & Hc).
  assert (d1 = d) as ->.
  { rewrite Hq in Hq1. apply app_inv_head in Hq1. by injection Hq1. }
  eexists. split.
  - apply (exec_first _ _ _ pre _ _ l Hq Hr).
    intros pre' here' Hq' Hlen. apply no_match. intros s' Hs'.
    apply (semester_at_sound _ _ _ _ Hq') in Hs'
      as (d' & suffix' & ws' & word' & post' & Hat' & _).
    apply Hfirst in Hat'. lia.
  - by apply group_1.
Qed.

Lemma exec_semester_some query m :
  exec Knowledge.semesterRegex 3 query = Some m →
  ∃ pre d suffix ws word post,
    SemesterAt (Str.to_list query) pre d suffix ws word post
    ∧ FirstSemester (Str.to_list query) pre
    ∧ group m 1 = Str.of_list [d].
Proof.
  intros (pre & here & s' & l & Hq & Hr & -> & Hearlier)%exec_some.
  apply first_match in Hr.
  apply (semester_at_sound _ _ _ _ Hq) in Hr
    as (d & suffix & ws & word & post & Hat & Hc).
  exists pre, d, suffix, ws, word, post.
  split; [done|]. split; [|by apply group_1].
  intros pre' d' suffix' ws' word' post' Hat'.
  destruct (decide (length pre' < length pre)%nat) as [Hlt|]; [exfalso|lia].
  pose proof Hat' as (Hq' & _).
  destruct (semester_at_complete _ _ _ _ _ _ _ Hat') as (s0 & Hm).
  apply some_match in Hm as (s1 & l1 & Hr1).
  by rewrite (Hearlier pre' _ Hq' Hlt) in Hr1.
Qed.

Lemma exec_semester_none query :
  exec Knowledge.semesterRegex 3 query = None →
  ∀ pre d suffix ws word post,
    ¬ SemesterAt (Str.to_list query) pre d suffix ws word post.
Proof.
  intros Hnone pre d suffix ws word post Hat. pose proof Hat as (Hq & _).
  destruct (semester_at_complete _ _ _ _ _ _ _ Hat) as (s0 & Hm).
  apply some_match in Hm as (s1 & l1 & Hr1).
  by rewrite (exec_none _ _ _ Hnone pre _ Hq) in Hr1.
Qed.

Lemma parseInt_digit d :
  N.to_nat (Knowledge.parseInt (Str.of_list [d])) = digit_value d.
Proof. unfold Knowledge.parseInt, digit_value, Knowledge.digitValue. simpl. f_equal. Qed.

End SemesterFacts.

(** C7 (as amended).  The semester extractor matches exactly when the
    query holds, between word boundaries, a digit 0 to 9, an optional
    ordinal suffix (st, nd, rd, th), white space and the word sem or
    semester, in any case; it returns the number of the digit of the first
    such place.  On [3rd semester] and on [3 sem] it returns 3. *)
Theorem extractSemester_spec {casing : Str.Casing} (query : string) :
  let semester := Knowledge.semester (Knowledge.extractResourceInfo query) in
  (is_Some semester ↔
     ∃ pre d suffix ws word post,
       Shape.SemesterAt (Str.to_list query) pre d suffix ws word post)
  ∧ (∀ n, semester = Some n ↔
          ∃ pre d suffix ws word post,
            Shape.SemesterAt (Str.to_list query) pre d suffix ws word post
            ∧ Shape.FirstSemester (Str.to_list query) pre
            ∧ n = Shape.digit_value d)
  ∧ Knowledge.semester (Knowledge.extractResourceInfo "3rd semester") = Some 3%nat
  ∧ Knowledge.semester (Knowledge.extractResourceInfo "3 sem") = Some 3%nat.
Proof.
  simpl.
  assert (∀ n, (λ m, N.to_nat (Knowledge.parseInt (Regex.group m 1)))
                 <$> Regex.exec Knowledge.semesterRegex 3 query = Some n ↔
               ∃ pre d suffix ws word post,
                 Shape.SemesterAt (Str.to_list query) pre d suffix ws word post
                 ∧ Shape.FirstSemester (Str.to_list query) pre
                 ∧ n = Shape.digit_value d) as Hvalue.
  { intros n. split.
    - destruct (Regex.exec _ _ _) as [m|] eqn:He; [|done]. simpl. intros [= <-].
      apply SemesterFacts.exec_semester_some in He
        as (pre & d & suffix & ws & word & post & Hat & Hfirst & ->).
      exists pre, d, suffix, ws, word, post.
      by rewrite SemesterFacts.parseInt_digit.
    - intros (pre & d & suffix & ws & word & post & Hat & Hfirst & ->).
      destruct (SemesterFacts.exec_semester _ _ _ _ _ _ _ Hat Hfirst) as (m & -> & Hg).
      simpl. by rewrite Hg, SemesterFacts.parseInt_digit. }
  split; [|split; [exact Hvalue|split; reflexivity]].
  split.
  - intros [n Hn]. apply Hvalue in Hn as (pre & d & suffix & ws & word & post & Hat & _).
    eauto 10.
  - intros (pre & d & suffix & ws & word & post & Hat).
    destruct (Regex.exec _ _ _) as [m|] eqn:He; [by eexists|].
    by destruct (SemesterFacts.exec_semester_none _ He _ _ _ _ _ _ Hat).
Qed.

(** C7 as stated fails: the digit may be 0.  [0th sem] is matched and yields
    the semester 0, although 0 is not a digit between 1 and 9. *)
Lemma semester_zero_is_matched :
  Knowledge.semester (Knowledge.extractResourceInfo "0th sem") = Some 0%nat
  ∧ ¬ (∀ query n,
         Knowledge.semester (Knowledge.extractResourceInfo query) = Some n →
         (1 ≤ n ≤ 9)%nat).
Proof.
  split; [reflexivity|].
  intros claim. specialize (claim "0th sem" 0%nat eq_refl). lia.
Qed.

(** ** Prompt composition *)

Module PromptFacts.

Import Js Server Str StrFacts.

Section Generic.

Context {casing : Str.Casing}.

Lemma upper_idem_char c : Char.toUpperCase (Char.toUpperCase c) = Char.toUpperCase c.
Proof. by_code_unit c. Qed.

Lemma toUpperCase_idem s : toUpperCase (toUpperCase s) = toUpperCase s.
Proof.
  unfold toUpperCase. induction s as [|c s IH]; simpl; [done|].
  by rewrite upper_idem_char, IH.
Qed.

Lemma extractCourseCode_some query code :
  Edu.extractCourseCode query = Some code →
  ∃ info, Edu.courseDatabase !! code = Some info ∧ Edu.getCourseInfo code = Some info.
Proof.
  unfold Edu.extractCourseCode, Edu.getCourseInfo.
  destruct (Regex.exec _ _ _) as [m|]; [|done].
  destruct (Edu.courseDatabase !! _) as [info|] eqn:Hdb; [|done].
  intros [= <-]. exists info. by rewrite toUpperCase_idem.
Qed.

(** The stages after the course stage only append. *)
Lemma semesterContext_appends q sm : ∃ extra, semesterContext q sm = sm +:+ extra.
Proof.
  unfold semesterContext.
  destruct (Regex.exec _ _ _) as [m|]; [|exists ""; by rewrite sapp_nil_r].
  destruct (Edu.getSemesterResources _); [eauto|exists ""; by rewrite sapp_nil_r].
Qed.

Lemma navigationContext_appends w q sm : ∃ extra, navigationContext w q sm = sm +:+ extra.
Proof.
  unfold navigationContext.
  destruct (Edu.isNavigationQuery q); [|exists ""; by rewrite sapp_nil_r].
  destruct (semesterContext_appends q
              (sm +:+ nl +:+ "The user is asking about navigating or finding resources on the LearnFlow platform. Be specific about where to find materials. "))
    as [extra ->].
  rewrite !sapp_assoc. eauto.
Qed.

Lemma knowledgeContext_appends numberText w q sm :
  ∃ extra, knowledgeContext numberText w q sm = sm +:+ extra.
Proof.
  unfold knowledgeContext.
  destruct (Knowledge.getQueryContext _ _ _); [exists ""; by rewrite sapp_nil_r|eauto].
Qed.

Lemma webSearchContext_appends w q sm : ∃ extra, webSearchContext w q sm = sm +:+ extra.
Proof.
  unfold webSearchContext.
  destruct (WebSearch.needsWebSearch q); [|exists ""; by rewrite sapp_nil_r].
  destruct (WebSearch.getWebSearchContext _ _); [exists ""; by rewrite sapp_nil_r|eauto].
Qed.

Lemma prompt_names_course numberText w query history code info :
  Edu.extractCourseCode query = Some code →
  Edu.courseDatabase !! code = Some info →
  occurs_in (Edu.name info) (fullPrompt numberText w query history).
Proof.
  intros Hcode Hdb.
  destruct (extractCourseCode_some _ _ Hcode) as (info' & Hdb' & Hinfo).
  assert (info' = info) as -> by congruence.
  unfold fullPrompt, composeSystemMessage, courseContext. rewrite Hcode, Hinfo.
  destruct (navigationContext_appends w query
              (persona +:+ nl +:+ "The user is asking about " +:+ code +:+ ": "
                 +:+ Edu.name info +:+ ". This course covers: "
                 +:+ join ", " (Edu.topics info) +:+ ". ")) as [e1 ->].
  destruct (knowledgeContext_appends numberText w query
              ((persona +:+ nl +:+ "The user is asking about " +:+ code +:+ ": "
                  +:+ Edu.name info +:+ ". This course covers: "
                  +:+ join ", " (Edu.topics info) +:+ ". ") +:+ e1)) as [e2 ->].
  destruct (webSearchContext_appends w query
              (((persona +:+ nl +:+ "The user is asking about " +:+ code +:+ ": "
                   +:+ Edu.name info +:+ ". This course covers: "
                   +:+ join ", " (Edu.topics info) +:+ ". ") +:+ e1) +:+ e2)) as [e3 ->].
  do 5 apply occurs_in_app_l.
  do 5 apply occurs_in_app_r. apply occurs_in_app_l, occurs_in_refl.
Qed.

End Generic.

End PromptFacts.

(** A test for [FirstCourseCode] on a given query. *)
Lemma first_courseCode_by_search (q pre : list ascii) :
  forallb (λ k, match Regex.rmatch Edu.courseCodeRegex
                        (RegexSem.start 2 (rev (take k q)) (drop k q)) with
                | [] => true
                | _ => false
                end)
          (seq 0 (length pre)) = true →
  Shape.FirstCourseCode q pre.
Proof.
  intros Hall pre' L' W' D' post' Hat'.
  destruct (decide (length pre ≤ length pre')%nat) as [|Hlt]; [done|exfalso].
  pose proof Hat' as (Hq' & _).
  rewrite forallb_forall in Hall.
  specialize (Hall (length pre')). rewrite in_seq in Hall.
  assert (take (length pre') q = pre') as Htake by (by rewrite Hq', take_app_length).
  assert (drop (length pre') q = L' ++ W' ++ D' ++ post') as Hdrop
    by (by rewrite Hq', drop_app_length).
  rewrite Htake, Hdrop in Hall.
  assert (RegexSem.matches Edu.courseCodeRegex
            (RegexSem.start 2 (rev pre') (L' ++ W' ++ D' ++ post'))
            (Regex.MState (rev (L' ++ W' ++ D') ++ rev pre') post'
               [None; Some L'; Some D'])) as Hm.
  { apply (ExecFacts.courseCode_at _ _ _ Hq'). by exists L', W', D', post'. }
  apply RegexFacts.some_match in Hm as (s1 & l & Hr). rewrite Hr in Hall.
  assert (false = true) as Hf by (apply Hall; lia). discriminate Hf.
Qed.

(** C3 (as amended).  When the first place of the query that holds a
    course code (two or three letters, optional white space, three digits,
    the whole between word boundaries) holds a code of the course table,
    the extractor returns that code in upper case without the white space,
    and the composed prompt contains the name of the course; when the code
    at that place is not in the table, the extractor returns no course. *)
Theorem extractCourseCode_first {casing : Str.Casing} (numberText : N → string) (w : Server.World)
    (query history : string) (pre L W D post : list ascii) :
  Shape.CourseCodeAt (Str.to_list query) pre L W D post →
  Shape.FirstCourseCode (Str.to_list query) pre →
  let code := Str.toUpperCase (Str.of_list (L ++ D)) in
  match Edu.courseDatabase !! code with
  | Some info =>
      Edu.extractCourseCode query = Some code
      ∧ Str.occurs_in (Edu.name info) (Server.fullPrompt numberText w query history)
  | None => Edu.extractCourseCode query = None
  end.
Proof.
  intros Hat Hfirst code.
  destruct (ExecFacts.exec_courseCode _ _ _ _ _ _ Hat Hfirst) as [whole He].
  assert (Edu.extractCourseCode query
          = if Edu.courseDatabase !! code is Some _ then Some code else None) as Hx.
  { unfold Edu.extractCourseCode. rewrite He. unfold Regex.group. simpl.
    by rewrite <- StrFacts.of_list_app. }
  destruct (Edu.courseDatabase !! code) as [info|] eqn:Hdb; [|done].
  split; [done|]. by apply PromptFacts.prompt_names_course with code.
Qed.

Lemma extractCourseCode_first_witness :
  let query := "see CHB 101." in
  let pre := Str.to_list "see " in
  Shape.CourseCodeAt (Str.to_list query) pre
    (Str.to_list "CHB") (Str.to_list " ") (Str.to_list "101") (Str.to_list ".")
  ∧ Shape.FirstCourseCode (Str.to_list query) pre
  ∧ Edu.extractCourseCode query = Some "CHB101".
Proof.
  intros query pre.
  assert (Shape.CourseCodeAt (Str.to_list query) pre
            (Str.to_list "CHB") (Str.to_list " ") (Str.to_list "101") (Str.to_list "."))
    as Hat.
  { unfold Shape.CourseCodeAt, Shape.all, Shape.no_word_before, Shape.no_word_after.
    split; [reflexivity|]. split; [by right|]. split; [repeat constructor|].
    split; [apply ReadFacts.blank_space|]. split; [reflexivity|].
    split; [repeat constructor|]. split; by intros c [= <-]. }
  assert (Shape.FirstCourseCode (Str.to_list query) pre) as Hfirst
    by (by apply first_courseCode_by_search).
  split; [exact Hat|]. split; [exact Hfirst|].
  exact (proj1 (extractCourseCode_first Sample.numberText Sample.offline query ""
                  pre _ _ _ _ Hat Hfirst)).
Defined.

(** C3 as stated fails: a query may contain a code of the course table
    and yet yield no course, when an unknown code comes first or when the
    known code is glued to a longer word. *)
Lemma known_code_not_always_found :
  Str.occurs_in "CHB101" "compare ABC123 with CHB101"
  ∧ Edu.extractCourseCode "compare ABC123 with CHB101" = None
  ∧ Str.occurs_in "CHB101" "XCHB101"
  ∧ Edu.extractCourseCode "XCHB101" = None
  ∧ ¬ (∀ query code,
         is_Some (Edu.courseDatabase !! code) →
         Str.occurs_in code query →
         Edu.extractCourseCode query = Some code).
Proof.
  assert (Str.occurs_in "CHB101" "compare ABC123 with CHB101") as H1
    by (by apply StrFacts.includes_spec).
  assert (Str.occurs_in "CHB101" "XCHB101") as H2
    by (by apply StrFacts.includes_spec).
  repeat split; try done.
  intros claim. specialize (claim "XCHB101" "CHB101").
  assert (is_Some (Edu.courseDatabase !! "CHB101")) as Hdb by (by eexists).
  specialize (claim Hdb H2). vm_compute in claim. discriminate claim.
Qed.

(** ** White space outside ASCII

    The no-break space is white space for the patterns and for [trim], as
    every white space of ECMAScript is. *)

Lemma no_break_space_in_patterns {casing : Str.Casing} :
  Knowledge.semester (Knowledge.extractResourceInfo ("3rd" +:+ Sample.nbsp +:+ "semester"))
  = Some 3%nat
  ∧ Knowledge.semester
      (Knowledge.extractResourceInfo ("1" +:+ Sample.nbsp +:+ "sem and 5 sem"))
    = Some 1%nat
  ∧ Edu.extractCourseCode ("CHB" +:+ Sample.nbsp +:+ "101 and ITC101") = Some "CHB101".
Proof. by vm_compute. Qed.

Lemma no_break_space_is_trimmed :
  Str.trim (Sample.nbsp +:+ "/scan src") = "/scan src"
  ∧ Server.isScanCommand (Str.trim (Sample.nbsp +:+ "/scan src")) = true.
Proof. by vm_compute. Qed.

(** * Further properties *)

(** ** The rate limiter *)

Module LimitFacts.

Import Server Traffic Limits.

Lemma fresh_not_elapsed now : (now + windowMs <? now) = false.
Proof. apply Z.ltb_ge. unfold windowMs. lia. Qed.

(** The verdict and the caller's new bucket depend on the caller's bucket
    only. *)
Lemma rateLimiter_local tokens tokens' userId now :
  tokens !! userId = tokens' !! userId →
  (rateLimiter tokens userId now).2 = (rateLimiter tokens' userId now).2
  ∧ (rateLimiter tokens userId now).1 !! userId
    = (rateLimiter tokens' userId now).1 !! userId.
Proof.
  intros H. unfold rateLimiter. rewrite H.
  destruct (maxRequests <=? _); simpl; by rewrite !lookup_insert_eq.
Qed.

Lemma rateLimiter_dom tokens userId now :
  dom (rateLimiter tokens userId now).1 = {[ userId ]} ∪ dom tokens.
Proof.
  unfold rateLimiter. destruct (maxRequests <=? _); simpl; by rewrite dom_insert_L.
Qed.

Lemma rateLimiter_within_limit tokens userId now :
  within_limit tokens → within_limit (rateLimiter tokens userId now).1.
Proof.
  intros Hinv u b. unfold rateLimiter.
  destruct (tokens !! userId) as [b0|] eqn:Hb0; simpl.
  - pose proof (Hinv _ _ Hb0) as Hb0'.
    destruct (resetTime b0 <? now); simpl.
    + destruct (decide (u = userId)) as [->|Hne].
      * rewrite lookup_insert_eq. intros [= <-]. simpl. unfold maxRequests. lia.
      * rewrite lookup_insert_ne by done. apply Hinv.
    + destruct (maxRequests <=? count b0) eqn:Hfull; simpl.
      * rewrite insert_id by done. apply Hinv.
      * apply Z.leb_gt in Hfull.
        destruct (decide (u = userId)) as [->|Hne].
        -- rewrite lookup_insert_eq. intros [= <-]. simpl. lia.
        -- rewrite lookup_insert_ne by done. apply Hinv.
  - rewrite fresh_not_elapsed. simpl.
    destruct (decide (u = userId)) as [->|Hne].
    + rewrite lookup_insert_eq. intros [= <-]. simpl. unfold maxRequests. lia.
    + rewrite lookup_insert_ne by done. apply Hinv.
Qed.

Lemma serve_cons tokens userId now later :
  serve tokens ((userId, now) :: later)
  = ((serve (rateLimiter tokens userId now).1 later).1,
     (userId, (rateLimiter tokens userId now).2)
       :: (serve (rateLimiter tokens userId now).1 later).2).
Proof.
  simpl. destruct (rateLimiter tokens userId now) as [tokens1 v]. simpl.
  by destruct (serve tokens1 later).
Qed.

Lemma serve_within_limit requests : ∀ tokens,
  within_limit tokens → within_limit (serve tokens requests).1.
Proof.
  induction requests as [|[userId now] later IH]; intros tokens Hinv; [done|].
  rewrite serve_cons. simpl. apply IH. by apply rateLimiter_within_limit.
Qed.

Lemma serve_local requests : ∀ tokens tokens' userId,
  tokens !! userId = tokens' !! userId →
  of_caller userId (serve tokens requests).2
  = of_caller userId (serve tokens' (own userId requests)).2
  ∧ (serve tokens requests).1 !! userId
    = (serve tokens' (own userId requests)).1 !! userId.
Proof.
  induction requests as [|[caller now] later IH]; intros tokens tokens' userId H; [done|].
  rewrite serve_cons. unfold own. simpl List.filter. fold (own userId later).
  cbn [fst snd]. rewrite RateFacts.of_caller_cons.
  destruct (String.eqb_spec caller userId) as [->|Hne].
  - rewrite serve_cons. cbn [fst snd]. rewrite RateFacts.of_caller_cons, String.eqb_refl.
    destruct (rateLimiter_local tokens tokens' userId now H) as [-> Hb].
    destruct (IH _ _ userId Hb) as [-> ->]. done.
  - apply IH. rewrite <- H. by apply RateFacts.other_caller.
Qed.

End LimitFacts.

(** X1.  A request is rejected exactly when the caller has a bucket whose
    window has not elapsed and whose counter has reached the limit. *)
Theorem rateLimiter_rejects_iff (tokens : gmap string Server.Bucket) (userId : string)
    (now : Z) :
  (∃ r, (Server.rateLimiter tokens userId now).2 = Server.Rejected r)
  ↔ ∃ bucket, tokens !! userId = Some bucket
              ∧ now ≤ Server.resetTime bucket
              ∧ Server.maxRequests ≤ Server.count bucket.
Proof.
  unfold Server.rateLimiter. split.
  - intros [r Hr]. destruct (tokens !! userId) as [b|]; simpl in Hr.
    + exists b. split; [done|].
      destruct (Server.resetTime b <? now) eqn:Hel; simpl in Hr; [done|].
      apply Z.ltb_ge in Hel. split; [done|].
      destruct (Server.maxRequests <=? Server.count b) eqn:Hfull; [|done].
      by apply Z.leb_le.
    + rewrite LimitFacts.fresh_not_elapsed in Hr. done.
  - intros (b & -> & Hnow & Hfull). simpl.
    assert ((Server.resetTime b <? now) = false) as -> by (apply Z.ltb_ge; lia).
    assert ((Server.maxRequests <=? Server.count b) = true) as -> by (by apply Z.leb_le).
    by eexists.
Qed.

(** X2.  From the empty token map of a fresh server, whatever requests are
    served, every bucket of the map counts at least one request and never
    more than the limit of ten. *)
Theorem served_buckets_within_limit (requests : list (string * Z)) :
  Limits.within_limit (Traffic.serve ∅ requests).1.
Proof. apply LimitFacts.serve_within_limit. by intros u b. Qed.

(** X3.  Buckets are never removed: after a sequence of requests the map
    holds a bucket for every caller it held one for and for every caller of
    the sequence, rejected or not, and for nobody else. *)
Theorem serve_keeps_every_caller (tokens : gmap string Server.Bucket)
    (requests : list (string * Z)) :
  dom (Traffic.serve tokens requests).1 = dom tokens ∪ Limits.callers requests.
Proof.
  revert tokens. induction requests as [|[userId now] later IH]; intros tokens.
  - unfold Limits.callers. simpl. by rewrite (right_id_L ∅ (∪)).
  - rewrite LimitFacts.serve_cons. simpl. rewrite IH, LimitFacts.rateLimiter_dom.
    unfold Limits.callers. simpl.
    by rewrite (comm_L (∪) {[userId]} (dom tokens)), (assoc_L (∪)).
Qed.

(** X4.  Callers do not affect each other: the verdicts that a caller gets
    in a sequence of requests, and the bucket it is left with, are those it
    would get if its own requests were the only ones. *)
Theorem verdicts_depend_on_own_requests (tokens : gmap string Server.Bucket)
    (requests : list (string * Z)) (userId : string) :
  Traffic.of_caller userId (Traffic.serve tokens requests).2
  = List.map snd (Traffic.serve tokens (Limits.own userId requests)).2
  ∧ (Traffic.serve tokens requests).1 !! userId
    = (Traffic.serve tokens (Limits.own userId requests)).1 !! userId.
Proof.
  destruct (LimitFacts.serve_local requests tokens tokens userId eq_refl) as [-> ->].
  split; [|done].
  assert (∀ l tk, Forall (λ p : string * Z, p.1 = userId) l →
            Traffic.of_caller userId (Traffic.serve tk l).2
            = List.map snd (Traffic.serve tk l).2) as Hown.
  { induction l as [|[c t] l IH]; intros tk Hall; [done|].
    apply Forall_cons in Hall as [Hc Hl]. simpl in Hc. subst c.
    rewrite LimitFacts.serve_cons. simpl.
    rewrite RateFacts.of_caller_cons, String.eqb_refl. f_equal. by apply IH. }
  apply Hown. unfold Limits.own. apply Forall_forall. intros p Hp.
  apply list_elem_of_In, filter_In in Hp as [_ Hp]. by apply String.eqb_eq.
Qed.

(** ** The handler *)

Module HandlerFacts.

Import Js Server WellFormed Str StrFacts.

Section Generic.

Context {casing : Str.Casing}.

Lemma findUser_latest reversed msg :
  findUser reversed = Ok (Some msg) →
  ∃ newer older, reversed = newer ++ msg :: older
                 ∧ isUser msg ∧ Forall (λ m, ¬ isUser m) newer.
Proof.
  induction reversed as [|m l IH]; simpl; [done|].
  destruct (get m "role") as [r|] eqn:Hr; simpl; [|done].
  destruct (is_text r "user") eqn:Hu.
  - intros [= ->]. apply ValidationFacts.is_text_spec in Hu as ->.
    exists [], l. by repeat split.
  - intros (newer & older & -> & Hmsg & Hnewer)%IH.
    exists (m :: newer), older. repeat split; [done|].
    apply Forall_cons. split; [|done].
    unfold isUser. rewrite Hr. intros [= ->]. simpl in Hu. discriminate Hu.
Qed.

Lemma validate_invalid reqBody r :
  validate reqBody = Ok (Invalid r) →
  ∃ error, r = {| status := 400; body := ErrorBody error |}.
Proof.
  unfold validate. destruct (get reqBody "messages") as [messages|]; simpl; [|done].
  destruct messages as [| |b|n|s|items|f]; try (intros [= <-]; eauto).
  destruct (findUser (rev items)) as [[m|]|]; simpl; [done| |done].
  intros [= <-]; eauto.
Qed.

Lemma answer_ok w userContent prompt :
  ∃ m, answer w userContent prompt = json (MessageBody m) ∧ role m = "assistant".
Proof.
  unfold answer. destruct (generate w prompt); eauto.
Qed.

(** What [chat] answers, case by case. *)
Lemma chat_cases numberText w reqBody :
  (∃ error, chat numberText w reqBody = {| status := 400; body := ErrorBody error |})
  ∨ (∃ m, chat numberText w reqBody = json (MessageBody m) ∧ role m = "assistant")
  ∨ chat numberText w reqBody = internalError.
Proof.
  unfold chat, handle.
  destruct (validate reqBody) as [[r|items msg]|] eqn:Hv; simpl; [| |by right; right].
  - left. by apply validate_invalid in Hv.
  - right. destruct (get msg "content") as [c|]; simpl; [|by right].
    destruct c as [| |b|n|text|l|f]; try (by right).
    destruct (isScanCommand (trim text)).
    + left. destruct (ScanFacts.scanCommand_ok w (trim text)) as [t ->]. eauto.
    + destruct (promptFor numberText w items (trim text)) as [prompt|]; simpl;
        [|by right].
      left. apply answer_ok.
Qed.

(** *** Splitting and joining *)

Lemma split_aux_cons sep cur s : ∃ p ps, split_aux sep cur s = p :: ps.
Proof.
  revert cur. induction s as [|c t IH]; intros cur; simpl; [eauto|].
  destruct (Char.code c =? Char.code sep)%N; eauto.
Qed.

Lemma join_cons sep p q qs : join sep (p :: q :: qs) = p +:+ sep +:+ join sep (q :: qs).
Proof. reflexivity. Qed.

Lemma join_split_aux sep cur s :
  join (String sep "") (split_aux sep cur s) = of_list (rev cur) +:+ s.
Proof.
  revert cur. induction s as [|c t IH]; intros cur; simpl split_aux.
  - simpl. by rewrite sapp_nil_r.
  - destruct (Char.code c =? Char.code sep)%N eqn:Hc.
    + apply code_eqb in Hc as ->.
      pose proof (IH []) as Ht.
      destruct (split_aux_cons sep [] t) as (p & ps & Hp). rewrite Hp in Ht |- *.
      rewrite join_cons, Ht. simpl rev. simpl of_list. by rewrite sapp_nil_l.
    + rewrite IH. simpl rev. rewrite of_list_app, sapp_assoc. simpl of_list.
      by rewrite sapp_cons, sapp_nil_l.
Qed.

(** Joining the pieces of a split with the separator gives the text back. *)
Lemma join_split sep s : join (String sep "") (split sep s) = s.
Proof. unfold split. by rewrite join_split_aux. Qed.

Lemma includes_tail c s k : includes (String c s) k = false → includes s k = false.
Proof. simpl. by intros [_ H]%orb_false_iff. Qed.

Lemma includes_head c s sep :
  includes (String c s) (String sep "") = false → (Char.code c =? Char.code sep)%N = false.
Proof.
  simpl. intros [H _]%orb_false_iff. rewrite andb_true_r in H.
  by rewrite N.eqb_sym.
Qed.

Lemma split_aux_upto sep cur s t :
  includes s (String sep "") = false →
  split_aux sep cur (s +:+ String sep t) = (of_list (rev cur) +:+ s) :: split_aux sep [] t.
Proof.
  revert cur. induction s as [|c s IH]; intros cur Hno.
  - rewrite sapp_nil_l, sapp_nil_r. simpl. by rewrite N.eqb_refl.
  - rewrite sapp_cons. simpl split_aux. rewrite (includes_head _ _ _ Hno).
    rewrite IH by (by apply includes_tail in Hno). f_equal.
    simpl rev. rewrite of_list_app, sapp_assoc. simpl of_list.
    by rewrite sapp_cons, sapp_nil_l.
Qed.

Lemma split_aux_whole sep cur s :
  includes s (String sep "") = false →
  split_aux sep cur s = [of_list (rev cur) +:+ s].
Proof.
  revert cur. induction s as [|c s IH]; intros cur Hno.
  - simpl. by rewrite sapp_nil_r.
  - simpl split_aux. rewrite (includes_head _ _ _ Hno).
    rewrite IH by (by apply includes_tail in Hno). f_equal.
    simpl rev. rewrite of_list_app, sapp_assoc. simpl of_list.
    by rewrite sapp_cons, sapp_nil_l.
Qed.

Lemma occurs_in_join sep x l : x ∈ l → occurs_in x (join sep l).
Proof.
  induction l as [|p ps IH]; [by intros ?%elem_of_nil|].
  intros [->|Hin]%elem_of_cons.
  - destruct ps as [|q qs]; [apply occurs_in_refl|].
    rewrite join_cons. apply occurs_in_app_l, occurs_in_refl.
  - destruct ps as [|q qs]; [by apply elem_of_nil in Hin|].
    rewrite join_cons. by apply occurs_in_app_r, occurs_in_app_r, IH.
Qed.

End Generic.

End HandlerFacts.

(** X5.  Every answer of [POST /api/chat] has one of four shapes: 400 with
    an error only, 429 with an error and a reset time, 200 with a message
    of role assistant, or 500 with an error and a message of role
    assistant. *)
Theorem postChat_answers {casing : Str.Casing} (numberText : N → string) (w : Server.World)
    (tokens : gmap string Server.Bucket) (now : Z) (req : Server.Request) :
  let r := (Server.postChat numberText w tokens now req).2 in
  match Server.body r with
  | Server.ErrorBody _ => Server.status r = 400
  | Server.RateLimitBody _ _ => Server.status r = 429
  | Server.MessageBody m => Server.status r = 200 ∧ Server.role m = "assistant"
  | Server.FailureBody _ m => Server.status r = 500 ∧ Server.role m = "assistant"
  end.
Proof.
  unfold Server.postChat.
  destruct (Server.rateLimiter _ _ _) as [tokens' [|r]] eqn:Hlimit; simpl.
  - destruct (HandlerFacts.chat_cases numberText w (Server.req_body req))
      as [[e ->]|[(m & -> & Hm)| ->]]; simpl; done.
  - unfold Server.rateLimiter in Hlimit.
    destruct (Server.maxRequests <=? _); [|done].
    by injection Hlimit as _ <-.
Qed.

(** X6.  The message that validation hands on is the last user message:
    the list is the messages before it, the message, and messages after it
    of which none has the role user. *)
Theorem validate_finds_last_user_message (reqBody : Js.value) (items : list Js.value)
    (msg : Js.value) :
  Server.validate reqBody = Js.Ok (Server.Valid items msg) →
  Js.get reqBody "messages" = Js.Ok (Js.Arr items)
  ∧ ∃ before after,
      items = before ++ msg :: after
      ∧ WellFormed.isUser msg
      ∧ Forall (λ m, ¬ WellFormed.isUser m) after.
Proof.
  unfold Server.validate.
  destruct (Js.get reqBody "messages") as [messages|]; simpl; [|done].
  destruct messages as [| |b|n|s|l|f]; try done.
  destruct (Server.findUser (rev l)) as [[m|]|] eqn:Hf; simpl; [|done|done].
  intros [= -> ->]. split; [done|].
  apply HandlerFacts.findUser_latest in Hf as (newer & older & Hrev & Hmsg & Hnewer).
  exists (rev older), (rev newer). split; [|split; [done|]].
  - rewrite <- (rev_involutive items), Hrev, rev_app_distr. simpl.
    by rewrite <- app_assoc.
  - by apply Forall_rev.
Qed.

Lemma validate_finds_last_user_message_witness :
  let items := [Sample.userMessage "first"; Sample.userMessage "second";
                Js.Obj [("role", Js.Text "assistant"); ("content", Js.Text "reply")]] in
  Server.validate (Sample.chatBody items)
  = Js.Ok (Server.Valid items (Sample.userMessage "second"))
  ∧ ∃ before after,
      items = before ++ Sample.userMessage "second" :: after
      ∧ WellFormed.isUser (Sample.userMessage "second")
      ∧ Forall (λ m, ¬ WellFormed.isUser m) after.
Proof.
  intros items. split; [reflexivity|].
  exact (proj2 (validate_finds_last_user_message (Sample.chatBody items) items
                  (Sample.userMessage "second") eq_refl)).
Defined.

(** X7.  When the content of the last user message is not a string (it is
    missing, [null], a number, a list or an object), the request is
    answered with HTTP 500, not with 400. *)
Theorem user_message_without_text_answers_500 {casing : Str.Casing} (numberText : N → string) (w : Server.World)
    (reqBody : Js.value) (items : list Js.value) (msg : Js.value) :
  Server.validate reqBody = Js.Ok (Server.Valid items msg) →
  (∀ text, Js.get msg "content" ≠ Js.Ok (Js.Text text)) →
  Server.chat numberText w reqBody = Server.internalError
  ∧ Server.status Server.internalError = 500.
Proof.
  intros Hv Hc. split; [|done]. unfold Server.chat, Server.handle. rewrite Hv. simpl.
  destruct (Js.get msg "content") as [c|]; simpl; [|done].
  destruct c as [| |b|n|text|l|f]; try done. by destruct (Hc text).
Qed.

Lemma user_message_without_text_answers_500_witness :
  Server.chat Sample.numberText Sample.offline
    (Sample.chatBody [Js.Obj [("role", Js.Text "user")]])
  = Server.internalError
  ∧ Server.status Server.internalError = 500.
Proof.
  apply (user_message_without_text_answers_500 Sample.numberText Sample.offline
           (Sample.chatBody [Js.Obj [("role", Js.Text "user")]])
           [Js.Obj [("role", Js.Text "user")]] (Js.Obj [("role", Js.Text "user")])).
  - reflexivity.
  - intros text. simpl. discriminate.
Defined.

(** X8.  The prompt takes its conversation history from the last five
    messages only: messages before them do not change the prompt. *)
Theorem prompt_reads_last_five {casing : Str.Casing} (numberText : N → string) (w : Server.World)
    (older recent : list Js.value) (userContent : string) :
  (5 ≤ length recent)%nat →
  Server.promptFor numberText w (older ++ recent) userContent
  = Server.promptFor numberText w recent userContent.
Proof.
  intros Hlen. unfold Server.promptFor, Server.conversationHistory.
  rewrite length_app.
  replace (length older + length recent - 5)%nat
    with (length older + (length recent - 5))%nat by lia.
  by rewrite drop_app_add.
Qed.

Lemma prompt_reads_last_five_witness :
  let recent := [Sample.userMessage "a"; Sample.userMessage "b"; Sample.userMessage "c";
                 Sample.userMessage "d"; Sample.userMessage "e"] in
  Server.promptFor Sample.numberText Sample.offline
    ([Sample.userMessage "long ago"; Js.Null] ++ recent) "e"
  = Server.promptFor Sample.numberText Sample.offline recent "e".
Proof.
  intros recent.
  apply (prompt_reads_last_five Sample.numberText Sample.offline
           [Sample.userMessage "long ago"; Js.Null] recent "e").
  simpl. lia.
Defined.

(** X9.  Every prompt begins with the persona line and ends with the
    general instructions, the conversation history and the user's query,
    in that order and unaltered; the contexts come in between. *)
Theorem prompt_frame {casing : Str.Casing} (numberText : N → string) (w : Server.World)
    (userContent history : string) :
  ∃ context,
    Server.fullPrompt numberText w userContent history
    = Server.persona +:+ context +:+ Server.generalInstructions
        +:+ Str.nl +:+ Str.nl +:+ "Conversation history:" +:+ Str.nl +:+ history
        +:+ Str.nl +:+ Str.nl +:+ "User query: " +:+ userContent.
Proof.
  unfold Server.fullPrompt, Server.composeSystemMessage.
  assert (∃ e0, Server.courseContext userContent Server.persona = Server.persona +:+ e0)
    as [e0 ->].
  { unfold Server.courseContext.
    destruct (Edu.extractCourseCode userContent) as [code|];
      [|exists ""; by rewrite StrFacts.sapp_nil_r].
    destruct (Edu.getCourseInfo code); [eauto|exists ""; by rewrite StrFacts.sapp_nil_r]. }
  destruct (PromptFacts.navigationContext_appends w userContent (Server.persona +:+ e0))
    as [e1 ->].
  destruct (PromptFacts.knowledgeContext_appends numberText w userContent
              ((Server.persona +:+ e0) +:+ e1)) as [e2 ->].
  destruct (PromptFacts.webSearchContext_appends w userContent
              (((Server.persona +:+ e0) +:+ e1) +:+ e2)) as [e3 ->].
  exists (e0 +:+ e1 +:+ e2 +:+ e3). by rewrite !StrFacts.sapp_assoc.
Qed.

(** X10.  The path handed to the scanner is the text after the first
    space of the command, further spaces included; a command without a
    space gives the empty path. *)
Theorem commandPath_after_first_space (command path : string) :
  Str.includes command " " = false →
  Server.commandPath (command +:+ " " +:+ path) = path
  ∧ Server.commandPath command = "".
Proof.
  intros Hno. unfold Server.commandPath, Str.split. split.
  - change (" " +:+ path) with (String " " path).
    rewrite (HandlerFacts.split_aux_upto _ _ _ _ Hno).
    destruct (HandlerFacts.split_aux_cons " " [] path) as (p & ps & Hp).
    pose proof (HandlerFacts.join_split " " path) as Hj. unfold Str.split in Hj.
    rewrite Hp in Hj |- *. simpl length. simpl drop. done.
  - by rewrite (HandlerFacts.split_aux_whole _ _ _ Hno).
Qed.

Lemma commandPath_after_first_space_witness :
  Server.commandPath ("/scan" +:+ " " +:+ "src/my components") = "src/my components"
  ∧ Server.commandPath "/scan" = "".
Proof.
  apply (commandPath_after_first_space "/scan" "src/my components"). reflexivity.
Defined.

(** X11.  When a scan finds files and their analysis by the generation
    endpoint fails, the answer is still HTTP 200 and lists the path of
    every file found. *)
Theorem scan_lists_files_when_analysis_fails (w : Server.World) (userContent : string)
    (scanResults : Server.ScanResults) (file : Server.ScannedFile) :
  Server.scanProjectFiles w (Server.commandPath userContent)
  = Server.ScanReturns scanResults →
  Server.success scanResults = true →
  file ∈ Server.files scanResults →
  Gateway.Failure (Server.gemini w (Server.fileAnalysisPrompt scanResults)) →
  ∃ text,
    Server.scanCommand w userContent
    = Server.json (Server.MessageBody (Server.assistant text))
    ∧ Str.occurs_in "File analysis failed. Here's a list of files found:" text
    ∧ Str.occurs_in ("- " +:+ Server.path file) text.
Proof.
  intros Hscan Hok Hin Hfail. unfold Server.scanCommand. rewrite Hscan, Hok.
  destruct (Server.files scanResults) as [|f fs] eqn:Hfiles;
    [by apply elem_of_nil in Hin|].
  simpl length. simpl (0 <? _)%nat. cbv iota.
  rewrite (FallbackFacts.generate_fails _ _ Hfail). simpl.
  eexists. split; [reflexivity|]. split.
  - do 2 apply StrFacts.occurs_in_app_r.
    apply StrFacts.occurs_in_app_l, StrFacts.occurs_in_refl.
  - do 4 apply StrFacts.occurs_in_app_r.
    unfold Server.fileListing. rewrite Hfiles.
    destruct (HandlerFacts.occurs_in_join Str.nl
                ("- " +:+ Server.path file +:+ " (" +:+ Str.of_nat (Server.lines file)
                   +:+ " lines)")
                (List.map (λ file, "- " +:+ Server.path file +:+ " ("
                                     +:+ Str.of_nat (Server.lines file) +:+ " lines)")
                   (f :: fs))) as (pre & post & ->).
    { apply list_elem_of_In, in_map_iff. exists file. split; [done|].
      by apply list_elem_of_In. }
    exists pre, (" (" +:+ Str.of_nat (Server.lines file) +:+ " lines)" +:+ post).
    by rewrite !StrFacts.sapp_assoc.
Qed.

Lemma scan_lists_files_when_analysis_fails_witness :
  ∃ text,
    Server.scanCommand Examples.scanFindsFiles "/scan src"
    = Server.json (Server.MessageBody (Server.assistant text))
    ∧ Str.occurs_in "File analysis failed. Here's a list of files found:" text
    ∧ Str.occurs_in ("- " +:+ Server.path Examples.mainFile) text.
Proof.
  apply (scan_lists_files_when_analysis_fails Examples.scanFindsFiles "/scan src"
           Examples.found Examples.mainFile).
  - reflexivity.
  - reflexivity.
  - apply list_elem_of_further, list_elem_of_here.
  - constructor.
Defined.

(** ** Letter case *)

Module CaseFacts.

Import Str StrFacts.

Section Generic.

Context {casing : Str.Casing}.

Lemma in_all c : In c Units.all.
Proof.
  unfold Units.all. rewrite <- (ascii_nat_embedding c).
  apply in_map, in_seq. pose proof (nat_ascii_bounded c). lia.
Qed.

Lemma for_all_pairs_spec P :
  Units.for_all_pairs P = true → ∀ a c, P a c = true.
Proof.
  unfold Units.for_all_pairs. intros H a c.
  rewrite forallb_forall in H. specialize (H a (in_all a)).
  rewrite forallb_forall in H. exact (H c (in_all c)).
Qed.

(** Code units that are equal under the [i] flag have the same lower
    case. *)
Lemma nocase_lower a c :
  Char.eq_nocase a c = true → Char.toLowerCase c = Char.toLowerCase a.
Proof.
  intros H.
  pose proof (for_all_pairs_spec
    (λ a c, implb (Char.eq_nocase a c)
              (Char.code (Char.toLowerCase c) =? Char.code (Char.toLowerCase a))%N)
    ltac:(vm_compute; reflexivity) a c) as Hall.
  simpl in Hall. rewrite H in Hall. simpl in Hall. by apply code_eqb in Hall.
Qed.

Lemma upper_lower_char c : Char.toUpperCase (Char.toLowerCase c) = Char.toUpperCase c.
Proof. by_code_unit c. Qed.

Lemma upper_lower s : toUpperCase (map Char.toLowerCase s) = toUpperCase s.
Proof.
  unfold toUpperCase. induction s as [|c s IH]; simpl; [done|].
  by rewrite upper_lower_char, IH.
Qed.

Lemma of_to_list s : of_list (to_list s) = s.
Proof. apply String.string_of_list_ascii_of_string. Qed.

Lemma plain_of_list u :
  plain (of_list u) = forallb (λ c, (Char.code c <? 128)%N) u.
Proof. unfold plain, of_list. by rewrite String.list_ascii_of_string_of_list_ascii. Qed.

(** Under the [i] flag, only 7-bit code units equal a 7-bit one. *)
Lemma nocase_plain a c :
  Char.eq_nocase a c = true → (Char.code a <? 128)%N = true →
  (Char.code c <? 128)%N = true.
Proof.
  intros H Ha.
  pose proof (for_all_pairs_spec
    (λ a c, implb (Char.eq_nocase a c && (Char.code a <? 128)%N)
              (Char.code c <? 128)%N)
    ltac:(vm_compute; reflexivity) a c) as Hall.
  simpl in Hall. by rewrite H, Ha in Hall.
Qed.

(** A text that spells a 7-bit word is 7-bit text, with the lower case of
    that word. *)
Lemma spelled_plain w u : plain w = true → Shape.spells w u → plain (of_list u) = true.
Proof.
  rewrite plain_of_list. unfold Shape.spells, plain. fold (to_list w).
  generalize (to_list w). intros l Hl H.
  induction H as [|a c l u Hac _ IH]; [done|].
  simpl in *. apply andb_true_iff in Hl as [Ha Hl].
  by rewrite (nocase_plain _ _ Hac Ha), IH.
Qed.

Lemma spelled_lower w u :
  Shape.spells w u → map Char.toLowerCase (of_list u) = map Char.toLowerCase w.
Proof.
  unfold Shape.spells. rewrite <- (of_to_list w) at 2.
  generalize (to_list w). intros l H.
  induction H as [|a c l u Hac _ IH]; [done|].
  simpl. by rewrite (nocase_lower _ _ Hac), IH.
Qed.

Lemma lower_spells w u :
  plain w = true → Shape.spells w u → toLowerCase (of_list u) = map Char.toLowerCase w.
Proof.
  intros Hw Hu. rewrite lower_plain by (by apply spelled_plain with w).
  by apply spelled_lower.
Qed.

(** A 7-bit word spelled in a text occurs in the lower-cased text. *)
Lemma mentions_spelled before w u after :
  plain w = true → Shape.spells w u →
  occurs_in (map Char.toLowerCase w) (toLowerCase (of_list (before ++ u ++ after))).
Proof.
  intros Hw Hu. rewrite !of_list_app.
  destruct (lower_keeps (of_list before) (of_list u) (of_list after)
              (spelled_plain _ _ Hw Hu)) as (before' & after' & ->).
  rewrite (spelled_lower _ _ Hu). by exists before', after'.
Qed.

End Generic.

End CaseFacts.

(** ** Courses, semesters and navigation *)

Module EduFacts.

Import Str StrFacts.

Lemma courseDatabase_keys code :
  is_Some (Edu.courseDatabase !! code) ↔ code ∈ ["CHB101"; "ITC101"; "CSE201"].
Proof.
  rewrite <- elem_of_dom. unfold Edu.courseDatabase.
  rewrite dom_list_to_map_L, elem_of_list_to_set. done.
Qed.

Lemma semesterResources_keys semester :
  is_Some (Edu.semesterResources !! semester) ↔ semester ∈ ["1"; "2"; "3"; "4"].
Proof.
  rewrite <- elem_of_dom. unfold Edu.semesterResources.
  rewrite dom_list_to_map_L, elem_of_list_to_set. done.
Qed.

(** A fold whose steps append to the text. *)
Lemma foldl_appends {A} (g : string → A → string) (l : list A) :
  (∀ acc x, ∃ e, g acc x = acc +:+ e) →
  ∀ init, ∃ e, foldl g init l = init +:+ e.
Proof.
  intros Hg. induction l as [|x l IH]; intros init; simpl.
  - exists "". by rewrite sapp_nil_r.
  - destruct (Hg init x) as [e1 ->]. destruct (IH (init +:+ e1)) as [e2 ->].
    exists (e1 +:+ e2). by rewrite sapp_assoc.
Qed.

Lemma foldl_mentions {A} (g : string → A → string) (l : list A) (x : A) (k : string) :
  (∀ acc y, ∃ e, g acc y = acc +:+ e) →
  x ∈ l →
  (∀ acc, occurs_in k (g acc x)) →
  ∀ init, occurs_in k (foldl g init l).
Proof.
  intros Hg Hin Hk. induction l as [|y l IH]; intros init; simpl.
  - by apply elem_of_nil in Hin.
  - apply elem_of_cons in Hin as [<-|Hin].
    + destruct (foldl_appends g l Hg (g init x)) as [e ->].
      by apply occurs_in_app_l.
    + by apply IH.
Qed.

Lemma foldl_keeps {A} (g : string → A → string) (l : list A) (k : string) :
  (∀ acc y, ∃ e, g acc y = acc +:+ e) →
  ∀ init, occurs_in k init → occurs_in k (foldl g init l).
Proof.
  intros Hg init Hk. destruct (foldl_appends g l Hg init) as [e ->].
  by apply occurs_in_app_l.
Qed.

Ltac appends_or_not :=
  intros acc y;
  match goal with
  | |- ∃ e, (if ?c then _ else _) = _ =>
      destruct c; [eexists; reflexivity|exists ""; by rewrite sapp_nil_r]
  end.

End EduFacts.

(** X12.  The course-code extractor returns only the three codes of the
    course table, and the course lookup succeeds on whatever it returns. *)
Theorem extractCourseCode_in_table (query code : string) :
  Edu.extractCourseCode query = Some code →
  code ∈ ["CHB101"; "ITC101"; "CSE201"] ∧ is_Some (Edu.getCourseInfo code).
Proof.
  intros (info & Hdb & Hinfo)%PromptFacts.extractCourseCode_some. split.
  - apply EduFacts.courseDatabase_keys. by exists info.
  - by exists info.
Qed.

Lemma extractCourseCode_in_table_witness :
  Edu.extractCourseCode "notes for cse 201 please" = Some "CSE201"
  ∧ "CSE201" ∈ ["CHB101"; "ITC101"; "CSE201"]
  ∧ is_Some (Edu.getCourseInfo "CSE201").
Proof.
  assert (Edu.extractCourseCode "notes for cse 201 please" = Some "CSE201") as H
    by (vm_compute; reflexivity).
  split; [exact H|].
  exact (extractCourseCode_in_table "notes for cse 201 please" "CSE201" H).
Defined.

(** X13.  The course lookup does not depend on the letter case of the
    code: two codes that differ at most in the case of their letters A to
    Z find the same course, or both find none. *)
Theorem getCourseInfo_ignores_case (code1 code2 : string) :
  Str.map Char.toLowerCase code1 = Str.map Char.toLowerCase code2 →
  Edu.getCourseInfo code1 = Edu.getCourseInfo code2.
Proof.
  intros H. unfold Edu.getCourseInfo.
  by rewrite <- (CaseFacts.upper_lower code1), H, CaseFacts.upper_lower.
Qed.

Lemma getCourseInfo_ignores_case_witness :
  Edu.getCourseInfo "chb101" = Edu.getCourseInfo "ChB101".
Proof.
  apply (getCourseInfo_ignores_case "chb101" "ChB101"). reflexivity.
Defined.

(** X14.  When the query names a page, a department (by code or by name)
    or a resource of the navigation table, in any letter case, the
    navigation text gives the path of that entry. *)
Theorem navigation_info_gives_paths {casing : Str.Casing} (websiteNavigation : Edu.Nav.table) (query : string) :
  let info := Edu.getWebsiteNavigationInfo websiteNavigation query in
  (∀ page, page ∈ Edu.Nav.pages websiteNavigation →
     Vocabulary.mentions query (Str.toLowerCase (Edu.Nav.page_name page)) →
     Str.occurs_in (Edu.Nav.page_path page) info)
  ∧ (∀ dept, dept ∈ Edu.Nav.departments websiteNavigation →
       Vocabulary.mentions query (Str.toLowerCase (Edu.Nav.dept_code dept))
       ∨ Vocabulary.mentions query (Str.toLowerCase (Edu.Nav.dept_name dept)) →
       Str.occurs_in (Edu.Nav.dept_path dept) info)
  ∧ (∀ resource, resource ∈ Edu.Nav.resources websiteNavigation →
       Vocabulary.mentions query (Str.toLowerCase (Edu.Nav.res_name resource)) →
       Str.occurs_in (Edu.Nav.res_path resource) info).
Proof.
  unfold Edu.getWebsiteNavigationInfo, Vocabulary.mentions. cbv zeta.
  split; [|split].
  - intros page Hin Hm%StrFacts.includes_spec.
    do 3 (apply EduFacts.foldl_keeps; [EduFacts.appends_or_not|]).
    apply (EduFacts.foldl_mentions _ _ page); [EduFacts.appends_or_not|done|].
    intros acc. rewrite Hm.
    do 5 apply StrFacts.occurs_in_app_r.
    apply StrFacts.occurs_in_app_l, StrFacts.occurs_in_refl.
  - intros dept Hin Hm.
    do 2 (apply EduFacts.foldl_keeps; [EduFacts.appends_or_not|]).
    apply (EduFacts.foldl_mentions _ _ dept); [EduFacts.appends_or_not|done|].
    intros acc.
    assert (Str.includes (Str.toLowerCase query) (Str.toLowerCase (Edu.Nav.dept_code dept))
            || Str.includes (Str.toLowerCase query)
                 (Str.toLowerCase (Edu.Nav.dept_name dept)) = true) as ->.
    { apply orb_true_iff. by rewrite !StrFacts.includes_spec. }
    do 7 apply StrFacts.occurs_in_app_r.
    apply StrFacts.occurs_in_app_l, StrFacts.occurs_in_refl.
  - intros resource Hin Hm%StrFacts.includes_spec.
    apply (EduFacts.foldl_mentions _ _ resource); [EduFacts.appends_or_not|done|].
    intros acc. rewrite Hm.
    do 5 apply StrFacts.occurs_in_app_r.
    apply StrFacts.occurs_in_app_l, StrFacts.occurs_in_refl.
Qed.

(** X15.  When the first semester named in the query spells out the word
    semester, in any letter case, and its digit is a key of the semester
    table, the prompt gives the resource path of that semester. *)
Theorem semester_path_in_prompt {casing : Str.Casing} (numberText : N → string) (w : Server.World)
    (query history : string) (pre : list ascii) (d : ascii)
    (suffix ws word post : list ascii) (info : Edu.SemesterInfo) :
  Shape.SemesterAt (Str.to_list query) pre d suffix ws word post →
  Shape.FirstSemester (Str.to_list query) pre →
  Shape.spells "semester" word →
  Edu.semesterResources !! Str.of_list [d] = Some info →
  Str.occurs_in (Edu.path info) (Server.fullPrompt numberText w query history).
Proof.
  intros Hat Hfirst Hword Hinfo.
  assert (Edu.isNavigationQuery query = true) as Hnav.
  { unfold Edu.isNavigationQuery. apply StrFacts.existsb_includes.
    exists "semester". split; [repeat constructor|].
    destruct Hat as (Hq & _).
    rewrite <- (CaseFacts.of_to_list query), Hq.
    assert (pre ++ d :: suffix ++ ws ++ word ++ post
            = (pre ++ d :: suffix ++ ws) ++ word ++ post) as ->
      by (rewrite <- app_assoc; simpl; by rewrite <- app_assoc).
    by apply (CaseFacts.mentions_spelled _ "semester"). }
  destruct (SemesterFacts.exec_semester _ _ _ _ _ _ _ Hat Hfirst) as (m & Hexec & Hg).
  unfold Server.fullPrompt, Server.composeSystemMessage. cbv zeta.
  unfold Server.navigationContext. rewrite Hnav. cbv zeta.
  unfold Server.semesterContext at 1. rewrite Hexec. cbv zeta.
  rewrite Hg. unfold Edu.getSemesterResources. rewrite Hinfo.
  match goal with
  | |- context [Server.knowledgeContext numberText w query ?sm] =>
      destruct (PromptFacts.knowledgeContext_appends numberText w query sm) as [e2 ->];
      destruct (PromptFacts.webSearchContext_appends w query (sm +:+ e2)) as [e3 ->]
  end.
  do 5 apply StrFacts.occurs_in_app_l.
  do 5 apply StrFacts.occurs_in_app_r.
  apply StrFacts.occurs_in_app_l, StrFacts.occurs_in_refl.
Qed.

Lemma semester_path_in_prompt_witness :
  let query := "2nd Semester notes please" in
  Shape.SemesterAt (Str.to_list query) [] "2" (Str.to_list "nd") (Str.to_list " ")
    (Str.to_list "Semester") (Str.to_list " notes please")
  ∧ Shape.FirstSemester (Str.to_list query) []
  ∧ Str.occurs_in "/resources/semester2"
      (Server.fullPrompt Sample.numberText Sample.offline query "").
Proof.
  intros query.
  assert (Shape.SemesterAt (Str.to_list query) [] "2" (Str.to_list "nd") (Str.to_list " ")
            (Str.to_list "Semester") (Str.to_list " notes please")) as Hat.
  { unfold Shape.SemesterAt, Shape.all, Shape.no_word_before, Shape.no_word_after.
    split; [reflexivity|]. split; [reflexivity|].
    split; [right; right; left; repeat constructor|].
    split; [discriminate|]. split; [apply ReadFacts.blank_space|].
    split; [right; repeat constructor|].
    split; [intros c [=]|by intros c [= <-]]. }
  assert (Shape.FirstSemester (Str.to_list query) []) as Hfirst.
  { intros pre' d' suffix' ws' word' post' _. simpl. lia. }
  split; [exact Hat|]. split; [exact Hfirst|].
  apply (semester_path_in_prompt Sample.numberText Sample.offline query "" [] "2"
           (Str.to_list "nd") (Str.to_list " ") (Str.to_list "Semester")
           (Str.to_list " notes please")
           {| Edu.courses := ["CHB102"; "ITC102"; "MTH102"; "PHY102"; "ENG102"];
              Edu.path := "/resources/semester2" |} Hat Hfirst).
  - repeat constructor.
  - vm_compute. reflexivity.
Defined.

(** ** The resource index *)

Module IndexFacts.

Import Str StrFacts Knowledge Matching.

Section Generic.

Context {casing : Str.Casing}.

Lemma filter_sublist {A} (p : A → bool) (l : list A) : sublist (List.filter p l) l.
Proof.
  induction l as [|x l IH]; simpl; [constructor|].
  destruct (p x); by constructor.
Qed.

Lemma filter_complete {A} (p : A → bool) (l : list A) x :
  x ∈ l → p x = true → x ∈ List.filter p l.
Proof. rewrite !list_elem_of_In. intros ??. by apply filter_In. Qed.

Lemma fileMatches_complete q file :
  FileMatch q file → fileMatches (toLowerCase q) file = true.
Proof.
  unfold fileMatches, FileMatch. rewrite orb_true_iff, !includes_spec. tauto.
Qed.

Lemma lower_nil : toLowerCase "" = "".
Proof. by rewrite lower_plain. Qed.

Lemma occurs_in_empty k : occurs_in k "" → k = "".
Proof.
  intros ([|c pre] & post & H); [|rewrite sapp_cons in H; discriminate].
  rewrite sapp_nil_l in H. destruct k; [done|]. rewrite sapp_cons in H. discriminate.
Qed.

Lemma textMatches_complete q field t :
  q ≠ "" → field = Some t → occurs_in (toLowerCase q) (toLowerCase t) →
  textMatches (toLowerCase q) field = true.
Proof.
  intros Hq -> Hin. destruct t as [|c t]; simpl.
  - rewrite lower_nil in Hin. by apply occurs_in_empty, lower_nonempty in Hin.
  - by apply includes_spec in Hin.
Qed.

Lemma downloadMatches_complete q item :
  q ≠ "" → DownloadMatch q item → downloadMatches (toLowerCase q) item = true.
Proof.
  unfold downloadMatches, DownloadMatch. rewrite !orb_true_iff.
  intros Hq [(t & Ht & Hin)|[(t & Ht & Hin)|(ts & tag & Hts & Htag & Hin)]].
  - left; left. by apply textMatches_complete with t.
  - left; right. by apply textMatches_complete with t.
  - right. unfold tagsMatch. rewrite Hts. apply existsb_exists.
    exists tag. by rewrite <- list_elem_of_In, includes_spec.
Qed.

Lemma includes_empty s : includes s "" = true.
Proof. by destruct s. Qed.

Lemma filter_all {A} (p : A → bool) (l : list A) :
  (∀ x, p x = true) → List.filter p l = l.
Proof.
  intros Hp. induction l as [|x l IH]; simpl; [done|]. by rewrite Hp, IH.
Qed.

End Generic.

End IndexFacts.

(** X16.  A resource search misses nothing and keeps the order of the
    index: every file of a category whose name or path matches the query is
    returned in that category, every download that matches a query other
    than the empty one is returned, and each returned list is its category
    with entries left out. *)
Theorem searchResources_complete {casing : Str.Casing} (db : Knowledge.ResourceDatabase) (query : string) :
  let r := Knowledge.searchResources db query in
  (∀ f, f ∈ Knowledge.assignments db → Matching.FileMatch query f →
        f ∈ Knowledge.r_assignments r)
  ∧ (∀ f, f ∈ Knowledge.notes db → Matching.FileMatch query f →
          f ∈ Knowledge.r_notes r)
  ∧ (∀ f, f ∈ Knowledge.labManuals db → Matching.FileMatch query f →
          f ∈ Knowledge.r_labManuals r)
  ∧ (query ≠ "" →
     ∀ d, d ∈ Knowledge.downloads db → Matching.DownloadMatch query d →
          d ∈ Knowledge.r_downloads r)
  ∧ sublist (Knowledge.r_assignments r) (Knowledge.assignments db)
  ∧ sublist (Knowledge.r_notes r) (Knowledge.notes db)
  ∧ sublist (Knowledge.r_labManuals r) (Knowledge.labManuals db)
  ∧ sublist (Knowledge.r_downloads r) (Knowledge.downloads db).
Proof.
  simpl.
  split; [intros f Hin Hm|split; [intros f Hin Hm|split; [intros f Hin Hm|split]]].
  - by apply IndexFacts.filter_complete, IndexFacts.fileMatches_complete.
  - by apply IndexFacts.filter_complete, IndexFacts.fileMatches_complete.
  - by apply IndexFacts.filter_complete, IndexFacts.fileMatches_complete.
  - intros Hq d Hin Hm.
    by apply IndexFacts.filter_complete, IndexFacts.downloadMatches_complete.
  - repeat split; apply IndexFacts.filter_sublist.
Qed.

(** X17.  The empty query matches every file: a search for it returns the
    three file categories of the index whole. *)
Theorem empty_query_finds_every_file {casing : Str.Casing} (db : Knowledge.ResourceDatabase) :
  let r := Knowledge.searchResources db "" in
  Knowledge.r_assignments r = Knowledge.assignments db
  ∧ Knowledge.r_notes r = Knowledge.notes db
  ∧ Knowledge.r_labManuals r = Knowledge.labManuals db
  ∧ (length (Knowledge.assignments db) + length (Knowledge.notes db)
     + length (Knowledge.labManuals db) ≤ Knowledge.totalResults r)%nat.
Proof.
  simpl. rewrite IndexFacts.lower_nil.
  assert (∀ l, List.filter (Knowledge.fileMatches "") l = l) as Hall.
  { intros l. apply IndexFacts.filter_all. intros f. unfold Knowledge.fileMatches.
    by rewrite IndexFacts.includes_empty. }
  rewrite !Hall. repeat split. lia.
Qed.

(** ** The kind of resource asked for *)

Module ResourceTypeFacts.

Import Regex RegexSem RegexFacts ReadFacts Shape Str StrFacts.

Lemma reads_words w ws :
  reads (AnyOf (List.map Word (w :: ws))) (λ u, ∃ w', w' ∈ w :: ws ∧ spells w' u).
Proof.
  revert w. induction ws as [|w2 ws IH]; intros w.
  - eapply reads_ext; [|apply reads_word]. intros u. split.
    + intros H. exists w. split; [apply list_elem_of_here|done].
    + by intros (w' & ->%list_elem_of_singleton & H).
  - eapply reads_ext;
      [|apply (reads_alt (Word w) (AnyOf (List.map Word (w2 :: ws))) (spells w)
                 (λ u, ∃ w', w' ∈ w2 :: ws ∧ spells w' u)); [apply reads_word|apply IH]].
    intros u. split.
    + intros [H|(w' & Hin & H)].
      * exists w. split; [apply list_elem_of_here|done].
      * exists w'. split; [by apply list_elem_of_further|done].
    + intros (w' & [->|Hin]%elem_of_cons & H); [by left|right; eauto].
Qed.

Lemma reads_resourceType :
  reads (AnyOf [Word "pdf"; Word "notes"; Word "manual";
                Word "assignment"; Word "lab"; Word "download"])
        (λ u, ∃ w, w ∈ Kinds.resourceTypes ∧ spells w u).
Proof. apply (reads_words "pdf" ["notes"; "manual"; "assignment"; "lab"; "download"]). Qed.

(** Where the expression matches, its group holds one of the words. *)
Lemma resourceType_sound before after s' :
  matches Knowledge.resourceTypeRegex (start 1 before after) s' →
  ∃ w u post, w ∈ Kinds.resourceTypes ∧ spells w u
              ∧ after = u ++ post ∧ caps s' !! 1%nat = Some (Some u).
Proof.
  unfold Knowledge.resourceTypeRegex. simpl Cat.
  intros (s1 & [_ ->]%matches_boundary & (s2 & Hg & [_ ->]%matches_boundary)%matches_seq)
           %matches_seq.
  apply (matches_group 1 _ _ reads_resourceType) in Hg
    as (u & t & (w & Hin & Hw) & Hrest & ->).
  exists w, u, t. by repeat split.
Qed.

Lemma lower_keyword w :
  w ∈ Kinds.resourceTypes → plain w = true ∧ map Char.toLowerCase w = w.
Proof.
  unfold Kinds.resourceTypes. rewrite !elem_of_cons, elem_of_nil.
  intros [->|[->|[->|[->|[->|[->|[]]]]]]]; by split.
Qed.

End ResourceTypeFacts.

(** X18.  The kind of resource extracted from a query is always one of
    the six words pdf, notes, manual, assignment, lab and download, in
    lower case, and that word occurs in the lower-cased query. *)
Theorem resourceType_is_a_keyword {casing : Str.Casing} (query type : string) :
  Knowledge.resourceType (Knowledge.extractResourceInfo query) = Some type →
  type ∈ Kinds.resourceTypes ∧ Vocabulary.mentions query type.
Proof.
  simpl. destruct (Regex.exec _ _ _) as [m|] eqn:He; [|done]. simpl. intros [= <-].
  apply ExecFacts.exec_some in He as (pre & here & s' & l & Hq & Hr & -> & _).
  apply RegexFacts.first_match, ResourceTypeFacts.resourceType_sound in Hr
    as (w & u & post & Hin & Hw & -> & Hc).
  destruct (ResourceTypeFacts.lower_keyword _ Hin) as [Hplain Hlower].
  rewrite (SemesterFacts.group_1 _ _ _ Hc), (CaseFacts.lower_spells _ _ Hplain Hw).
  rewrite Hlower. split; [done|].
  unfold Vocabulary.mentions.
  rewrite <- (CaseFacts.of_to_list query), Hq, <- Hlower.
  by apply CaseFacts.mentions_spelled.
Qed.

Lemma resourceType_is_a_keyword_witness :
  Knowledge.resourceType (Knowledge.extractResourceInfo "any Lab manual for unit 2?")
  = Some "lab"
  ∧ "lab" ∈ Kinds.resourceTypes
  ∧ Vocabulary.mentions "any Lab manual for unit 2?" "lab".
Proof.
  assert (Knowledge.resourceType (Knowledge.extractResourceInfo "any Lab manual for unit 2?")
          = Some "lab") as H by (vm_compute; reflexivity).
  split; [exact H|].
  exact (resourceType_is_a_keyword "any Lab manual for unit 2?" "lab" H).
Defined.

(** ** Filling the resource index *)

Module ScanDirFacts.

Import Knowledge Indexing.

Section Generic.

Context {casing : Str.Casing}.

Section Paths.

Variable join : string → string → string.
Variable relative : string → string.
Variable extname : string → string.

Local Abbreviation scan := (scanDirectory join relative extname).

(** The scan of a directory, entry by entry. *)
Lemma scan_nil extensions dir :
  scan extensions dir (Directory (Some [])) = [].
Proof. reflexivity. Qed.

Lemma scan_cons extensions dir entry accessed l :
  scan extensions dir (Directory (Some ((entry, accessed) :: l)))
  = match accessed with
    | None => []
    | Some (Directory _ as sub) => scan extensions (join dir entry) sub
    | Some (File size mtime) =>
        if listed extensions (Str.toLowerCase (extname entry))
        then [fileInfo join relative extname dir entry size mtime]
        else []
    end ++ scan extensions dir (Directory (Some l)).
Proof. reflexivity. Qed.

Lemma scan_app extensions dir l1 l2 :
  scan extensions dir (Directory (Some (l1 ++ l2)))
  = scan extensions dir (Directory (Some l1)) ++ scan extensions dir (Directory (Some l2)).
Proof.
  induction l1 as [|[entry accessed] l1 IH]; [done|].
  rewrite <- app_comm_cons, !scan_cons, IH. by rewrite app_assoc.
Qed.

Lemma listed_spec extensions e : listed extensions e = true ↔ e ∈ extensions.
Proof.
  unfold listed. rewrite existsb_exists, list_elem_of_In. split.
  - by intros (x & Hin & ->%String.eqb_eq).
  - intros Hin. exists e. by rewrite String.eqb_refl.
Qed.

(** Induction on what is at a path: a property of every node holds of a
    directory when it holds of what its entries give access to. *)
Lemma node_ind' (P : Node → Prop) :
  (∀ size mtime, P (File size mtime)) →
  P (Directory None) →
  (∀ entries,
     Forall (λ entry, match entry.2 with Some n => P n | None => True end) entries →
     P (Directory (Some entries))) →
  ∀ node, P node.
Proof.
  intros Hfile Hunreadable Hdir. fix IH 1.
  intros [size mtime|[entries|]]; [apply Hfile| |apply Hunreadable].
  apply Hdir. revert entries. fix IHl 1.
  intros [|[entry [n|]] l]; constructor; simpl; [apply IH|apply IHl|exact I|apply IHl].
Qed.

(** Every file of a scan passed the test on its extension. *)
Lemma scan_listed extensions node :
  ∀ dir f, f ∈ scan extensions dir node →
    extension f ∈ extensions
    ∧ extension f = Str.toLowerCase (extname (name f)).
Proof.
  induction node as [size mtime| |entries IH] using node_ind'; intros dir f;
    [by intros ?%elem_of_nil|by intros ?%elem_of_nil|].
  induction IH as [|[entry accessed] l Hentry _ IHl]; [by intros ?%elem_of_nil|].
  rewrite scan_cons. intros [Hin|Hin]%elem_of_app; [|by apply IHl].
  destruct accessed as [[size mtime|listing]|]; [| |by apply elem_of_nil in Hin].
  - destruct (listed extensions _) eqn:Hl; [|by apply elem_of_nil in Hin].
    apply list_elem_of_singleton in Hin as ->. simpl. split; [|done].
    by apply listed_spec.
  - by apply (Hentry (join dir entry)).
Qed.

End Paths.

End Generic.

End ScanDirFacts.

(** X19.  Every file that a directory scan returns, at any depth, has an
    extension of the list that was asked for; the extension recorded is
    the lower-cased extension of the file's name. *)
Theorem scanDirectory_keeps_listed_extensions {casing : Str.Casing} (join : string → string → string)
    (relative extname : string → string) (extensions : list string) (dir : string)
    (node : Indexing.Node) (f : Knowledge.FileInfo) :
  f ∈ Indexing.scanDirectory join relative extname extensions dir node →
  Knowledge.extension f ∈ extensions
  ∧ Knowledge.extension f = Str.toLowerCase (extname (Knowledge.name f)).
Proof. apply ScanDirFacts.scan_listed. Qed.

Lemma scanDirectory_keeps_listed_extensions_witness :
  Examples.unit1Notes
  ∈ Indexing.scanDirectory Examples.joinPath Examples.relativePath Examples.extName
      Indexing.INDEXABLE_EXTENSIONS "resources/notes" Examples.notesTree
  ∧ Knowledge.extension Examples.unit1Notes ∈ Indexing.INDEXABLE_EXTENSIONS
  ∧ Knowledge.extension Examples.unit1Notes
    = Str.toLowerCase (Examples.extName (Knowledge.name Examples.unit1Notes)).
Proof.
  assert (Examples.unit1Notes
          ∈ Indexing.scanDirectory Examples.joinPath Examples.relativePath Examples.extName
              Indexing.INDEXABLE_EXTENSIONS "resources/notes" Examples.notesTree) as H.
  { vm_compute. apply list_elem_of_here. }
  split; [exact H|].
  exact (scanDirectory_keeps_listed_extensions _ _ _ _ _ _ _ H).
Defined.

(** X20.  A scan goes on past what it cannot read: an entry that cannot be
    accessed, or a sub-directory that cannot be listed, adds nothing and
    takes nothing away from what the other entries of the directory give,
    before it and after it. *)
Theorem scanDirectory_skips_unreadable {casing : Str.Casing} (join : string → string → string)
    (relative extname : string → string) (extensions : list string) (dir : string)
    (before after : list (string * option Indexing.Node)) (entry : string) :
  let scan := Indexing.scanDirectory join relative extname extensions dir in
  scan (Indexing.Directory (Some (before ++ (entry, None) :: after)))
  = scan (Indexing.Directory (Some before)) ++ scan (Indexing.Directory (Some after))
  ∧ scan (Indexing.Directory
            (Some (before ++ (entry, Some (Indexing.Directory None)) :: after)))
    = scan (Indexing.Directory (Some before)) ++ scan (Indexing.Directory (Some after)).
Proof.
  intros scan. unfold scan.
  split; by rewrite ScanDirFacts.scan_app, ScanDirFacts.scan_cons.
Qed.

(** X21.  After the initialisation, a resource search returns only files
    with one of the indexable extensions, whatever is on the disk: files
    with other extensions are never offered. *)
Theorem search_offers_indexable_files_only {casing : Str.Casing} (join : string → string → string)
    (relative extname : string → string) (root : string) (disk : Indexing.Disk)
    (query : string) (f : Knowledge.FileInfo) :
  let db := Indexing.initializeResourceDatabase join relative extname root disk in
  let r := Knowledge.searchResources db query in
  f ∈ Knowledge.r_assignments r ∨ f ∈ Knowledge.r_notes r ∨ f ∈ Knowledge.r_labManuals r →
  Knowledge.extension f ∈ Indexing.INDEXABLE_EXTENSIONS.
Proof.
  intros db r Hf.
  assert (∀ kept dir found,
            f ∈ Indexing.scanOr join relative extname kept dir found →
            f ∈ kept ∨ Knowledge.extension f ∈ Indexing.INDEXABLE_EXTENSIONS) as Hscan.
  { intros kept dir [node|]; simpl; [|by left].
    intros H. right. by apply (ScanDirFacts.scan_listed _ _ _ _ _ _ _ H). }
  assert (f ∈ Knowledge.assignments db ∨ f ∈ Knowledge.notes db
          ∨ f ∈ Knowledge.labManuals db) as Hdb.
  { destruct Hf as [H|[H|H]]; apply SearchResultFacts.filtered in H as [H _]; auto. }
  unfold db, Indexing.initializeResourceDatabase, Indexing.scanResourceDirectory in Hdb.
  destruct (Indexing.resourcesExists disk); simpl in Hdb.
  - destruct (Indexing.downloadsJson disk) as [[loaded|]|]; simpl in Hdb;
      destruct Hdb as [H|[H|H]]; apply Hscan in H as [H|H]; try done;
      by apply elem_of_nil in H.
  - destruct Hdb as [H|[H|H]]; by apply elem_of_nil in H.
Qed.

Lemma search_offers_indexable_files_only_witness :
  let db := Indexing.initializeResourceDatabase Examples.joinPath Examples.relativePath
              Examples.extName "" Examples.notesOnly in
  Examples.unit1Notes ∈ Knowledge.r_notes (Knowledge.searchResources db "unit1")
  ∧ Knowledge.extension Examples.unit1Notes ∈ Indexing.INDEXABLE_EXTENSIONS.
Proof.
  intros db.
  assert (Examples.unit1Notes ∈ Knowledge.r_notes (Knowledge.searchResources db "unit1"))
    as H.
  { vm_compute. apply list_elem_of_here. }
  split; [exact H|].
  exact (search_offers_indexable_files_only Examples.joinPath Examples.relativePath
           Examples.extName "" Examples.notesOnly "unit1" Examples.unit1Notes
           (or_intror (or_introl H))).
Defined.

(** ** Web search *)

Module WebFacts.

Import Str StrFacts WebSearch.

Section Generic.

Context {casing : Str.Casing}.

Lemma simulated_three query : length (simulateWebSearchResults query) = 3%nat.
Proof.
  unfold simulateWebSearchResults.
  repeat match goal with |- context [if ?c then _ else _] => destruct c end; reflexivity.
Qed.

Lemma format_step acc (x : nat * Result) :
  ∃ e,
    (let '(index, result) := x in
     acc +:+ of_nat (index + 1) +:+ ". [" +:+ Knowledge.text (title result) +:+ "]("
       +:+ Knowledge.text (link result) +:+ ")" +:+ nl +:+ "   "
       +:+ Knowledge.text (snippet result) +:+ nl +:+ nl) = acc +:+ e.
Proof. destruct x as [index result]. eauto. Qed.

(** The text of a non-empty list of results is not empty and gives the
    link of each of its results. *)
Lemma format_nonempty r results :
  ∃ c text, formatWebSearchResults (r :: results) = String c text.
Proof.
  unfold formatWebSearchResults.
  match goal with
  | |- context [foldl ?g ?init ?l] =>
      destruct (EduFacts.foldl_appends g l format_step init) as [e ->]
  end.
  rewrite !sapp_assoc. unfold nl. rewrite sapp_cons. eauto.
Qed.

Lemma format_gives_link r l results :
  r ∈ results → link r = Some l → occurs_in l (formatWebSearchResults results).
Proof.
  intros Hin Hl. unfold formatWebSearchResults.
  destruct results as [|r0 rs]; [by apply elem_of_nil in Hin|].
  apply list_elem_of_lookup in Hin as [i Hi].
  apply (EduFacts.foldl_mentions _ _ (i, r)); [apply format_step| |].
  - apply list_elem_of_lookup. exists i. by rewrite list_lookup_imap, Hi.
  - intros acc. rewrite Hl. simpl Knowledge.text.
    do 5 apply occurs_in_app_r. apply occurs_in_app_l, occurs_in_refl.
Qed.

End Generic.

End WebFacts.

(** X22.  A web search hands on at most three results: the first three
    items of the answer of the search provider, or nothing when the answer
    has no items; when no search key is configured, or when the request to
    the search provider fails, it hands on exactly three canned results. *)
Theorem performWebSearch_at_most_three {casing : Str.Casing} (env : WebSearch.provider) (query : string) :
  (length (WebSearch.performWebSearch env query) ≤ 3)%nat
  ∧ (WebSearch.has_api_key env = false ∨ WebSearch.answer env query = WebSearch.ProviderFails →
     WebSearch.performWebSearch env query = WebSearch.simulateWebSearchResults query
     ∧ length (WebSearch.performWebSearch env query) = 3%nat)
  ∧ (∀ items,
       WebSearch.has_api_key env = true →
       WebSearch.answer env query = WebSearch.ProviderItems items →
       WebSearch.performWebSearch env query = take 3 (default [] items)).
Proof.
  unfold WebSearch.performWebSearch. split; [|split].
  - destruct (WebSearch.has_api_key env); simpl;
      [|by rewrite WebFacts.simulated_three].
    destruct (WebSearch.answer env query) as [|[[|r items]|]]; simpl; try lia.
    + by rewrite WebFacts.simulated_three.
    + rewrite length_take. lia.
  - intros [->| ->]; simpl.
    + by rewrite WebFacts.simulated_three.
    + destruct (WebSearch.has_api_key env); simpl; by rewrite WebFacts.simulated_three.
  - intros items -> ->. simpl. by destruct items as [[|r items]|].
Qed.

Lemma performWebSearch_at_most_three_witness :
  WebSearch.has_api_key Sample.noSearchKey = false
  ∧ length (WebSearch.performWebSearch Sample.noSearchKey "calculus help") = 3%nat
  ∧ WebSearch.performWebSearch (Sample.answering [Sample.page "1"]) "calculus help"
    = [Sample.page "1"]
  ∧ WebSearch.performWebSearch
      (Sample.answering [Sample.page "1"; Sample.page "2"; Sample.page "3"; Sample.page "4"])
      "calculus help"
    = [Sample.page "1"; Sample.page "2"; Sample.page "3"].
Proof.
  split; [reflexivity|]. split; [|split].
  - exact (proj2 (proj1 (proj2 (performWebSearch_at_most_three Sample.noSearchKey
                                  "calculus help"))
                    (or_introl eq_refl))).
  - exact (proj2 (proj2 (performWebSearch_at_most_three
                           (Sample.answering [Sample.page "1"]) "calculus help"))
             (Some [Sample.page "1"]) eq_refl eq_refl).
  - exact (proj2 (proj2 (performWebSearch_at_most_three
                           (Sample.answering [Sample.page "1"; Sample.page "2";
                                              Sample.page "3"; Sample.page "4"])
                           "calculus help"))
             (Some [Sample.page "1"; Sample.page "2"; Sample.page "3"; Sample.page "4"])
             eq_refl eq_refl).
Defined.

(** X23.  For a query that needs web search, the prompt announces a web
    search and gives the link of every result that the search handed on,
    canned results included. *)
Theorem web_results_in_prompt {casing : Str.Casing} (numberText : N → string) (w : Server.World)
    (query history : string) (r : WebSearch.Result) (link : string) :
  WebSearch.needsWebSearch query = true →
  r ∈ WebSearch.performWebSearch (Server.searchProvider w) query →
  WebSearch.link r = Some link →
  Str.occurs_in "I've searched the web for information related to this query."
    (Server.fullPrompt numberText w query history)
  ∧ Str.occurs_in link (Server.fullPrompt numberText w query history).
Proof.
  intros Hneeds Hin Hl.
  unfold Server.fullPrompt, Server.composeSystemMessage, Server.webSearchContext.
  cbv zeta. unfold WebSearch.getWebSearchContext. rewrite Hneeds. simpl negb. cbv iota.
  pose proof (WebFacts.format_gives_link r link _ Hin Hl) as Hlink.
  destruct (WebSearch.performWebSearch _ _) as [|r0 rs]; [by apply elem_of_nil in Hin|].
  destruct (WebFacts.format_nonempty r0 rs) as (c & text & Hfmt).
  rewrite Hfmt in Hlink |- *. split.
  - do 2 apply StrFacts.occurs_in_app_l. do 2 apply StrFacts.occurs_in_app_r.
    apply StrFacts.occurs_in_app_l.
    by apply StrFacts.includes_spec.
  - do 2 apply StrFacts.occurs_in_app_l. by do 3 apply StrFacts.occurs_in_app_r.
Qed.

Lemma web_results_in_prompt_witness :
  let prompt := Server.fullPrompt Sample.numberText Sample.offline "python tips" "" in
  Str.occurs_in "I've searched the web for information related to this query." prompt
  ∧ Str.occurs_in "https://realpython.com/" prompt.
Proof.
  apply (web_results_in_prompt Sample.numberText Sample.offline "python tips" ""
           (WebSearch.result "Real Python - Python Tutorials" "https://realpython.com/"
              "Python tutorials for developers of all skill levels, with in-depth articles and practical examples.")
           "https://realpython.com/").
  - reflexivity.
  - vm_compute. do 2 apply list_elem_of_further. apply list_elem_of_here.
  - reflexivity.
Defined.

Lemma navigation_info_gives_paths_witness :
  let info := Edu.getWebsiteNavigationInfo Examples.navigation
                "Where is the CSE page and where are the lab manuals?" in
  Str.occurs_in "/departments/cse" info ∧ Str.occurs_in "/resources/labs" info.
Proof.
  intros info.
  pose proof (navigation_info_gives_paths Examples.navigation
                "Where is the CSE page and where are the lab manuals?")
    as (_ & Hdept & Hres).
  split.
  - apply (Hdept {| Edu.Nav.dept_code := "CSE"; Edu.Nav.dept_name := "Computer Science";
                    Edu.Nav.dept_path := "/departments/cse";
                    Edu.Nav.dept_courses := ["CSE201"] |}).
    + apply list_elem_of_here.
    + left. by apply StrFacts.includes_spec.
  - apply (Hres {| Edu.Nav.res_name := "Lab Manuals"; Edu.Nav.res_path := "/resources/labs";
                   Edu.Nav.res_description := "Manuals of the laboratory courses." |}).
    + apply list_elem_of_here.
    + by apply StrFacts.includes_spec.
Defined.

Lemma searchResources_complete_witness :
  let r := Knowledge.searchResources Examples.library "SYLLABUS" in
  Examples.syllabus ∈ Knowledge.r_notes r ∧ Examples.cheatSheet ∈ Knowledge.r_downloads r.
Proof.
  intros r.
  pose proof (searchResources_complete Examples.library "SYLLABUS")
    as (_ & Hnotes & _ & Hdownloads & _).
  split.
  - apply Hnotes.
    + apply list_elem_of_further, list_elem_of_here.
    + left. by apply StrFacts.includes_spec.
  - apply Hdownloads.
    + discriminate.
    + apply list_elem_of_here.
    + right; right. exists ["git"; "Syllabus extras"], "Syllabus extras".
      split; [reflexivity|]. split; [apply list_elem_of_further, list_elem_of_here|].
      by apply StrFacts.includes_spec.
Defined.

(** ** Keys of the token map *)

Module KeyFacts.

Import Server Traffic.

Lemma fresh_keys_pass requests : ∀ tokens,
  NoDup (List.map fst requests) →
  (∀ key, key ∈ List.map fst requests → tokens !! key = None) →
  Forall (λ v, v.2 = Next) (serve tokens requests).2.
Proof.
  induction requests as [|[key now] later IH]; intros tokens Hnodup Hfresh;
    [constructor|].
  rewrite LimitFacts.serve_cons. cbn [fst snd].
  simpl in Hnodup. apply NoDup_cons in Hnodup as [Hnotin Hnodup].
  assert (tokens !! key = None) as Hkey by (apply Hfresh; apply list_elem_of_here).
  assert (Traffic.opensWindow tokens key now) as Hopen
    by (unfold Traffic.opensWindow; by rewrite Hkey).
  rewrite (RateFacts.open_window _ _ _ Hopen). cbn [fst snd].
  constructor; [done|]. apply IH; [done|].
  intros k Hk. rewrite lookup_insert_ne.
  - apply Hfresh. by apply list_elem_of_further.
  - by intros ->.
Qed.

End KeyFacts.

(** X24.  Requests under keys that differ from each other and that the
    token map does not hold yet all pass, however many they are and
    whenever they arrive: each opens a bucket of its own.  The key is the
    [userId] of the request body when it has one. *)
Theorem fresh_keys_are_never_limited (tokens : gmap string Server.Bucket)
    (requests : list (string * Z)) :
  NoDup (List.map fst requests) →
  (∀ key, key ∈ List.map fst requests → tokens !! key = None) →
  Forall (λ v, v.2 = Server.Next) (Traffic.serve tokens requests).2
  ∧ ∀ ip id, id ≠ "" → Server.identity (Some id) ip = id.
Proof.
  intros Hnodup Hfresh. split; [by apply KeyFacts.fresh_keys_pass|].
  by intros ip [|c id] Hid.
Qed.

Lemma fresh_keys_are_never_limited_witness :
  let requests :=
    [("u01", 1000); ("u02", 1000); ("u03", 1000); ("u04", 1000); ("u05", 1000);
     ("u06", 1000); ("u07", 1000); ("u08", 1000); ("u09", 1000); ("u10", 1000);
     ("u11", 1000); ("u12", 1000)] in
  Forall (λ v, v.2 = Server.Next) (Traffic.serve ∅ requests).2.
Proof.
  intros requests.
  refine (proj1 (fresh_keys_are_never_limited ∅ requests _ _)).
  - apply (bool_decide_unpack _). vm_compute. reflexivity.
  - intros key _. apply lookup_empty.
Defined.

(** ** Semesters outside the table *)

(** X25.  When the digit of the first semester named in the query is not
    a key of the semester table (it is 0 or 5 to 9), the semester stage of
    the prompt adds nothing. *)
Theorem semester_outside_table_adds_nothing (query systemMessage : string)
    (pre : list ascii) (d : ascii) (suffix ws word post : list ascii) :
  Shape.SemesterAt (Str.to_list query) pre d suffix ws word post →
  Shape.FirstSemester (Str.to_list query) pre →
  Str.of_list [d] ∉ ["1"; "2"; "3"; "4"] →
  Server.semesterContext query systemMessage = systemMessage.
Proof.
  intros Hat Hfirst Hout.
  destruct (SemesterFacts.exec_semester _ _ _ _ _ _ _ Hat Hfirst) as (m & Hexec & Hg).
  unfold Server.semesterContext. rewrite Hexec. cbv zeta. rewrite Hg.
  unfold Edu.getSemesterResources.
  destruct (Edu.semesterResources !! Str.of_list [d]) as [info|] eqn:Hinfo; [|done].
  destruct Hout. apply EduFacts.semesterResources_keys. by exists info.
Qed.

Lemma semester_outside_table_adds_nothing_witness :
  Server.semesterContext "5th semester timetable" Server.persona = Server.persona.
Proof.
  apply (semester_outside_table_adds_nothing "5th semester timetable" Server.persona
           [] "5" (Str.to_list "th") (Str.to_list " ") (Str.to_list "semester")
           (Str.to_list " timetable")).
  - unfold Shape.SemesterAt, Shape.all, Shape.no_word_before, Shape.no_word_after.
    split; [reflexivity|]. split; [reflexivity|].
    split; [right; right; right; right; repeat constructor|].
    split; [discriminate|]. split; [apply ReadFacts.blank_space|].
    split; [right; repeat constructor|].
    split; [intros c [=]|by intros c [= <-]].
  - intros pre' d' suffix' ws' word' post' _. simpl. lia.
  - simpl. rewrite !elem_of_cons, elem_of_nil.
    intros [H|[H|[H|[H|[]]]]]; discriminate H.
Defined.

(** ** Resources in the prompt *)

Module ContextFacts.

Import Str StrFacts Knowledge.

(** The line of a file in the context. *)
Lemma file_step acc (file : FileInfo) :
  ∃ e, acc +:+ "  * " +:+ name file +:+ " (" +:+ path file +:+ ")" +:+ nl = acc +:+ e.
Proof. eauto. Qed.

Lemma download_step acc (item : Download) :
  ∃ e, acc +:+ "  * " +:+ text (title item) +:+ " ("
         +:+ or_else (url item) "No URL provided" +:+ ")" +:+ nl = acc +:+ e.
Proof. eauto. Qed.

Lemma fileLines_keeps k context files :
  occurs_in k context → occurs_in k (fileLines context files).
Proof. apply EduFacts.foldl_keeps. apply file_step. Qed.

Lemma downloadLines_keeps k context items :
  occurs_in k context → occurs_in k (downloadLines context items).
Proof. apply EduFacts.foldl_keeps. apply download_step. Qed.

Lemma fileLines_mentions context files f :
  f ∈ take 3 files →
  occurs_in (name f +:+ " (" +:+ path f +:+ ")") (fileLines context files).
Proof.
  intros Hin. apply (EduFacts.foldl_mentions _ _ f); [apply file_step|done|].
  intros acc. do 2 apply occurs_in_app_r.
  exists "", nl. by rewrite sapp_nil_l, !sapp_assoc.
Qed.

Lemma positive_length {A} (x : A) l : x ∈ take 3 l → (0 <? length l)%nat = true.
Proof.
  destruct l; [by intros ?%elem_of_nil|]. done.
Qed.

Lemma keeps_if k (c : bool) (kept other : string) :
  occurs_in k other → (occurs_in k other → occurs_in k kept) →
  occurs_in k (if c then kept else other).
Proof. destruct c; auto. Qed.

End ContextFacts.

(** X26.  A file of the index that is among the first three matches of
    its category is named in the prompt, with its path. *)
Theorem prompt_lists_matching_files {casing : Str.Casing} (numberText : N → string) (w : Server.World)
    (query history : string) (f : Knowledge.FileInfo) :
  let r := Knowledge.searchResources (Server.resourceDatabase w) query in
  f ∈ take 3 (Knowledge.r_assignments r) ∨ f ∈ take 3 (Knowledge.r_notes r)
  ∨ f ∈ take 3 (Knowledge.r_labManuals r) →
  Str.occurs_in (Knowledge.name f +:+ " (" +:+ Knowledge.path f +:+ ")")
    (Server.fullPrompt numberText w query history).
Proof.
  intros r Hf.
  set (k := Knowledge.name f +:+ " (" +:+ Knowledge.path f +:+ ")").
  assert (Str.occurs_in k
            (Knowledge.getQueryContext numberText (Server.resourceDatabase w) query))
    as Hctx.
  { unfold Knowledge.getQueryContext. cbv zeta. fold r.
    assert ((0 <? Knowledge.totalResults r)%nat = true) as ->.
    { apply Nat.ltb_lt.
      destruct Hf as [H|[H|H]]; apply ContextFacts.positive_length, Nat.ltb_lt in H;
        unfold r in H |- *; simpl in H |- *; lia. }
    apply ContextFacts.keeps_if;
      [|intros Hk; by apply ContextFacts.downloadLines_keeps, StrFacts.occurs_in_app_l].
    destruct Hf as [H|[H|H]].
    - do 2 (apply ContextFacts.keeps_if;
            [|intros Hk; by apply ContextFacts.fileLines_keeps, StrFacts.occurs_in_app_l]).
      rewrite (ContextFacts.positive_length _ _ H).
      by apply ContextFacts.fileLines_mentions.
    - apply ContextFacts.keeps_if;
        [|intros Hk; by apply ContextFacts.fileLines_keeps, StrFacts.occurs_in_app_l].
      rewrite (ContextFacts.positive_length _ _ H).
      by apply ContextFacts.fileLines_mentions.
    - rewrite (ContextFacts.positive_length _ _ H).
      by apply ContextFacts.fileLines_mentions. }
  unfold Server.fullPrompt, Server.composeSystemMessage. cbv zeta.
  unfold Server.knowledgeContext at 1.
  destruct (Knowledge.getQueryContext numberText (Server.resourceDatabase w) query)
    as [|c ctx].
  - apply IndexFacts.occurs_in_empty in Hctx. unfold k in Hctx.
    destruct (Knowledge.name f); discriminate Hctx.
  - match goal with
    | |- context [Server.webSearchContext w query ?sm] =>
        destruct (PromptFacts.webSearchContext_appends w query sm) as [e ->]
    end.
    do 3 apply StrFacts.occurs_in_app_l. by do 2 apply StrFacts.occurs_in_app_r.
Qed.

Lemma prompt_lists_matching_files_witness :
  Examples.syllabus
  ∈ take 3 (Knowledge.r_notes (Knowledge.searchResources Examples.library "Syllabus"))
  ∧ Str.occurs_in "syllabus.md (resources/notes/syllabus.md)"
      (Server.fullPrompt Sample.numberText Examples.stocked "Syllabus" "").
Proof.
  assert (Examples.syllabus
          ∈ take 3 (Knowledge.r_notes
                      (Knowledge.searchResources Examples.library "Syllabus"))) as H.
  { vm_compute. apply list_elem_of_here. }
  split; [exact H|].
  exact (prompt_lists_matching_files Sample.numberText Examples.stocked
           "Syllabus" "" Examples.syllabus (or_intror (or_introl H))).
Defined.

(** ** Queries longer than the entries *)

Module LengthFacts.

Import Str StrFacts Knowledge.

Section Generic.

Context {casing : Str.Casing}.

Lemma length_app s t : String.length (s +:+ t) = (String.length s + String.length t)%nat.
Proof.
  induction s as [|c s IH]; [done|]. rewrite sapp_cons. simpl. by rewrite IH.
Qed.

Lemma occurs_in_length k s : occurs_in k s → (String.length k ≤ String.length s)%nat.
Proof. intros (pre & post & ->). rewrite !length_app. lia. Qed.

Lemma too_long q file :
  (String.length (toLowerCase (name file)) < String.length (toLowerCase q))%nat →
  (String.length (toLowerCase (path file)) < String.length (toLowerCase q))%nat →
  fileMatches (toLowerCase q) file = false.
Proof.
  intros Hname Hpath. unfold fileMatches. apply orb_false_iff.
  split; apply includes_false; intros H%occurs_in_length; lia.
Qed.

Lemma filter_none {A} (p : A → bool) (l : list A) :
  (∀ x, x ∈ l → p x = false) → List.filter p l = [].
Proof.
  induction l as [|x l IH]; intros Hp; simpl; [done|].
  rewrite (Hp x) by apply list_elem_of_here.
  apply IH. intros y Hy. by apply Hp, list_elem_of_further.
Qed.

End Generic.

End LengthFacts.

(** X27.  The query is looked for as one piece, in lower case: a query
    whose lower-cased form is longer than the lower-cased name and the
    lower-cased path of every file of the index finds no file (a text that
    occurs in another is not longer, counted in bytes as in code units). *)
Theorem long_query_finds_no_file {casing : Str.Casing} (db : Knowledge.ResourceDatabase)
    (query : string) :
  (∀ f, f ∈ Knowledge.assignments db ++ Knowledge.notes db ++ Knowledge.labManuals db →
        (String.length (Str.toLowerCase (Knowledge.name f))
         < String.length (Str.toLowerCase query))%nat
        ∧ (String.length (Str.toLowerCase (Knowledge.path f))
           < String.length (Str.toLowerCase query))%nat) →
  let r := Knowledge.searchResources db query in
  Knowledge.r_assignments r = [] ∧ Knowledge.r_notes r = []
  ∧ Knowledge.r_labManuals r = [].
Proof.
  intros Hshort. simpl.
  repeat split; apply LengthFacts.filter_none; intros f Hf;
    apply LengthFacts.too_long; apply Hshort; rewrite !elem_of_app; auto.
Qed.

Lemma long_query_finds_no_file_witness :
  let r := Knowledge.searchResources Examples.library
             "where can I find the syllabus of the notes?" in
  Knowledge.r_assignments r = [] ∧ Knowledge.r_notes r = []
  ∧ Knowledge.r_labManuals r = [].
Proof.
  apply (long_query_finds_no_file Examples.library
           "where can I find the syllabus of the notes?").
  intros f Hf. simpl in Hf. rewrite !elem_of_cons, elem_of_nil in Hf.
  destruct Hf as [->|[->|[]]]; split; apply Nat.ltb_lt; reflexivity.
Defined.
